(** * LEAP sequential orchestrator: a shallow embedding

    The development follows [src/leap_agent/orchestrator.py].  Python
    strings are lists of code points, Python values that travel through
    the orchestrator (parsed JSON, tool results) are the inductive
    [pyval], and the stateful methods of [LEAPOrchestrator] are
    functions in a small state-and-exception monad over the
    orchestrator object and the outside world. *)

From Stdlib Require Import ZArith NArith List Bool Lia String Ascii Floats DecimalString.
From Stdlib Require Decimal DecimalPos DecimalN DecimalZ.
Import ListNotations.

Set Implicit Arguments.
Set Warnings "-register-all".

(** ** Text *)

(** A Python [str] is a sequence of code points. *)
Definition char := N.
Definition pystr := list char.

(** Literals.  [lit] reads a literal as it stands; [jq] reads it with
    every apostrophe standing for a double quote, so that JSON texts can
    be written down legibly. *)
Definition lit (s : string) : pystr :=
  List.map N_of_ascii (list_ascii_of_string s).

Definition jq (s : string) : pystr :=
  List.map (fun a => if Ascii.eqb a "'"%char then 34%N else N_of_ascii a)
           (list_ascii_of_string s).

Module Ch.
Local Open Scope N_scope.
Definition dquote : char := 34.
Definition backslash : char := 92.
Definition slash : char := 47.
Definition lbrace : char := 123.
Definition rbrace : char := 125.
Definition lbracket : char := 91.
Definition rbracket : char := 93.
Definition colon : char := 58.
Definition comma : char := 44.
Definition minus : char := 45.
Definition plus : char := 43.
Definition dot : char := 46.
Definition lt : char := 60.
Definition backtick : char := 96.
Definition newline : char := 10.
Definition space : char := 32.
End Ch.

Section Text.
Local Open Scope N_scope.

(** [Py_UNICODE_ISSPACE]: the characters [str.strip()] trims and the
    regular-expression class [\s] matches on [str] patterns. *)
Definition isspace (c : char) : bool :=
  ((9 <=? c) && (c <=? 13)) || ((28 <=? c) && (c <=? 32))
  || (c =? 133) || (c =? 160) || (c =? 5760)
  || ((8192 <=? c) && (c <=? 8202))
  || (c =? 8232) || (c =? 8233) || (c =? 8239) || (c =? 8287) || (c =? 12288).

(** [strip_prefix p s] is [Some r] when [s = p ++ r]. *)
Fixpoint strip_prefix (p s : pystr) : option pystr :=
  match p with
  | [] => Some s
  | a :: p' =>
      match s with
      | b :: s' => if a =? b then strip_prefix p' s' else None
      | [] => None
      end
  end.

Definition startswith (s p : pystr) : bool :=
  match strip_prefix p s with Some _ => true | None => false end.

Fixpoint pystr_eqb (a b : pystr) : bool :=
  match a, b with
  | [], [] => true
  | x :: a', y :: b' => (x =? y) && pystr_eqb a' b'
  | _, _ => false
  end.

(** [s.lstrip()], [s.rstrip()], [s.strip()]. *)
Fixpoint lstrip (s : pystr) : pystr :=
  match s with
  | c :: s' => if isspace c then lstrip s' else s
  | [] => []
  end.

Definition rstrip (s : pystr) : pystr := rev (lstrip (rev s)).

Definition strip (s : pystr) : pystr := rstrip (lstrip s).

(** [s[:n]] for a non-negative constant [n]. *)
Definition slice_to (n : nat) (s : pystr) : pystr := firstn n s.

(** [len(s)]. *)
Definition len (s : pystr) : Z := Z.of_nat (List.length s).

(** [sep.join(parts)]. *)
Fixpoint join (sep : pystr) (parts : list pystr) : pystr :=
  match parts with
  | [] => []
  | [p] => p
  | p :: rest => p ++ sep ++ join sep rest
  end.

(** [text.find(c)] followed by [text[start:]]: the suffix that starts at
    the first occurrence of [c]. *)
Fixpoint suffix_from (c : char) (text : pystr) : option pystr :=
  match text with
  | [] => None
  | x :: text' => if x =? c then Some text else suffix_from c text'
  end.

End Text.

(** ** Regular-expression substitutions

    The orchestrator only ever calls [re.sub(pattern, '', text)] with a
    pattern that cannot match the empty string.  A pattern is given by
    its matcher at a position: [Some rest] when it matches a non-empty
    prefix and [rest] follows the match.  [re.sub] scans left to right,
    deletes a match where there is one and resumes after it, and copies
    one character where there is none. *)

Definition matcher := pystr -> option pystr.

Fixpoint sub_fuel (m : matcher) (fuel : nat) (s : pystr) : pystr :=
  match fuel with
  | O => s
  | S fuel' =>
      match s with
      | [] => []
      | c :: s' =>
          match m s with
          | Some rest => sub_fuel m fuel' rest
          | None => c :: sub_fuel m fuel' s'
          end
      end
  end.

Definition re_sub_delete (m : matcher) (s : pystr) : pystr :=
  sub_fuel m (List.length s) s.

(** The text after the first occurrence of [needle]: what a non-greedy
    [.*?needle] (with DOTALL) leaves unread. *)
Fixpoint after_first (needle s : pystr) : option pystr :=
  match strip_prefix needle s with
  | Some rest => Some rest
  | None =>
      match s with
      | [] => None
      | _ :: s' => after_first needle s'
      end
  end.

Definition think_open : pystr := lit "<think>".
Definition think_close : pystr := lit "</think>".

(** [<think>.*?</think>] with [re.DOTALL]. *)
Definition match_think : matcher := fun s =>
  match strip_prefix think_open s with
  | Some body => after_first think_close body
  | None => None
  end.

(** [```json\s*] and [```\s*]: the fence and the white space after it. *)
Definition match_json_fence : matcher := fun s =>
  match strip_prefix (lit "```json") s with
  | Some rest => Some (lstrip rest)
  | None => None
  end.

Definition match_fence : matcher := fun s =>
  match strip_prefix (lit "```") s with
  | Some rest => Some (lstrip rest)
  | None => None
  end.

(** [re.sub(r'<think>.*?</think>', '', text, flags=re.DOTALL)]. *)
Definition strip_think (text : pystr) : pystr := re_sub_delete match_think text.

(** The first four statements of [_parse_tool_request]. *)
Definition clean_response (response : pystr) : pystr :=
  let response := strip_think response in
  let response := re_sub_delete match_json_fence response in
  let response := re_sub_delete match_fence response in
  strip response.

(** ** Brace-balanced extraction: [extract_json_object] *)

Section Extract.
Local Open Scope Z_scope.

(** The [for] loop over [text[start:]]: [depth] counts open braces, and
    the scan returns the characters read so far when a closing brace
    brings the depth to zero. *)
Fixpoint balance (depth : Z) (s : pystr) : option pystr :=
  match s with
  | [] => None
  | c :: s' =>
      if N.eqb c Ch.lbrace then option_map (cons c) (balance (depth + 1) s')
      else if N.eqb c Ch.rbrace then
        if depth - 1 =? 0 then Some [c]
        else option_map (cons c) (balance (depth - 1) s')
      else option_map (cons c) (balance depth s')
  end.

Definition extract_json_object (text : pystr) : option pystr :=
  match suffix_from Ch.lbrace text with
  | None => None
  | Some rest => balance 0 rest
  end.

End Extract.

(** ** Python values *)

(** The values that reach the orchestrator: what [json.loads] builds and
    what tools return.  [PObj] stands for any other object (a tool may
    return one inside its result); it is known only by its [str()] and
    is not JSON serialisable.  Dictionaries keep insertion order and
    have string keys. *)
Inductive pyval : Type :=
| PNone
| PBool (b : bool)
| PInt (z : Z)
| PFloat (f : float)
| PStr (s : pystr)
| PList (items : list pyval)
| PDict (entries : list (pystr * pyval))
| PObj (descr : pystr).

Definition pydict := list (pystr * pyval).

(** [d.get(k)] / [d[k]], [k in d] and [d[k] = v] for a string key. *)
Fixpoint dict_get (d : pydict) (k : pystr) : option pyval :=
  match d with
  | [] => None
  | (k', v) :: d' => if pystr_eqb k' k then Some v else dict_get d' k
  end.

Definition dict_has (d : pydict) (k : pystr) : bool :=
  match dict_get d k with Some _ => true | None => false end.

Fixpoint dict_set (d : pydict) (k : pystr) (v : pyval) : pydict :=
  match d with
  | [] => [(k, v)]
  | (k', v') :: d' =>
      if pystr_eqb k' k then (k', v) :: d' else (k', v') :: dict_set d' k v
  end.

Definition dict_keys (d : pydict) : list pystr := List.map fst d.

(** [dict(pairs)]: later pairs overwrite earlier ones in place. *)
Definition dict_of_pairs (pairs : list (pystr * pyval)) : pydict :=
  fold_left (fun d kv => dict_set d (fst kv) (snd kv)) pairs [].

(** Truth value of an object, as [if x:] tests it. *)
Definition truthy (v : pyval) : bool :=
  match v with
  | PNone => false
  | PBool b => b
  | PInt z => negb (Z.eqb z 0)
  | PFloat f => negb (PrimFloat.eqb f 0%float)
  | PStr s => match s with [] => false | _ => true end
  | PList l => match l with [] => false | _ => true end
  | PDict d => match d with [] => false | _ => true end
  | PObj _ => true
  end.

(** Lists and dictionaries are unhashable: using one as a dictionary key
    (also in a membership test) raises [TypeError]. *)
Definition hashable (v : pyval) : bool :=
  match v with
  | PList _ | PDict _ => false
  | _ => true
  end.

Definition type_name (v : pyval) : pystr :=
  match v with
  | PNone => lit "NoneType"
  | PBool _ => lit "bool"
  | PInt _ => lit "int"
  | PFloat _ => lit "float"
  | PStr _ => lit "str"
  | PList _ => lit "list"
  | PDict _ => lit "dict"
  | PObj _ => lit "object"
  end.

(** Decimal text of an integer: [str(n)]. *)
Definition int_str (z : Z) : pystr :=
  lit (DecimalString.NilZero.string_of_int (Z.to_int z)).

(** ** The environment

    Everything the orchestrator calls but does not define: the generation
    adapter, the tool callables, the clock, and the interpreter's
    conversions between floats or containers and text. *)
Class Env : Type := {
  (** state of the outside world (model backend, file system, clock) *)
  World : Type;
  (** [OllamaInference.generate(model, prompt, temperature, max_tokens)]:
      the reply, or the message of the [RuntimeError] it raises *)
  generate : pystr -> pystr -> float -> Z -> World -> (pystr + pystr) * World;
  (** a tool callable, named by its function, called with [**params]
      ([Some params]) or without arguments ([None]): its result, or
      [str(e)] of the exception the call raises *)
  call_tool : pystr -> option pyval -> World -> (pyval + pystr) * World;
  (** [time.time()] *)
  time_time : World -> float * World;
  (** [float(text)] on the text of a JSON number *)
  float_of_literal : pystr -> float;
  (** [float.__repr__] *)
  float_repr : float -> pystr;
  (** [repr] of containers and other objects *)
  py_repr : pyval -> pystr;
  (** [f"{x:.0f}"] *)
  format_0f : float -> pystr
}.

(** ** JSON: [json.loads] *)

(** Outcome of a scanning step: a value and the unread text, a decode
    error, or fuel exhausted (never with the fuel [json_loads] gives,
    see [scan_once_fuel]). *)
Inductive jres (A : Type) : Type :=
| JOk (a : A) (rest : pystr)
| JErr
| JFuel.
Arguments JErr {A}.
Arguments JFuel {A}.

Section Json.
Context {E : Env}.
Local Open Scope N_scope.

Definition is_json_ws (c : char) : bool :=
  (c =? 32) || (c =? 9) || (c =? 10) || (c =? 13).

Fixpoint skip_ws (s : pystr) : pystr :=
  match s with
  | c :: s' => if is_json_ws c then skip_ws s' else s
  | [] => []
  end.

Definition is_digit (c : char) : bool := (48 <=? c) && (c <=? 57).

Definition hex_val (c : char) : option N :=
  if (48 <=? c) && (c <=? 57) then Some (c - 48)
  else if (97 <=? c) && (c <=? 102) then Some (c - 87)
  else if (65 <=? c) && (c <=? 70) then Some (c - 55)
  else None.

(** [_decode_uXXXX]: four hexadecimal digits. *)
Definition hex4 (a b c d : char) : option N :=
  match hex_val a, hex_val b, hex_val c, hex_val d with
  | Some x, Some y, Some z, Some w => Some (((x * 16 + y) * 16 + z) * 16 + w)
  | _, _, _, _ => None
  end.

(** The [BACKSLASH] table of the decoder. *)
Definition unescape (e : char) : option char :=
  if e =? 34 then Some 34
  else if e =? 92 then Some 92
  else if e =? 47 then Some 47
  else if e =? 98 then Some 8
  else if e =? 102 then Some 12
  else if e =? 110 then Some 10
  else if e =? 114 then Some 13
  else if e =? 116 then Some 9
  else None.

Definition cons_str (c : char) (r : option (pystr * pystr)) : option (pystr * pystr) :=
  match r with
  | Some (str, rest) => Some (c :: str, rest)
  | None => None
  end.

(** [scanstring] in strict mode, started after the opening quote: the
    decoded string and the text after the closing quote. *)
Fixpoint scanstring (s : pystr) : option (pystr * pystr) :=
  match s with
  | [] => None
  | c :: s1 =>
      if c =? 34 then Some ([], s1)
      else if c =? 92 then
        match s1 with
        | [] => None
        | e :: s2 =>
            if e =? 117 then
              match s2 with
              | h1 :: h2 :: h3 :: h4 :: s3 =>
                  match hex4 h1 h2 h3 h4 with
                  | None => None
                  | Some uni =>
                      if (55296 <=? uni) && (uni <=? 56319) then
                        match s3 with
                        | b :: u :: s4 =>
                            if (b =? 92) && (u =? 117) then
                              match s4 with
                              | l1 :: l2 :: l3 :: l4 :: s5 =>
                                  match hex4 l1 l2 l3 l4 with
                                  | None => None
                                  | Some uni2 =>
                                      if (56320 <=? uni2) && (uni2 <=? 57343) then
                                        cons_str (65536 + N.lor (N.shiftl (uni - 55296) 10) (uni2 - 56320))
                                                 (scanstring s5)
                                      else cons_str uni (scanstring s3)
                                  end
                              | _ => None
                              end
                            else cons_str uni (scanstring s3)
                        | _ => cons_str uni (scanstring s3)
                        end
                      else cons_str uni (scanstring s3)
                  end
              | _ => None
              end
            else
              match unescape e with
              | Some ch => cons_str ch (scanstring s2)
              | None => None
              end
        end
      else if c <? 32 then None
      else cons_str c (scanstring s1)
  end.

(** [NUMBER_RE]: an optional minus sign and either 0 or a digit 1-9
    followed by digits; optionally a dot and digits; optionally e or E,
    an optional sign and digits. *)
Fixpoint span_digits (s : pystr) : pystr * pystr :=
  match s with
  | c :: s' =>
      if is_digit c then let (d, r) := span_digits s' in (c :: d, r) else ([], s)
  | [] => ([], [])
  end.

Definition match_int (s : pystr) : option (pystr * pystr) :=
  let (sign, s1) :=
    match s with
    | c :: s' => if c =? 45 then ([c], s') else ([], s)
    | [] => ([], s)
    end in
  match s1 with
  | c :: s2 =>
      if c =? 48 then Some (sign ++ [c], s2)
      else if is_digit c then
        let (d, r) := span_digits s2 in Some (sign ++ c :: d, r)
      else None
  | [] => None
  end.

Definition match_frac (s : pystr) : option (pystr * pystr) :=
  match s with
  | c :: s1 =>
      if c =? 46 then
        match span_digits s1 with
        | ([], _) => None
        | (d, r) => Some (c :: d, r)
        end
      else None
  | [] => None
  end.

Definition match_exp (s : pystr) : option (pystr * pystr) :=
  match s with
  | c :: s1 =>
      if (c =? 101) || (c =? 69) then
        let (sg, s2) :=
          match s1 with
          | x :: s1' => if (x =? 45) || (x =? 43) then ([x], s1') else ([], s1)
          | [] => ([], s1)
          end in
        match span_digits s2 with
        | ([], _) => None
        | (d, r) => Some (c :: sg ++ d, r)
        end
      else None
  | [] => None
  end.

(** [int(text)] on the integer part matched by [NUMBER_RE]. *)
Definition digits_value (ds : pystr) : Z :=
  fold_left (fun acc c => (acc * 10 + Z.of_N (c - 48))%Z) ds 0%Z.

Definition int_of_literal (i : pystr) : Z :=
  match i with
  | c :: ds => if c =? 45 then (- digits_value ds)%Z else digits_value i
  | [] => 0%Z
  end.

Definition match_number (s : pystr) : option (pyval * pystr) :=
  match match_int s with
  | None => None
  | Some (i, s1) =>
      match match_frac s1 with
      | Some (f, s2) =>
          match match_exp s2 with
          | Some (e, s3) => Some (PFloat (float_of_literal (i ++ f ++ e)), s3)
          | None => Some (PFloat (float_of_literal (i ++ f)), s2)
          end
      | None =>
          match match_exp s1 with
          | Some (e, s3) => Some (PFloat (float_of_literal (i ++ e)), s3)
          | None => Some (PInt (int_of_literal i), s1)
          end
      end
  end.

(** The constants and numbers of [py_make_scanner._scan_once], tried in
    its order once the value starts neither a string, an object nor an
    array. *)
Definition scan_atom (s : pystr) : jres pyval :=
  match strip_prefix (lit "null") s with
  | Some r => JOk PNone r
  | None =>
  match strip_prefix (lit "true") s with
  | Some r => JOk (PBool true) r
  | None =>
  match strip_prefix (lit "false") s with
  | Some r => JOk (PBool false) r
  | None =>
  match match_number s with
  | Some (v, r) => JOk v r
  | None =>
  match strip_prefix (lit "NaN") s with
  | Some r => JOk (PFloat PrimFloat.nan) r
  | None =>
  match strip_prefix (lit "Infinity") s with
  | Some r => JOk (PFloat PrimFloat.infinity) r
  | None =>
  match strip_prefix (lit "-Infinity") s with
  | Some r => JOk (PFloat PrimFloat.neg_infinity) r
  | None => JErr
  end end end end end end end.

(** [scan_once], with [JSONObject] and [JSONArray] as its two loops.
    [parse_object_loop] starts after the opening quote of a key,
    [parse_array_loop] at a value. *)
Fixpoint scan_once (fuel : nat) (s : pystr) {struct fuel} : jres pyval :=
  match fuel with
  | O => JFuel
  | S n =>
      match s with
      | [] => JErr
      | c :: s' =>
          if c =? 34 then
            match scanstring s' with
            | Some (str, r) => JOk (PStr str) r
            | None => JErr
            end
          else if c =? 123 then
            match skip_ws s' with
            | x :: s2 =>
                if x =? 34 then
                  match parse_object_loop n [] s2 with
                  | JOk d r => JOk (PDict d) r
                  | JErr => JErr
                  | JFuel => JFuel
                  end
                else if x =? 125 then JOk (PDict []) s2
                else JErr
            | [] => JErr
            end
          else if c =? 91 then
            match skip_ws s' with
            | x :: s2 =>
                if x =? 93 then JOk (PList []) s2
                else
                  match parse_array_loop n [] (x :: s2) with
                  | JOk l r => JOk (PList l) r
                  | JErr => JErr
                  | JFuel => JFuel
                  end
            | [] => JErr
            end
          else scan_atom s
      end
  end

with parse_object_loop (fuel : nat) (pairs : list (pystr * pyval)) (s : pystr)
       {struct fuel} : jres pydict :=
  match fuel with
  | O => JFuel
  | S n =>
      match scanstring s with
      | None => JErr
      | Some (key, s1) =>
          match skip_ws s1 with
          | c :: s2 =>
              if c =? 58 then
                match scan_once n (skip_ws s2) with
                | JOk value s3 =>
                    let pairs := pairs ++ [(key, value)] in
                    match skip_ws s3 with
                    | x :: s4 =>
                        if x =? 125 then JOk (dict_of_pairs pairs) s4
                        else if x =? 44 then
                          match skip_ws s4 with
                          | q :: s5 =>
                              if q =? 34 then parse_object_loop n pairs s5 else JErr
                          | [] => JErr
                          end
                        else JErr
                    | [] => JErr
                    end
                | JErr => JErr
                | JFuel => JFuel
                end
              else JErr
          | [] => JErr
          end
      end
  end

with parse_array_loop (fuel : nat) (values : list pyval) (s : pystr)
       {struct fuel} : jres (list pyval) :=
  match fuel with
  | O => JFuel
  | S n =>
      match scan_once n s with
      | JOk value s1 =>
          let values := values ++ [value] in
          match skip_ws s1 with
          | x :: s2 =>
              if x =? 93 then JOk values s2
              else if x =? 44 then parse_array_loop n values (skip_ws s2)
              else JErr
          | [] => JErr
          end
      | JErr => JErr
      | JFuel => JFuel
      end
  end.

(** [json.loads(s)]: [None] stands for [json.JSONDecodeError].  A
    nested value costs two units of fuel for each character at most. *)
Definition json_loads (s : pystr) : option pyval :=
  match scan_once (S (2 * List.length s)) (skip_ws s) with
  | JOk v rest =>
      match skip_ws rest with
      | [] => Some v
      | _ :: _ => None
      end
  | JErr => None
  | JFuel => None
  end.

End Json.

(** ** JSON: [json.dumps], and [str()] *)

Section Dumps.
Context {E : Env}.
Local Open Scope N_scope.

Definition hex_digit (n : N) : char := if n <? 10 then 48 + n else 87 + n.

(** ["\\u{0:04x}".format(n)] *)
Definition u_escape (n : N) : pystr :=
  [92; 117; hex_digit (n / 4096); hex_digit ((n / 256) mod 16);
   hex_digit ((n / 16) mod 16); hex_digit (n mod 16)].

(** One character under [py_encode_basestring_ascii]. *)
Definition escape_char (c : char) : pystr :=
  if c =? 34 then [92; 34]
  else if c =? 92 then [92; 92]
  else if c =? 10 then [92; 110]
  else if c =? 13 then [92; 114]
  else if c =? 9 then [92; 116]
  else if c =? 8 then [92; 98]
  else if c =? 12 then [92; 102]
  else if (32 <=? c) && (c <=? 126) then [c]
  else if c <? 65536 then u_escape c
  else
    let n := c - 65536 in
    u_escape (N.lor 55296 (N.land (N.shiftr n 10) 1023))
    ++ u_escape (N.lor 56320 (N.land n 1023)).

Definition encode_basestring_ascii (s : pystr) : pystr :=
  34 :: flat_map escape_char s ++ [34].

(** [floatstr] of the encoder. *)
Definition floatstr (f : float) : pystr :=
  if PrimFloat.is_nan f then lit "NaN"
  else if PrimFloat.eqb f PrimFloat.infinity then lit "Infinity"
  else if PrimFloat.eqb f PrimFloat.neg_infinity then lit "-Infinity"
  else float_repr f.

Definition newline_indent (indent : option nat) (level : nat) : pystr :=
  match indent with
  | Some k => 10 :: repeat 32 (k * level)
  | None => []
  end.

Definition item_separator (indent : option nat) : pystr :=
  match indent with
  | Some _ => lit ","
  | None => lit ", "
  end.

Definition all_some {A : Type} (l : list (option A)) : option (list A) :=
  fold_right (fun x acc =>
                match x, acc with
                | Some a, Some r => Some (a :: r)
                | _, _ => None
                end) (Some []) l.

(** [json.dumps(v, indent=indent)] at nesting depth [level]; [None]
    stands for the [TypeError] raised on an object that is not JSON
    serialisable. *)
Fixpoint encode (indent : option nat) (level : nat) (v : pyval) {struct v}
  : option pystr :=
  match v with
  | PNone => Some (lit "null")
  | PBool true => Some (lit "true")
  | PBool false => Some (lit "false")
  | PInt z => Some (int_str z)
  | PFloat f => Some (floatstr f)
  | PStr s => Some (encode_basestring_ascii s)
  | PList items =>
      match items with
      | [] => Some (lit "[]")
      | _ :: _ =>
          match all_some (List.map (encode indent (S level)) items) with
          | Some parts =>
              Some (lit "[" ++ newline_indent indent (S level)
                    ++ join (item_separator indent ++ newline_indent indent (S level)) parts
                    ++ newline_indent indent level ++ lit "]")
          | None => None
          end
      end
  | PDict entries =>
      match entries with
      | [] => Some (lit "{}")
      | _ :: _ =>
          match all_some
                  (List.map (fun kv =>
                               match encode indent (S level) (snd kv) with
                               | Some t => Some (encode_basestring_ascii (fst kv) ++ lit ": " ++ t)
                               | None => None
                               end) entries) with
          | Some parts =>
              Some (lit "{" ++ newline_indent indent (S level)
                    ++ join (item_separator indent ++ newline_indent indent (S level)) parts
                    ++ newline_indent indent level ++ lit "}")
          | None => None
          end
      end
  | PObj _ => None
  end.

Definition json_dumps (v : pyval) : option pystr := encode None 0 v.
Definition json_dumps_indent (k : nat) (v : pyval) : option pystr := encode (Some k) 0 v.

(** [str(v)] *)
Definition py_str (v : pyval) : pystr :=
  match v with
  | PStr s => s
  | PNone => lit "None"
  | PBool true => lit "True"
  | PBool false => lit "False"
  | PInt z => int_str z
  | PFloat f => float_repr f
  | PObj d => d
  | PList _ | PDict _ => py_repr v
  end.

End Dumps.

(** ** The orchestrator object *)

(** [LEAPConfig], the fields the orchestrator reads. *)
Record LEAPConfig : Type := {
  main_model : pystr;
  sub_model : pystr;
  main_temperature : float;
  sub_temperature : float;
  warmup_models : bool;
  enable_filtering : bool;
  verbose : bool
}.

Definition default_config : LEAPConfig := {|
  main_model := lit "qwen3:1.7b";
  sub_model := lit "gemma3:1b";
  main_temperature := 0x1.3333333333333p-2%float;  (* 0.3 *)
  sub_temperature := 0%float;
  warmup_models := true;
  enable_filtering := true;
  verbose := false
|}.

(** [OrchestrationMetrics].  [tool_name] is assigned whatever the
    request carries under [tool]. *)
Record OrchestrationMetrics : Type := {
  phase1_time : float;
  phase2_time : float;
  phase3_time : float;
  total_time : float;
  tool_name : pyval;
  raw_response_tokens : Z;
  filtered_response_tokens : Z;
  token_reduction : float
}.

Definition new_metrics : OrchestrationMetrics := {|
  phase1_time := 0%float;
  phase2_time := 0%float;
  phase3_time := 0%float;
  total_time := 0%float;
  tool_name := PStr [];
  raw_response_tokens := 0;
  filtered_response_tokens := 0;
  token_reduction := 0%float
|}.

(** What a run does, in the order it does it: the log is not a field of
    the Python object, it records the calls the properties speak about. *)
Inductive event : Type :=
| EvTurn (current_turn : Z)     (* an iteration of the turn loop begins *)
| EvPlanning                    (* [_phase1_planning] is called *)
| EvExecution                   (* [_phase2_execution] is called *)
| EvStateUpdate                 (* [_phase3_update_state] is called *)
| EvDirect                      (* [_direct_response] is called *)
| EvFinal                       (* [_generate_final_answer] is called *)
| EvGenerate (model prompt : pystr)  (* [inference.generate] is called *)
| EvTool (function : pystr)     (* a tool callable is called *)
| EvFinish                      (* the planner selected no tool *)
| EvLimit.                      (* the loop condition failed *)

Inductive exn : Type :=
| RuntimeError (msg : pystr)
| TypeError (msg : pystr).

Inductive result (A : Type) : Type :=
| Ok (a : A)
| Raise (e : exn).
Arguments Raise {A}.

(** How an iteration of the turn loop ends. *)
Inductive flow : Type :=
| Return (answer : pystr)
| Break
| Next.

(** [TOOL_CATALOGUE] of [catalogue.py], in insertion order. *)
Definition TOOL_CATALOGUE : list (pystr * pystr) :=
  [ (lit "read_file", lit "Read file contents");
    (lit "write_file", lit "Write content to file (overwrite)");
    (lit "replace_in_file", lit "Replace text in file");
    (lit "insert_in_file", lit "Insert text/lines in file");
    (lit "list_directory", lit "List directory contents");
    (lit "search_files", lit "Find files by pattern");
    (lit "file_info", lit "Get file metadata");
    (lit "run_shell_command", lit "Execute shell command");
    (lit "get_shell_env", lit "Get system environment info");
    (lit "web_search", lit "Search the web");
    (lit "news_search", lit "Search recent news");
    (lit "fetch_url", lit "Fetch webpage content");
    (lit "crawl_webpage", lit "Crawl and extract from URL");
    (lit "analyze_code", lit "Analyze Python file structure");
    (lit "grep_code", lit "Search pattern in code files");
    (lit "find_definition", lit "Find definition of symbol");
    (lit "read_definition", lit "Read source of function/class");
    (lit "replace_definition", lit "Replace source of function/class");
    (lit "calculate", lit "Evaluate math expression");
    (lit "get_current_time", lit "Get current date/time");
    (lit "parse_json", lit "Parse/format JSON") ].

Definition get_catalogue_prompt : pystr :=
  join [Ch.newline]
       (lit "Available tools:"
        :: List.map (fun nd => lit "  " ++ fst nd ++ lit ": " ++ snd nd) TOOL_CATALOGUE).

(** [_load_tools]: the registry, from tool name to the callable. *)
Definition _load_tools : list (pystr * pystr) :=
  [ (lit "read_file", lit "file_tools.read_file");
    (lit "write_file", lit "file_tools.write_file");
    (lit "replace_in_file", lit "file_tools.replace_in_file");
    (lit "insert_in_file", lit "file_tools.insert_in_file");
    (lit "list_directory", lit "file_tools.list_directory");
    (lit "search_files", lit "file_tools.search_files");
    (lit "file_info", lit "file_tools.file_info");
    (lit "run_shell_command", lit "shell_tools.run_command");
    (lit "get_shell_env", lit "shell_tools.get_environment");
    (lit "web_search", lit "web_tools.web_search");
    (lit "news_search", lit "web_tools.news_search");
    (lit "fetch_url", lit "web_tools.fetch_url");
    (lit "crawl_webpage", lit "web_tools.crawl_webpage");
    (lit "analyze_code", lit "code_tools.analyze_code");
    (lit "grep_code", lit "code_tools.grep_code");
    (lit "find_definition", lit "code_tools.find_definition");
    (lit "read_definition", lit "code_tools.read_definition");
    (lit "replace_definition", lit "code_tools.replace_definition");
    (lit "calculate", lit "utility_tools.calculate");
    (lit "get_current_time", lit "utility_tools.get_datetime");
    (lit "parse_json", lit "utility_tools.json_parse") ].

(** [self.tools[name]] for a string [name]. *)
Fixpoint registry_get (tools : list (pystr * pystr)) (name : pystr) : option pystr :=
  match tools with
  | [] => None
  | (k, f) :: tools' => if pystr_eqb k name then Some f else registry_get tools' name
  end.

(** [re.search(r'[\{\[].*[\}\]]', text, re.DOTALL)]: from the first
    opening brace or bracket to the last closing one after it. *)
Section Search.
Local Open Scope N_scope.

Definition is_opener (c : char) : bool := (c =? 123) || (c =? 91).
Definition is_closer (c : char) : bool := (c =? 125) || (c =? 93).

Fixpoint upto_last_closer (s : pystr) : option pystr :=
  match s with
  | [] => None
  | c :: s' =>
      match upto_last_closer s' with
      | Some r => Some (c :: r)
      | None => if is_closer c then Some [c] else None
      end
  end.

Fixpoint search_json_span (s : pystr) : option pystr :=
  match s with
  | [] => None
  | c :: s' =>
      if is_opener c then option_map (cons c) (upto_last_closer s')
      else search_json_span s'
  end.

End Search.

(** ** The methods of [LEAPOrchestrator] *)

Section Orchestrator.
Context {E : Env}.
Local Open Scope Z_scope.

(** The orchestrator object together with the world it acts on. *)
Record Orch : Type := {
  config : LEAPConfig;
  metrics : OrchestrationMetrics;
  state_summary : pystr;
  world : World;
  trace : list event
}.

(** A method: it reads and updates the object and the world, and
    returns or raises.  State changes made before an exception stay. *)
Definition M (A : Type) : Type := Orch -> result A * Orch.

Definition ret {A : Type} (a : A) : M A := fun st => (Ok a, st).

Definition bind {A B : Type} (m : M A) (k : A -> M B) : M B :=
  fun st =>
    match m st with
    | (Ok a, st') => k a st'
    | (Raise e, st') => (Raise e, st')
    end.

Definition raise {A : Type} (e : exn) : M A := fun st => (Raise e, st).

Notation "x <- m ;; k" := (bind m (fun x => k))
  (at level 61, m at next level, right associativity).
Notation "m ;;; k" := (bind m (fun _ => k))
  (at level 61, right associativity).

Definition log (e : event) : M unit := fun st =>
  (Ok tt, {| config := config st; metrics := metrics st;
             state_summary := state_summary st; world := world st;
             trace := trace st ++ [e] |}).

Definition get_config : M LEAPConfig := fun st => (Ok (config st), st).
Definition get_summary : M pystr := fun st => (Ok (state_summary st), st).
Definition get_metrics_record : M OrchestrationMetrics := fun st => (Ok (metrics st), st).

Definition set_summary (s : pystr) : M unit := fun st =>
  (Ok tt, {| config := config st; metrics := metrics st;
             state_summary := s; world := world st; trace := trace st |}).

Definition set_metrics (m : OrchestrationMetrics) : M unit := fun st =>
  (Ok tt, {| config := config st; metrics := m;
             state_summary := state_summary st; world := world st;
             trace := trace st |}).

Definition set_world (w : World) (st : Orch) : Orch :=
  {| config := config st; metrics := metrics st;
     state_summary := state_summary st; world := w; trace := trace st |}.

(** [time.time()] *)
Definition now : M float := fun st =>
  let (t, w) := time_time (world st) in (Ok t, set_world w st).

(** [self.inference.generate(model=..., prompt=..., temperature=...,
    max_tokens=...)] *)
Definition inference_generate (model prompt : pystr) (temperature : float)
           (max_tokens : Z) : M pystr :=
  log (EvGenerate model prompt) ;;;
  fun st =>
    let (r, w) := generate model prompt temperature max_tokens (world st) in
    match r with
    | inl text => (Ok text, set_world w st)
    | inr msg => (Raise (RuntimeError msg), set_world w st)
    end.

(** The guarded call of the tool (with the keyword arguments [params]
    when [params] is true, else without arguments): the result, or
    [str(e)] of the exception caught. *)
Definition invoke_tool (function : pystr) (params : pyval) : M (pyval + pystr) :=
  log (EvTool function) ;;;
  fun st =>
    let (r, w) := call_tool function (if truthy params then Some params else None) (world st) in
    (Ok r, set_world w st).

(** Field updates of [self.metrics]. *)
Definition add_phase1_time (d : float) : M unit :=
  m <- get_metrics_record ;;
  set_metrics {| phase1_time := (phase1_time m + d)%float; phase2_time := phase2_time m;
                 phase3_time := phase3_time m; total_time := total_time m;
                 tool_name := tool_name m; raw_response_tokens := raw_response_tokens m;
                 filtered_response_tokens := filtered_response_tokens m;
                 token_reduction := token_reduction m |}.

Definition add_phase2_time (d : float) : M unit :=
  m <- get_metrics_record ;;
  set_metrics {| phase1_time := phase1_time m; phase2_time := (phase2_time m + d)%float;
                 phase3_time := phase3_time m; total_time := total_time m;
                 tool_name := tool_name m; raw_response_tokens := raw_response_tokens m;
                 filtered_response_tokens := filtered_response_tokens m;
                 token_reduction := token_reduction m |}.

Definition add_phase3_time (d : float) : M unit :=
  m <- get_metrics_record ;;
  set_metrics {| phase1_time := phase1_time m; phase2_time := phase2_time m;
                 phase3_time := (phase3_time m + d)%float; total_time := total_time m;
                 tool_name := tool_name m; raw_response_tokens := raw_response_tokens m;
                 filtered_response_tokens := filtered_response_tokens m;
                 token_reduction := token_reduction m |}.

Definition set_tool_name (v : pyval) : M unit :=
  m <- get_metrics_record ;;
  set_metrics {| phase1_time := phase1_time m; phase2_time := phase2_time m;
                 phase3_time := phase3_time m; total_time := total_time m;
                 tool_name := v; raw_response_tokens := raw_response_tokens m;
                 filtered_response_tokens := filtered_response_tokens m;
                 token_reduction := token_reduction m |}.

Definition set_raw_response_tokens (n : Z) : M unit :=
  m <- get_metrics_record ;;
  set_metrics {| phase1_time := phase1_time m; phase2_time := phase2_time m;
                 phase3_time := phase3_time m; total_time := total_time m;
                 tool_name := tool_name m; raw_response_tokens := n;
                 filtered_response_tokens := filtered_response_tokens m;
                 token_reduction := token_reduction m |}.

Definition set_filtered_response_tokens (n : Z) : M unit :=
  m <- get_metrics_record ;;
  set_metrics {| phase1_time := phase1_time m; phase2_time := phase2_time m;
                 phase3_time := phase3_time m; total_time := total_time m;
                 tool_name := tool_name m; raw_response_tokens := raw_response_tokens m;
                 filtered_response_tokens := n;
                 token_reduction := token_reduction m |}.

Definition set_token_reduction (r : float) : M unit :=
  m <- get_metrics_record ;;
  set_metrics {| phase1_time := phase1_time m; phase2_time := phase2_time m;
                 phase3_time := phase3_time m; total_time := total_time m;
                 tool_name := tool_name m; raw_response_tokens := raw_response_tokens m;
                 filtered_response_tokens := filtered_response_tokens m;
                 token_reduction := r |}.

(** An [int] as a [float] operand (exact below 2^53). *)
Definition float_of_int (z : Z) : float := PrimFloat.of_uint63 (Uint63.of_Z z).

(** [__init__] leaves fresh metrics; [w] is the world once the optional
    warm-up has been made. *)
Definition new_orchestrator (cfg : LEAPConfig) (w : World) : Orch :=
  {| config := cfg; metrics := new_metrics; state_summary := [];
     world := w; trace := [] |}.

(** *** [_parse_tool_request] *)

(** The body of both [try] blocks: [Some r] when the block returns [r],
    [None] when control falls through. *)
Definition interpret (parsed : pyval) : option (option pydict) :=
  match parsed with
  | PDict d =>
      if dict_has d (lit "tool") then
        match dict_get d (lit "tool") with
        | Some PNone => Some None
        | Some (PStr s) => if pystr_eqb s (lit "null") then Some None else Some (Some d)
        | _ => Some (Some d)
        end
      else None
  | _ => None
  end.

Definition try_parse (text : pystr) : option (option pydict) :=
  match json_loads text with
  | Some parsed => interpret parsed
  | None => None
  end.

Definition _parse_tool_request (response : pystr) : option pydict :=
  let response := clean_response response in
  match try_parse response with
  | Some r => r
  | None =>
      match extract_json_object response with
      | Some json_str =>
          match try_parse json_str with
          | Some r => r
          | None => None
          end
      | None => None
      end
  end.

(** *** Prompts *)

Definition planning_prompt (catalogue query summary : pystr) : pystr :=
  lit "You are an autonomous engineer. Your job is to SOLVE the task, not just explain it.

"
  ++ catalogue
  ++ lit "

User request: "
  ++ query
  ++ lit "

Current Progress:
"
  ++ summary
  ++ jq "

RULES:
1. Do NOT explain code in chat. Use tools (`fs_write`, `fs_replace`) to APPLY changes.
2. If the user asks for time/date, you MUST use `get_current_time`.
3. If the user asks about files, ALWAYS check with `fs_list` or `fs_read` first.
4. Only reply with 'null' if the task is FULLY COMPLETE (e.g., answer is final).
5. Prefer using tools over guessing.

Which tool should be used NEXT? Reply with JSON only:
{'tool': 'tool_name', 'params': {'key': 'value'}, 'filter': ['field1']}

If the task is complete, return:
{'tool': null}

Examples:
- List files "
  ++ [8594%N]
  ++ jq " {'tool': 'fs_list', 'params': {'path': 'directory_name'} }
- Replace text "
  ++ [8594%N]
  ++ jq " {'tool': 'fs_replace', 'params': {'path': 'file.py', 'old_text': 'foo', 'new_text': 'bar'} }

Your JSON answer:".

Definition update_prompt (query summary used tool_result : pystr) : pystr :=
  lit "Update the progress summary for this task.
        
User Request: "
  ++ query
  ++ lit "

Old Summary:
"
  ++ summary
  ++ lit "

New Action: Used "
  ++ used
  ++ lit "
Result: "
  ++ slice_to 1000 tool_result
  ++ lit "

Write a concise, updated summary of what has been done so far. 
Do not lose important details from the Old Summary.
Merge the New Action into the summary.
Keep it under 300 words.

Updated Summary:".

Definition final_prompt (query summary : pystr) : pystr :=
  lit "User query: "
  ++ query
  ++ lit "

Summary of actions taken:
"
  ++ summary
  ++ lit "

Based on this summary, provide the final answer to the user request.
If you created files or verified code, report what was done.".

Definition filter_prompt (filter_fields raw_json : pystr) : pystr :=
  lit "Extract only these fields from the data: "
  ++ filter_fields
  ++ lit "

Data:
"
  ++ slice_to 3000 raw_json
  ++ lit "

Return ONLY a compact JSON with the requested fields. No explanation.".

Definition direct_prompt (query : pystr) : pystr :=
  lit "You are a helpful AI assistant. Respond to the user's request directly.

User request: "
  ++ query
  ++ lit "

If the request is for code, provide complete working code with explanations.
If the request is a question, provide a clear and helpful answer.

Your response:".

(** *** [_filter_response] *)

(** [for field in filter_fields]: the items the loop visits, [None]
    when the object cannot be iterated. *)
Definition iterate (v : pyval) : option (list pyval) :=
  match v with
  | PList items => Some items
  | PStr s => Some (List.map (fun c => PStr [c]) s)
  | PDict d => Some (List.map (fun kv => PStr (fst kv)) d)
  | _ => None
  end.

(** The fallback loop: [filtered[field] = raw_result[field]] for every
    field that is a key of [raw_result]. *)
Fixpoint pick_fields (fields : list pyval) (raw_result filtered : pydict)
  : result pydict :=
  match fields with
  | [] => Ok filtered
  | field :: rest =>
      match field with
      | PList _ | PDict _ =>
          Raise (TypeError (lit "unhashable type: '" ++ type_name field ++ lit "'"))
      | PStr f =>
          match dict_get raw_result f with
          | Some v => pick_fields rest raw_result (dict_set filtered f v)
          | None => pick_fields rest raw_result filtered
          end
      | _ => pick_fields rest raw_result filtered
      end
  end.

Definition fallback_filter (raw_result : pydict) (filter_fields : pyval) : M pyval :=
  match iterate filter_fields with
  | None =>
      raise (TypeError (lit "'" ++ type_name filter_fields ++ lit "' object is not iterable"))
  | Some fields =>
      match pick_fields fields raw_result [] with
      | Raise e => raise e
      | Ok filtered =>
          ret (PDict (match filtered with [] => raw_result | _ :: _ => filtered end))
      end
  end.

(** The [try] block on the reply of the sub-model: [Some v] when it
    returns [v], [None] when control reaches the fallback. *)
Definition parse_filtered (response : pystr) : option pyval :=
  let response := strip_think response in
  match search_json_span response with
  | Some text => json_loads text
  | None => None
  end.

Definition _filter_response (raw_result filter_fields : pyval) : M pyval :=
  match raw_result with
  | PStr s => ret (PDict [(lit "content", PStr (slice_to 1000 s))])
  | PDict d =>
      match json_dumps_indent 2 raw_result with
      | None => raise (TypeError (lit "Object is not JSON serializable"))
      | Some raw_json =>
          if len raw_json <? 500 then ret raw_result
          else
            cfg <- get_config ;;
            response <- inference_generate (sub_model cfg)
                          (filter_prompt (py_str filter_fields) raw_json)
                          (sub_temperature cfg) 512 ;;
            match parse_filtered response with
            | Some v => ret v
            | None => fallback_filter d filter_fields
            end
      end
  | _ => ret (PDict [(lit "result", PStr (slice_to 1000 (py_str raw_result)))])
  end.

(** *** [_phase2_execution] *)

Definition dict_get_default (d : pydict) (k : pystr) (default : pyval) : pyval :=
  match dict_get d k with
  | Some v => v
  | None => default
  end.

(** [json.dumps(x) if isinstance(x, dict) else str(x)] *)
Definition dumps_or_str (x : pyval) : M pystr :=
  match x with
  | PDict _ =>
      match json_dumps x with
      | Some text => ret text
      | None => raise (TypeError (lit "Object is not JSON serializable"))
      end
  | _ => ret (py_str x)
  end.

(** [json.dumps({"error": msg})] *)
Definition error_json (msg : pystr) : pystr :=
  lit "{" ++ encode_basestring_ascii (lit "error") ++ lit ": "
      ++ encode_basestring_ascii msg ++ lit "}".

Definition _phase2_execution (tool_request : pydict) : M pystr :=
  log EvExecution ;;;
  let tool_name := dict_get_default tool_request (lit "tool") PNone in
  let params := dict_get_default tool_request (lit "params") (PDict []) in
  let filter_fields := dict_get_default tool_request (lit "filter") (PList []) in
  set_tool_name tool_name ;;;
  match tool_name with
  | PList _ | PDict _ =>
      raise (TypeError (lit "unhashable type: '" ++ type_name tool_name ++ lit "'"))
  | _ =>
      match (match tool_name with
             | PStr name => registry_get _load_tools name
             | _ => None
             end) with
      | None => ret (error_json (lit "Unknown tool: " ++ py_str tool_name))
      | Some tool_func =>
          r <- invoke_tool tool_func params ;;
          match r with
          | inr msg => ret (error_json msg)
          | inl raw_result =>
              raw_json <- dumps_or_str raw_result ;;
              set_raw_response_tokens (len raw_json / 4) ;;;
              cfg <- get_config ;;
              filtered <- (if enable_filtering cfg && truthy filter_fields
                           then _filter_response raw_result filter_fields
                           else ret raw_result) ;;
              filtered_json <- dumps_or_str filtered ;;
              set_filtered_response_tokens (len filtered_json / 4) ;;;
              m <- get_metrics_record ;;
              (if 0 <? raw_response_tokens m
               then set_token_reduction
                      ((1 - float_of_int (filtered_response_tokens m)
                            / float_of_int (raw_response_tokens m)) * 100)%float
               else ret tt) ;;;
              ret filtered_json
          end
      end
  end.

(** *** Planning, state update, answers *)

Definition _phase1_planning (query : pystr) : M (option pydict) :=
  log EvPlanning ;;;
  let catalogue := get_catalogue_prompt in
  cfg <- get_config ;;
  summary <- get_summary ;;
  response <- inference_generate (main_model cfg)
                (planning_prompt catalogue query summary) 0.5%float 300 ;;
  ret (_parse_tool_request response).

Definition _phase3_update_state (query : pystr) (tool_request : pydict)
           (tool_result : pystr) : M unit :=
  log EvStateUpdate ;;;
  cfg <- get_config ;;
  summary <- get_summary ;;
  response <- inference_generate (main_model cfg)
                (update_prompt query summary
                   (py_str (dict_get_default tool_request (lit "tool") PNone))
                   tool_result)
                0.5%float 512 ;;
  set_summary (strip (strip_think response)).

Definition _generate_final_answer (query : pystr) : M pystr :=
  log EvFinal ;;;
  cfg <- get_config ;;
  summary <- get_summary ;;
  inference_generate (main_model cfg) (final_prompt query summary)
                     (main_temperature cfg) 1024.

Definition _direct_response (query : pystr) : M pystr :=
  log EvDirect ;;;
  let prompt := direct_prompt query in
  cfg <- get_config ;;
  response <- inference_generate (main_model cfg) prompt (main_temperature cfg) 2048 ;;
  let response := strip (strip_think response) in
  if len response <? 10 then
    response <- inference_generate (main_model cfg) prompt 0x1.999999999999ap-1%float 2048 ;;
    ret (strip (strip_think response))
  else ret response.

(** *** [run] *)

(** The rest of an iteration once a tool was selected: phase 2, phase 3,
    and on to the next turn. *)
Definition tool_turn (query : pystr) (tool_request : pydict) : M flow :=
  phase2_start <- now ;;
  filtered_response <- _phase2_execution tool_request ;;
  t2 <- now ;;
  add_phase2_time (t2 - phase2_start)%float ;;;
  phase3_start <- now ;;
  _phase3_update_state query tool_request filtered_response ;;;
  t3 <- now ;;
  add_phase3_time (t3 - phase3_start)%float ;;;
  ret Next.

(** One iteration of the [while] loop. *)
Definition turn_body (query : pystr) (current_turn : Z) : M flow :=
  log (EvTurn current_turn) ;;;
  phase1_start <- now ;;
  tool_request <- _phase1_planning query ;;
  t1 <- now ;;
  add_phase1_time (t1 - phase1_start)%float ;;;
  match tool_request with
  | None =>
      log EvFinish ;;;
      if current_turn =? 1 then
        answer <- _direct_response query ;;
        ret (Return answer)
      else ret Break
  | Some tool_request => tool_turn query tool_request
  end.

(** [while current_turn <= max_turns: ...; current_turn += 1].  The
    result is [inl (Some answer)] when the body returned [answer] and
    [inl None] when the loop ended by [break] or by its condition.
    [fuel] bounds the number of iterations; [inr tt] reports that the
    bound was reached first. *)
Fixpoint turn_loop (fuel : nat) (query : pystr) (max_turns current_turn : Z)
  : M (option pystr + unit) :=
  match fuel with
  | O => ret (inr tt)
  | S fuel' =>
      if current_turn <=? max_turns then
        f <- turn_body query current_turn ;;
        match f with
        | Return answer => ret (inl (Some answer))
        | Break => ret (inl None)
        | Next => turn_loop fuel' query max_turns (current_turn + 1)
        end
      else
        log EvLimit ;;;
        ret (inl None)
  end.

(** [run(query, max_turns)] with a bound on the iterations of its loop:
    [None] when the bound was too small. *)
Definition run_fuel (fuel : nat) (query : pystr) (max_turns : Z) : M (option pystr) :=
  set_summary (lit "No actions taken yet.") ;;;
  total_start <- now ;;
  r <- turn_loop fuel query max_turns 1 ;;
  match r with
  | inr _ => ret None
  | inl (Some answer) => ret (Some answer)
  | inl None =>
      final_answer <- _generate_final_answer query ;;
      ret (Some final_answer)
  end.

(** The loop runs at most [max_turns] times, so this fuel is enough
    (see [run_fuel_enough]). *)
Definition run (query : pystr) (max_turns : Z) : M (option pystr) :=
  run_fuel (S (Z.to_nat max_turns)) query max_turns.

(** [get_metrics()] *)
Definition get_metrics (st : Orch) : pydict :=
  let m := metrics st in
  [ (lit "phase1_time", PFloat (phase1_time m));
    (lit "phase2_time", PFloat (phase2_time m));
    (lit "phase3_time", PFloat (phase3_time m));
    (lit "total_time", PFloat (total_time m));
    (lit "tool", tool_name m);
    (lit "raw_tokens", PInt (raw_response_tokens m));
    (lit "filtered_tokens", PInt (filtered_response_tokens m));
    (lit "token_reduction", PStr (format_0f (token_reduction m) ++ lit "%")) ].

End Orchestrator.

(** ** A scripted environment

    A small closed world for the worked examples: the backend answers
    with the replies queued in the script (and fails when none is
    left), each reading of the clock advances it by one second, and
    three tools answer as below.  The texts of the examples hold no
    JSON number with a fraction or an exponent, so [float_of_literal]
    is never consulted there, and [float_repr] knows the one float the
    tools return. *)

Record Script : Type := {
  replies : list (pystr + pystr);
  clock : float
}.

Definition calculate_result : pyval :=
  PDict [ (lit "expression", PStr (lit "250 * 0.15"));
          (lit "result", PFloat 37.5%float);
          (lit "type", PStr (lit "float")) ].

Definition read_file_result : pyval :=
  PDict [ (lit "content", PStr (repeat 120%N 600));
          (lit "size", PInt 600);
          (lit "path", PStr (lit "a.txt")) ].

Definition scripted : Env := {|
  World := Script;
  generate := fun _ _ _ _ w =>
    match replies w with
    | r :: rs => (r, {| replies := rs; clock := clock w |})
    | [] => (inr (lit "Ollama inference failed: no reply"), w)
    end;
  call_tool := fun f _ w =>
    if pystr_eqb f (lit "utility_tools.calculate") then (inl calculate_result, w)
    else if pystr_eqb f (lit "file_tools.read_file") then (inl read_file_result, w)
    else (inr (lit "network unreachable"), w);
  time_time := fun w => (clock w, {| replies := replies w; clock := (clock w + 1)%float |});
  float_of_literal := fun _ => 0%float;
  float_repr := fun f => if PrimFloat.eqb f 37.5%float then lit "37.5" else lit "0.0";
  py_repr := fun _ => lit "<object>";
  format_0f := fun _ => lit "0"
|}.

(** A fresh orchestrator with the default configuration in the scripted
    world. *)
Definition scripted_start (rs : list (pystr + pystr)) : @Orch scripted :=
  @new_orchestrator scripted default_config {| replies := rs; clock := 0%float |}.

(** * Vocabulary of the properties

    Predicates on texts, on parsed values and on the steps of an
    orchestrator, and the inputs of the worked examples. *)

Unset Implicit Arguments.

(** ** Texts *)

(** Every match consumes at least one character. *)
Definition consuming (m : matcher) : Prop :=
  forall s r, m s = Some r -> List.length r < List.length s.

(** A matcher whose pattern starts with [a] leaves alone a text without [a]. *)
Definition starts_with_char (m : matcher) (a : char) : Prop :=
  forall c s, c <> a -> m (c :: s) = None.

(** Every [<] of the text begins a whole start or end marker. *)
Fixpoint markers_whole (s : pystr) : bool :=
  match s with
  | [] => true
  | c :: s' =>
      (if N.eqb c Ch.lt then startswith s think_open || startswith s think_close else true)
      && markers_whole s'
  end.

(** [p in s]: the text [p] occurs in [s]. *)
Fixpoint occurs (p s : pystr) : bool :=
  startswith s p ||
  match s with
  | [] => false
  | _ :: s' => occurs p s'
  end.

(** ** JSON values *)

Section JsonShapes.
Local Open Scope N_scope.

(** What may follow a value inside an object or an array. *)
Definition is_delim (c : char) : bool :=
  is_json_ws c || (c =? 44) || (c =? 125) || (c =? 93).

Definition delim_ahead (r : pystr) : bool :=
  match r with
  | c :: _ => is_delim c
  | [] => false
  end.

(** [match_int] after the optional sign. *)
Definition match_int_digits (sign s1 : pystr) : option (pystr * pystr) :=
  match s1 with
  | y :: s2 =>
      if y =? 48 then Some (sign ++ [y], s2)
      else if is_digit y then
             let (d, r0) := span_digits s2 in Some (sign ++ y :: d, r0)
           else None
  | [] => None
  end.

(** Strings, objects and arrays end with their closing character. *)
Definition closed_value (v : pyval) : bool :=
  match v with
  | PStr _ | PList _ | PDict _ => true
  | _ => false
  end.

(** A value is settled when appended text cannot extend it. *)
Definition settled (v : pyval) (r : pystr) : Prop :=
  closed_value v = true \/ delim_ahead r = true.

End JsonShapes.

(** ** Methods of the orchestrator *)

Section Relations.
Context {E : Env}.
Local Open Scope Z_scope.

(** [R] relates the state before a method to the state after it,
    however the method ends. *)
Definition steps {A : Type} (R : Orch -> Orch -> Prop) (m : M A) : Prop :=
  forall st, R st (snd (m st)).

(** No method assigns [total_time]. *)
Definition same_total (st st' : Orch) : Prop :=
  total_time (metrics st') = total_time (metrics st).

(** Events of the phases, as opposed to those of the turn loop. *)
Definition phase_event (e : event) : Prop :=
  match e with
  | EvTurn _ | EvPlanning | EvFinish | EvLimit => False
  | _ => True
  end.

(** The log grows by events of the phases only. *)
Definition quiet (st st' : Orch) : Prop :=
  exists evs, trace st' = trace st ++ evs /\ Forall phase_event evs.

(** A method that returns, returns a value in [P]. *)
Definition yields {A : Type} (P : A -> Prop) (m : M A) : Prop :=
  forall st a, fst (m st) = Ok a -> P a.

(** Several calls of [run], one after the other, on one orchestrator. *)
Fixpoint run_all (calls : list (pystr * Z)) (st : Orch) : Orch :=
  match calls with
  | [] => st
  | (query, max_turns) :: rest => run_all rest (snd (run query max_turns st))
  end.

End Relations.

(** Readings of the log. *)
Definition planning_calls (evs : list event) : nat :=
  List.length (filter (fun e => match e with EvPlanning => true | _ => false end) evs).

Definition turns (evs : list event) : list Z :=
  flat_map (fun e => match e with EvTurn t => [t] | _ => [] end) evs.

(** Events an iteration may log after its planning call. *)
Definition body_event (e : event) : Prop :=
  match e with
  | EvTurn _ | EvPlanning | EvLimit => False
  | _ => True
  end.

Section Turns.
Local Open Scope Z_scope.

(** The turns [t, t+1, ..., t+k-1]. *)
Definition turns_from (t : Z) (k : nat) : list Z :=
  List.map (fun i => t + Z.of_nat i) (seq 0 k).

End Turns.

(** ** Inputs of the examples *)

(** [json.dumps(read_file_result, indent=2)] *)
Definition read_file_json : pystr :=
  jq "{
  'content': '" ++ repeat 120%N 600 ++ jq "',
  'size': 600,
  'path': 'a.txt'
}".

(** A request for a tool that is not registered. *)
Definition unknown_request : pydict := [(lit "tool", PStr (lit "does_not_exist"))].

(** ** Vocabulary of the further properties *)

Section BraceDepth.
Local Open Scope Z_scope.

(** Opening braces minus closing braces of [s]. *)
Fixpoint depth (s : pystr) : Z :=
  match s with
  | [] => 0
  | c :: s' =>
      (if N.eqb c Ch.lbrace then 1 else if N.eqb c Ch.rbrace then -1 else 0) + depth s'
  end.

(** [obj] opens with a brace that its last character closes, and that
    no character before the last closes. *)
Definition first_balanced (obj : pystr) : Prop :=
  (exists body, obj = Ch.lbrace :: body)
  /\ depth obj = 0
  /\ forall p q, obj = p ++ q -> p <> [] -> q <> [] -> 0 < depth p.

End BraceDepth.

(** [a] is [b] with some of its characters left out. *)
Inductive subsequence : pystr -> pystr -> Prop :=
| subsequence_nil : subsequence [] []
| subsequence_drop (c : char) (a b : pystr) : subsequence a b -> subsequence a (c :: b)
| subsequence_keep (c : char) (a b : pystr) : subsequence a b -> subsequence (c :: a) (c :: b).

(** The marker of a code fence. *)
Definition fence : pystr := lit "```".

(** Readings of the log: calls of the model backend, calls of tools. *)
Definition generations (evs : list event) : nat :=
  List.length (filter (fun e => match e with EvGenerate _ _ => true | _ => false end) evs).

Definition tool_calls (evs : list event) : nat :=
  List.length (filter (fun e => match e with EvTool _ => true | _ => false end) evs).

(** A method that makes at most [g] calls of the backend and at most
    [t] calls of tools, however it ends. *)
Definition spends {E : Env} {A : Type} (g t : nat) (m : M A) : Prop :=
  forall st, exists evs,
    trace (snd (m st)) = trace st ++ evs
    /\ generations evs <= g /\ tool_calls evs <= t.

Section Agreement.
Context {E : Env}.

(** Two orchestrators that differ in their metrics and in their log at
    most. *)
Definition agree (a b : Orch) : Prop :=
  config a = config b /\ state_summary a = state_summary b /\ world a = world b.

(** [m] acts alike on orchestrators that agree: it ends the same way,
    logs the same events, and leaves orchestrators that agree. *)
Definition alike {A : Type} (m : M A) : Prop :=
  forall a b, agree a b ->
    fst (m a) = fst (m b)
    /\ agree (snd (m a)) (snd (m b))
    /\ exists evs, trace (snd (m a)) = trace a ++ evs
                   /\ trace (snd (m b)) = trace b ++ evs.

(** [k] reads the metrics to update them only: it returns [x] and
    leaves the rest of the orchestrator as it is. *)
Definition metrics_only {A : Type} (x : A) (k : OrchestrationMetrics -> M A) : Prop :=
  forall m st,
    fst (k m st) = Ok x
    /\ config (snd (k m st)) = config st
    /\ state_summary (snd (k m st)) = state_summary st
    /\ world (snd (k m st)) = world st
    /\ trace (snd (k m st)) = trace st.

End Agreement.

(** An orchestrator of the scripted world on which an earlier run has
    left its metrics, its summary and its log. *)
Definition scripted_used (rs : list (pystr + pystr)) : @Orch scripted :=
  @Build_Orch scripted default_config
    {| phase1_time := 2%float; phase2_time := 1%float;
       phase3_time := 1%float; total_time := 0%float;
       tool_name := PStr (lit "calculate");
       raw_response_tokens := 17; filtered_response_tokens := 17;
       token_reduction := 0%float |}
    (lit "Calculated 250 * 0.15 = 37.5.")
    (Build_Script rs 0%float)
    [EvLimit; EvFinal].

(** [get_available_tools()]: [list(self.tools.keys())]. *)
Definition get_available_tools : list pystr := List.map fst _load_tools.

Section Plain.
Local Open Scope N_scope.

(** A code point of a [str] that is not a surrogate. *)
Definition is_scalar (c : char) : bool :=
  (c <? 55296) || ((57343 <? c) && (c <? 1114112)).

(** A text without surrogate code points. *)
Definition plain_text (s : pystr) : bool := forallb is_scalar s.

End Plain.

Section Stops.
Local Open Scope N_scope.

(** What follows a value in a serialised container: nothing, a comma,
    or a closing bracket or brace. *)
Definition closing (rest : pystr) : bool :=
  match rest with
  | [] => true
  | c :: _ => (c =? 44) || (c =? 93) || (c =? 125)
  end.

End Stops.

(** The characters of a decimal numeral. *)
Definition uint_chars (u : Decimal.uint) : pystr :=
  lit (NilEmpty.string_of_uint u).

(** ** Values that JSON text represents exactly

    [plain v]: [v] is built from [None], booleans, integers of at most
    4300 digits (the interpreter's default limit on the conversion
    between [int] and [str]), texts without surrogates, lists, and
    dicts whose keys are distinct such texts, nested at most 32 deep. *)
Section PlainValues.

Fixpoint distinct (keys : list pystr) : bool :=
  match keys with
  | [] => true
  | k :: ks => negb (existsb (pystr_eqb k) ks) && distinct ks
  end.

Definition int_text_limit : Z := 10 ^ 4300.

Fixpoint plain_below (depth : nat) (v : pyval) {struct depth} : bool :=
  match depth with
  | O => false
  | S depth' =>
      match v with
      | PNone | PBool _ => true
      | PInt z => (Z.abs z <? int_text_limit)%Z
      | PStr s => plain_text s
      | PList items => forallb (plain_below depth') items
      | PDict entries =>
          distinct (List.map fst entries)
          && forallb (fun kv => plain_text (fst kv) && plain_below depth' (snd kv)) entries
      | PFloat _ | PObj _ => false
      end
  end.

Definition plain (v : pyval) : bool := plain_below 32 v.

End PlainValues.

Section ReadsBack.
Context {E : Env}.

(** [reads_back v]: the scanner reads the compact text of [v], followed
    by the end of the text or by a comma or a closing bracket, as [v],
    with fuel for every character of that text. *)
Definition reads_back (v : pyval) : Prop :=
  forall level text rest n,
    encode None level v = Some text -> closing rest = true ->
    (List.length text <= n)%nat ->
    scan_once n (text ++ rest) = JOk v rest.

End ReadsBack.

(** ** [utility_tools.json_parse]

    [decode_error text] stands for [str(e)] of the [JSONDecodeError]
    that [json.loads(text)] raises. *)
Section JsonParse.
Context {E : Env}.
Variable decode_error : pystr -> pystr.

Definition json_parse (text : pystr) : pydict :=
  match json_loads text with
  | Some parsed =>
      [ (lit "valid", PBool true);
        (lit "parsed", parsed);
        (lit "type", PStr (type_name parsed)) ]
  | None =>
      [ (lit "valid", PBool false);
        (lit "error", PStr (decode_error text)) ]
  end.

End JsonParse.

(** ** [shell_tools.run_command]

    The outcome of [subprocess.run(command, shell=True,
    capture_output=True, text=True, timeout=timeout, cwd=os.getcwd())]:
    a completed process, [subprocess.TimeoutExpired], or [str(e)] of
    another exception. *)
Inductive proc_outcome : Type :=
| Completed (stdout stderr : pystr) (returncode : Z)
| TimeoutExpired
| ProcError (msg : pystr).

Section Shell.
Variable Machine : Type.
Variable subprocess_run : pystr -> Z -> Machine -> proc_outcome * Machine.

Definition dangerous : list pystr :=
  [lit "rm -rf /"; lit "mkfs"; lit "dd if="; lit ":(){:|:&};:"].

Definition run_command (command : pystr) (timeout : Z) (w : Machine)
  : pydict * Machine :=
  if existsb (fun d => occurs d command) dangerous then
    ([ (lit "error", PStr (lit "Command blocked for safety"));
       (lit "command", PStr command) ], w)
  else
    match subprocess_run command timeout w with
    | (Completed stdout stderr returncode, w') =>
        ([ (lit "command", PStr command);
           (lit "stdout", PStr (slice_to 5000 stdout));
           (lit "stderr", PStr (slice_to 1000 stderr));
           (lit "exit_code", PInt returncode);
           (lit "success", PBool (Z.eqb returncode 0)) ], w')
    | (TimeoutExpired, w') =>
        ([ (lit "error", PStr (lit "Command timed out"));
           (lit "command", PStr command);
           (lit "timeout", PInt timeout) ], w')
    | (ProcError msg, w') =>
        ([ (lit "error", PStr msg); (lit "command", PStr command) ], w')
    end.

End Shell.

Arguments run_command {Machine} subprocess_run command timeout w.

(** * Properties *)

(** ** Text *)

Lemma pystr_eqb_eq (a b : pystr) : pystr_eqb a b = true <-> a = b.
Proof.
  revert b; induction a as [|x a IH]; intros [|y b]; simpl; split; intro H;
    try reflexivity; try discriminate.
  - apply andb_true_iff in H as [Hx Hab]. apply N.eqb_eq in Hx.
    apply IH in Hab. now subst.
  - injection H as -> ->. apply andb_true_iff; split.
    + apply N.eqb_refl.
    + now apply IH.
Qed.

Lemma pystr_eqb_refl (a : pystr) : pystr_eqb a a = true.
Proof. now apply pystr_eqb_eq. Qed.

Lemma pystr_eqb_neq (a b : pystr) : pystr_eqb a b = false <-> a <> b.
Proof.
  split.
  - intros H ->. rewrite pystr_eqb_refl in H. discriminate.
  - intros H. destruct (pystr_eqb a b) eqn:Hab; [|reflexivity].
    apply pystr_eqb_eq in Hab. contradiction.
Qed.

Lemma strip_prefix_app (p r : pystr) : strip_prefix p (p ++ r) = Some r.
Proof. induction p as [|a p IH]; simpl; [reflexivity|]. now rewrite N.eqb_refl. Qed.

Lemma strip_prefix_Some (p s r : pystr) :
  strip_prefix p s = Some r -> s = p ++ r.
Proof.
  revert s; induction p as [|a p IH]; intros s H; simpl in *.
  - now injection H as ->.
  - destruct s as [|b s]; [discriminate|].
    destruct (N.eqb_spec a b) as [->|]; [|discriminate].
    now rewrite (IH _ H).
Qed.

Lemma strip_prefix_length (p s r : pystr) :
  strip_prefix p s = Some r -> List.length s = List.length p + List.length r.
Proof. intros H. apply strip_prefix_Some in H as ->. apply length_app. Qed.

(** A pattern that starts with [a] matches nowhere in front of another
    character. *)
Lemma strip_prefix_head (a c : char) (p s : pystr) :
  c <> a -> strip_prefix (a :: p) (c :: s) = None.
Proof. intros H. simpl. destruct (N.eqb_spec a c); [congruence|reflexivity]. Qed.

Lemma lstrip_length (s : pystr) : List.length (lstrip s) <= List.length s.
Proof.
  induction s as [|c s IH]; simpl; [lia|].
  destruct (isspace c); simpl; lia.
Qed.

Lemma after_first_Some (needle s r : pystr) :
  after_first needle s = Some r -> exists pre, s = pre ++ needle ++ r.
Proof.
  induction s as [|c s IH]; simpl.
  - destruct (strip_prefix needle []) eqn:Hp; [|discriminate].
    intros [= ->]. exists []. now apply strip_prefix_Some in Hp.
  - destruct (strip_prefix needle (c :: s)) eqn:Hp.
    + intros [= ->]. exists []. now apply strip_prefix_Some in Hp.
    + intros H. destruct (IH H) as [pre ->]. now exists (c :: pre).
Qed.

Lemma after_first_tail (needle s : pystr) (c : char) :
  after_first needle (c :: s) = None -> after_first needle s = None.
Proof. simpl. destruct (strip_prefix needle (c :: s)); [discriminate|auto]. Qed.

(** ** [re.sub]: the scan does not depend on the fuel *)

Lemma sub_fuel_enough (m : matcher) (Hm : consuming m) :
  forall n k s, List.length s <= n -> List.length s <= k -> sub_fuel m n s = sub_fuel m k s.
Proof.
  induction n as [|n IH]; intros k s Hn Hk.
  - destruct s; [|simpl in Hn; lia]. now destruct k.
  - destruct k as [|k].
    + destruct s; [reflexivity|simpl in Hk; lia].
    + simpl. destruct s as [|c s]; [reflexivity|].
      destruct (m (c :: s)) as [rest|] eqn:Hmatch.
      * apply Hm in Hmatch. simpl in *. apply IH; lia.
      * f_equal. simpl in *. apply IH; lia.
Qed.

Lemma re_sub_delete_nil (m : matcher) : re_sub_delete m [] = [].
Proof. reflexivity. Qed.

Lemma re_sub_delete_cons (m : matcher) (Hm : consuming m) (c : char) (s : pystr) :
  re_sub_delete m (c :: s) =
  match m (c :: s) with
  | Some rest => re_sub_delete m rest
  | None => c :: re_sub_delete m s
  end.
Proof.
  unfold re_sub_delete. simpl.
  destruct (m (c :: s)) as [rest|] eqn:Hmatch.
  - apply sub_fuel_enough; auto. apply Hm in Hmatch. simpl in Hmatch. lia.
  - reflexivity.
Qed.

Lemma match_think_consuming : consuming match_think.
Proof.
  intros s r. unfold match_think.
  destruct (strip_prefix think_open s) as [body|] eqn:Hp; [|discriminate].
  intros H. apply strip_prefix_length in Hp.
  apply after_first_Some in H as [pre ->].
  rewrite Hp, !length_app. simpl. lia.
Qed.

Lemma match_json_fence_consuming : consuming match_json_fence.
Proof.
  intros s r. unfold match_json_fence.
  destruct (strip_prefix (lit "```json") s) as [rest|] eqn:Hp; [|discriminate].
  intros [= <-]. apply strip_prefix_length in Hp. rewrite Hp.
  pose proof (lstrip_length rest). simpl. lia.
Qed.

Lemma match_fence_consuming : consuming match_fence.
Proof.
  intros s r. unfold match_fence.
  destruct (strip_prefix (lit "```") s) as [rest|] eqn:Hp; [|discriminate].
  intros [= <-]. apply strip_prefix_length in Hp. rewrite Hp.
  pose proof (lstrip_length rest). simpl. lia.
Qed.

Lemma strip_think_cons (c : char) (s : pystr) :
  strip_think (c :: s) =
  match match_think (c :: s) with
  | Some rest => strip_think rest
  | None => c :: strip_think s
  end.
Proof. apply re_sub_delete_cons, match_think_consuming. Qed.

Lemma re_sub_delete_skip (m : matcher) (a : char) (Hm : consuming m)
      (Ha : starts_with_char m a) (pre s : pystr) :
  ~ In a pre -> re_sub_delete m (pre ++ s) = pre ++ re_sub_delete m s.
Proof.
  induction pre as [|c pre IH]; intros Hin; [reflexivity|].
  simpl. rewrite re_sub_delete_cons by assumption.
  rewrite Ha by (intros ->; apply Hin; now left).
  f_equal. apply IH. intros H. apply Hin. now right.
Qed.

Lemma re_sub_delete_id (m : matcher) (a : char) (Hm : consuming m)
      (Ha : starts_with_char m a) (s : pystr) :
  ~ In a s -> re_sub_delete m s = s.
Proof.
  intros H. rewrite <- (app_nil_r s) at 1.
  rewrite (@re_sub_delete_skip m a Hm Ha); [|assumption].
  now rewrite re_sub_delete_nil, app_nil_r.
Qed.

Lemma match_think_head : starts_with_char match_think Ch.lt.
Proof.
  intros c s H. unfold match_think, think_open.
  change (lit "<think>") with (Ch.lt :: lit "think>").
  now rewrite strip_prefix_head.
Qed.

Lemma match_json_fence_head : starts_with_char match_json_fence Ch.backtick.
Proof.
  intros c s H. unfold match_json_fence.
  change (lit "```json") with (Ch.backtick :: lit "``json").
  now rewrite strip_prefix_head.
Qed.

Lemma match_fence_head : starts_with_char match_fence Ch.backtick.
Proof.
  intros c s H. unfold match_fence.
  change (lit "```") with (Ch.backtick :: lit "``").
  now rewrite strip_prefix_head.
Qed.

(** ** Reasoning-trace stripping *)

(** Without an end marker ahead nothing is stripped. *)
Lemma match_think_needs_close (s : pystr) :
  after_first think_close s = None -> match_think s = None.
Proof.
  intros H. unfold match_think.
  destruct (strip_prefix think_open s) as [body|] eqn:Hp; [|reflexivity].
  apply strip_prefix_Some in Hp. subst s.
  unfold think_open in H. simpl in H.
  repeat (apply after_first_tail in H). exact H.
Qed.

Lemma strip_think_no_close (s : pystr) :
  after_first think_close s = None -> strip_think s = s.
Proof.
  induction s as [|c s IH]; intros H; [reflexivity|].
  rewrite strip_think_cons, (match_think_needs_close _ H).
  f_equal. apply IH. eapply after_first_tail, H.
Qed.

Lemma markers_whole_app (a b : pystr) :
  markers_whole (a ++ b) = true -> markers_whole b = true.
Proof.
  induction a as [|c a IH]; simpl; [auto|].
  intros H. apply andb_true_iff in H as [_ H]. auto.
Qed.

Lemma markers_whole_after_match (s rest : pystr) :
  markers_whole s = true -> match_think s = Some rest -> markers_whole rest = true.
Proof.
  unfold match_think. intros Hw.
  destruct (strip_prefix think_open s) as [body|] eqn:Hp; [|discriminate].
  intros H. apply strip_prefix_Some in Hp. apply after_first_Some in H as [pre ->].
  subst s. rewrite !app_assoc in Hw. now apply markers_whole_app in Hw.
Qed.

(** The head of a stripped text is the head of the text when nothing
    matches there. *)
Lemma strip_think_keeps_slash (s : pystr) :
  exists u, strip_think (Ch.slash :: s) = Ch.slash :: u.
Proof.
  rewrite strip_think_cons, match_think_head by discriminate. eauto.
Qed.

(** On a text whose markers are whole, what the scan leaves contains no
    match any more. *)
Lemma strip_think_fixpoint :
  forall n s, List.length s <= n -> markers_whole s = true ->
              strip_think (strip_think s) = strip_think s.
Proof.
  induction n as [|n IH]; intros s Hn Hw.
  - destruct s; [reflexivity|simpl in Hn; lia].
  - destruct s as [|c s]; [reflexivity|].
    rewrite strip_think_cons.
    destruct (match_think (c :: s)) as [rest|] eqn:Hm.
    + apply IH.
      * apply match_think_consuming in Hm. simpl in *. lia.
      * eapply markers_whole_after_match; eauto.
    + assert (Hs : markers_whole s = true).
      { simpl in Hw. now apply andb_true_iff in Hw as [_ Hw]. }
      assert (IHs : strip_think (strip_think s) = strip_think s).
      { apply IH; [simpl in Hn; lia|assumption]. }
      rewrite strip_think_cons.
      assert (Hnone : match_think (c :: strip_think s) = None).
      { destruct (N.eqb_spec c Ch.lt) as [->|Hc].
        - simpl in Hw. apply andb_true_iff in Hw as [Hw _].
          apply orb_true_iff in Hw as [Ho|Hc].
          + (* an opening marker with no end marker behind it *)
            unfold startswith in Ho.
            destruct (strip_prefix think_open (Ch.lt :: s)) as [body|] eqn:Hp;
              [|discriminate].
            unfold match_think in Hm. rewrite Hp in Hm.
            apply strip_prefix_Some in Hp.
            injection Hp as ->.
            match goal with
            | |- match_think (_ :: strip_think ?x) = None =>
                assert (Hid : strip_think x = x)
            end.
            { simpl. repeat (rewrite strip_think_cons, match_think_head by discriminate).
              now rewrite strip_think_no_close. }
            rewrite Hid. unfold match_think, think_open. simpl. exact Hm.
          + (* an end marker *)
            unfold startswith in Hc.
            destruct (strip_prefix think_close (Ch.lt :: s)) as [r|] eqn:Hp;
              [|discriminate].
            apply strip_prefix_Some in Hp. injection Hp as ->.
            match goal with
            | |- match_think (_ :: strip_think (_ :: ?x)) = None =>
                destruct (strip_think_keeps_slash x) as [u Hu]
            end.
            simpl in Hu |- *. unfold Ch.slash in Hu. rewrite Hu. reflexivity.
        - now apply match_think_head. }
      rewrite Hnone. now rewrite IHs.
Qed.

(** C8 (counterexample): stripping the text below once joins the two
    marker fragments around the removed trace into a new trace, which a
    second pass removes. *)
Lemma strip_think_not_idempotent :
  strip_think (lit "<thi<think>x</think>nk>y</think>z") = lit "<think>y</think>z"
  /\ strip_think (strip_think (lit "<thi<think>x</think>nk>y</think>z")) = lit "z"
  /\ strip_think (strip_think (lit "<thi<think>x</think>nk>y</think>z"))
     <> strip_think (lit "<thi<think>x</think>nk>y</think>z").
Proof. vm_compute. repeat split; discriminate. Qed.

(** C8 (as the code has it): reasoning-trace stripping is idempotent on every text
    in which each [<] begins a whole [<think>] or [</think>] marker:
    stripping such a text twice gives what stripping it once gives. *)
Theorem strip_think_idempotent (text : pystr) :
  markers_whole text = true ->
  strip_think (strip_think text) = strip_think text.
Proof. intros H. now apply (strip_think_fixpoint (List.length text)). Qed.

Lemma strip_think_idempotent_witness :
  markers_whole (lit "a<think>plan</think>b</think><think>open") = true
  /\ strip_think (strip_think (lit "a<think>plan</think>b</think><think>open"))
     = strip_think (lit "a<think>plan</think>b</think><think>open").
Proof.
  split; [reflexivity|].
  apply (strip_think_idempotent (lit "a<think>plan</think>b</think><think>open")).
  reflexivity.
Defined.

(** The cleaning steps on small texts. *)
Example strip_think_once :
  strip_think (lit "a<think>plan
more</think>b<think>open") = lit "ab<think>open".
Proof. vm_compute. reflexivity. Qed.

Example clean_fenced :
  clean_response (jq "sure, here:
```json
{'tool': 'read_file'}
```") = jq "sure, here:
{'tool': 'read_file'}".
Proof. vm_compute. reflexivity. Qed.

Example extract_nested :
  extract_json_object (jq "x {'a': {'b': 1}} y }") = Some (jq "{'a': {'b': 1}}").
Proof. vm_compute. reflexivity. Qed.

(** ** Reasoning about methods *)

Section Methods.
Context {E : Env}.
Local Open Scope Z_scope.

Lemma bind_run {A B : Type} (m : M A) (k : A -> M B) (st : Orch) :
  bind m k st =
  match m st with
  | (Ok a, st') => k a st'
  | (Raise e, st') => (Raise e, st')
  end.
Proof. reflexivity. Qed.

Section Steps.
Variable R : Orch -> Orch -> Prop.
Hypothesis R_refl : forall st, R st st.
Hypothesis R_trans : forall a b c, R a b -> R b c -> R a c.

Lemma steps_ret {A : Type} (a : A) : steps R (ret a).
Proof. intros st. apply R_refl. Qed.

Lemma steps_raise {A : Type} (e : exn) : steps R (@raise E A e).
Proof. intros st. apply R_refl. Qed.

Lemma steps_bind {A B : Type} (m : M A) (k : A -> M B) :
  steps R m -> (forall a, steps R (k a)) -> steps R (bind m k).
Proof.
  intros Hm Hk st. rewrite bind_run. specialize (Hm st).
  destruct (m st) as [[a|e] st']; simpl in *; [|assumption].
  eapply R_trans; [eassumption|apply Hk].
Qed.

Lemma steps_get_config : steps R get_config.
Proof. intros st. apply R_refl. Qed.

Lemma steps_get_summary : steps R get_summary.
Proof. intros st. apply R_refl. Qed.

Lemma steps_get_metrics_record : steps R get_metrics_record.
Proof. intros st. apply R_refl. Qed.

End Steps.

(** *** The field [total_time] *)

Lemma same_total_refl st : same_total st st.
Proof. reflexivity. Qed.

Lemma same_total_trans a b c : same_total a b -> same_total b c -> same_total a c.
Proof. unfold same_total. congruence. Qed.

(** *** The log *)

Lemma quiet_refl st : quiet st st.
Proof. exists []. now rewrite app_nil_r. Qed.

Lemma quiet_trans a b c : quiet a b -> quiet b c -> quiet a c.
Proof.
  intros [e1 [H1 F1]] [e2 [H2 F2]]. exists (e1 ++ e2). split.
  - now rewrite H2, H1, app_assoc.
  - now apply Forall_app.
Qed.

End Methods.

Create HintDb leap.

#[export] Hint Resolve same_total_refl same_total_trans quiet_refl quiet_trans : leap.

(** Splits a method into its steps; a step already known (a hint of
    [leap]) is closed at once. *)
Ltac steps_split :=
  repeat first
    [ solve [auto with leap]
    | apply steps_ret; solve [auto with leap]
    | apply steps_raise; solve [auto with leap]
    | apply steps_get_config; solve [auto with leap]
    | apply steps_get_summary; solve [auto with leap]
    | apply steps_get_metrics_record; solve [auto with leap]
    | match goal with
      | |- steps _ (bind _ _) => apply steps_bind; [solve [eauto with leap] | | intros ]
      | |- steps _ (match ?x with _ => _ end) => destruct x
      | |- steps _ (if ?b then _ else _) => destruct b
      | |- steps _ (let _ := _ in _) => cbv zeta
      end ].

(** *** [total_time] is left alone *)

Lemma log_same_total {E : Env} e : steps same_total (log e).
Proof. intros st. reflexivity. Qed.

Lemma set_summary_same_total {E : Env} s : steps same_total (set_summary s).
Proof. intros st. reflexivity. Qed.

Lemma now_same_total {E : Env} : steps same_total now.
Proof. intros st. unfold now. destruct (time_time (world st)). reflexivity. Qed.

Lemma inference_generate_same_total {E : Env} model prompt t n :
  steps same_total (inference_generate model prompt t n).
Proof.
  intros st. unfold inference_generate. rewrite bind_run. simpl.
  destruct (generate _ _ _ _ _) as [[text|msg] w]; reflexivity.
Qed.

Lemma invoke_tool_same_total {E : Env} f params : steps same_total (invoke_tool f params).
Proof.
  intros st. unfold invoke_tool. rewrite bind_run. simpl.
  destruct (call_tool _ _ _). reflexivity.
Qed.

Lemma add_phase1_time_same_total {E : Env} d : steps same_total (add_phase1_time d).
Proof. intros st. reflexivity. Qed.

Lemma add_phase2_time_same_total {E : Env} d : steps same_total (add_phase2_time d).
Proof. intros st. reflexivity. Qed.

Lemma add_phase3_time_same_total {E : Env} d : steps same_total (add_phase3_time d).
Proof. intros st. reflexivity. Qed.

Lemma set_tool_name_same_total {E : Env} v : steps same_total (set_tool_name v).
Proof. intros st. reflexivity. Qed.

Lemma set_raw_response_tokens_same_total {E : Env} n :
  steps same_total (set_raw_response_tokens n).
Proof. intros st. reflexivity. Qed.

Lemma set_filtered_response_tokens_same_total {E : Env} n :
  steps same_total (set_filtered_response_tokens n).
Proof. intros st. reflexivity. Qed.

Lemma set_token_reduction_same_total {E : Env} r : steps same_total (set_token_reduction r).
Proof. intros st. reflexivity. Qed.

#[export] Hint Resolve log_same_total set_summary_same_total now_same_total
  inference_generate_same_total invoke_tool_same_total add_phase1_time_same_total
  add_phase2_time_same_total add_phase3_time_same_total set_tool_name_same_total
  set_raw_response_tokens_same_total set_filtered_response_tokens_same_total
  set_token_reduction_same_total : leap.

Lemma fallback_filter_same_total {E : Env} d fields :
  steps same_total (fallback_filter d fields).
Proof. unfold fallback_filter. steps_split. Qed.

#[export] Hint Resolve fallback_filter_same_total : leap.

Lemma filter_response_same_total {E : Env} raw fields :
  steps same_total (_filter_response raw fields).
Proof. unfold _filter_response. steps_split. Qed.

Lemma dumps_or_str_same_total {E : Env} x : steps same_total (dumps_or_str x).
Proof. unfold dumps_or_str. steps_split. Qed.

#[export] Hint Resolve filter_response_same_total dumps_or_str_same_total : leap.

Lemma phase2_same_total {E : Env} req : steps same_total (_phase2_execution req).
Proof. unfold _phase2_execution. steps_split. Qed.

Lemma phase1_same_total {E : Env} q : steps same_total (_phase1_planning q).
Proof. unfold _phase1_planning. steps_split. Qed.

Lemma phase3_same_total {E : Env} q req r : steps same_total (_phase3_update_state q req r).
Proof. unfold _phase3_update_state. steps_split. Qed.

Lemma final_answer_same_total {E : Env} q : steps same_total (_generate_final_answer q).
Proof. unfold _generate_final_answer. steps_split. Qed.

Lemma direct_response_same_total {E : Env} q : steps same_total (_direct_response q).
Proof. unfold _direct_response. steps_split. Qed.

#[export] Hint Resolve phase1_same_total phase2_same_total phase3_same_total
  final_answer_same_total direct_response_same_total : leap.

Lemma tool_turn_same_total {E : Env} q req : steps same_total (tool_turn q req).
Proof. unfold tool_turn. steps_split. Qed.

#[export] Hint Resolve tool_turn_same_total : leap.

Lemma turn_body_same_total {E : Env} q t : steps same_total (turn_body q t).
Proof. unfold turn_body. steps_split. Qed.

#[export] Hint Resolve turn_body_same_total : leap.

Lemma turn_loop_same_total {E : Env} fuel q n :
  forall t, steps same_total (turn_loop fuel q n t).
Proof.
  induction fuel as [|fuel IH]; intros t; simpl; steps_split.
Qed.

#[export] Hint Resolve turn_loop_same_total : leap.

Lemma run_same_total {E : Env} q n : steps same_total (run q n).
Proof. unfold run, run_fuel. steps_split. Qed.

(** *** Phases log phase events only *)

Lemma log_quiet {E : Env} e : phase_event e -> steps quiet (log e).
Proof. intros H st. exists [e]. split; [reflexivity|]. now constructor. Qed.

Lemma quiet_same_trace {E : Env} (st st' : Orch) : trace st' = trace st -> quiet st st'.
Proof. intros H. exists []. rewrite H, app_nil_r. now split. Qed.

Lemma set_summary_quiet {E : Env} s : steps quiet (set_summary s).
Proof. intros st. now apply quiet_same_trace. Qed.

Lemma set_metrics_quiet {E : Env} m : steps quiet (set_metrics m).
Proof. intros st. now apply quiet_same_trace. Qed.

Lemma now_quiet {E : Env} : steps quiet now.
Proof.
  intros st. unfold now. destruct (time_time (world st)). now apply quiet_same_trace.
Qed.

#[export] Hint Resolve set_summary_quiet set_metrics_quiet now_quiet : leap.
#[export] Hint Extern 1 (steps quiet (log _)) => apply log_quiet; exact I : leap.

Lemma inference_generate_quiet {E : Env} model prompt t n :
  steps quiet (inference_generate model prompt t n).
Proof.
  unfold inference_generate. apply steps_bind; eauto with leap.
  intros _ st. destruct (generate _ _ _ _ _) as [[text|msg] w];
    now apply quiet_same_trace.
Qed.

Lemma invoke_tool_quiet {E : Env} f params : steps quiet (invoke_tool f params).
Proof.
  unfold invoke_tool. apply steps_bind; eauto with leap.
  intros _ st. destruct (call_tool _ _ _). now apply quiet_same_trace.
Qed.

Lemma add_phase1_time_quiet {E : Env} d : steps quiet (add_phase1_time d).
Proof. unfold add_phase1_time. steps_split. Qed.
Lemma add_phase2_time_quiet {E : Env} d : steps quiet (add_phase2_time d).
Proof. unfold add_phase2_time. steps_split. Qed.
Lemma add_phase3_time_quiet {E : Env} d : steps quiet (add_phase3_time d).
Proof. unfold add_phase3_time. steps_split. Qed.
Lemma set_tool_name_quiet {E : Env} v : steps quiet (set_tool_name v).
Proof. unfold set_tool_name. steps_split. Qed.
Lemma set_raw_response_tokens_quiet {E : Env} n : steps quiet (set_raw_response_tokens n).
Proof. unfold set_raw_response_tokens. steps_split. Qed.
Lemma set_filtered_response_tokens_quiet {E : Env} n :
  steps quiet (set_filtered_response_tokens n).
Proof. unfold set_filtered_response_tokens. steps_split. Qed.
Lemma set_token_reduction_quiet {E : Env} r : steps quiet (set_token_reduction r).
Proof. unfold set_token_reduction. steps_split. Qed.

#[export] Hint Resolve inference_generate_quiet invoke_tool_quiet add_phase1_time_quiet
  add_phase2_time_quiet add_phase3_time_quiet set_tool_name_quiet
  set_raw_response_tokens_quiet set_filtered_response_tokens_quiet
  set_token_reduction_quiet : leap.

Lemma fallback_filter_quiet {E : Env} d fields : steps quiet (fallback_filter d fields).
Proof. unfold fallback_filter. steps_split. Qed.

#[export] Hint Resolve fallback_filter_quiet : leap.

Lemma filter_response_quiet {E : Env} raw fields : steps quiet (_filter_response raw fields).
Proof. unfold _filter_response. steps_split. Qed.

Lemma dumps_or_str_quiet {E : Env} x : steps quiet (dumps_or_str x).
Proof. unfold dumps_or_str. steps_split. Qed.

#[export] Hint Resolve filter_response_quiet dumps_or_str_quiet : leap.

Lemma phase2_quiet {E : Env} req : steps quiet (_phase2_execution req).
Proof. unfold _phase2_execution. steps_split. Qed.

Lemma phase3_quiet {E : Env} q req r : steps quiet (_phase3_update_state q req r).
Proof. unfold _phase3_update_state. steps_split. Qed.

Lemma final_answer_quiet {E : Env} q : steps quiet (_generate_final_answer q).
Proof. unfold _generate_final_answer. steps_split. Qed.

Lemma direct_response_quiet {E : Env} q : steps quiet (_direct_response q).
Proof. unfold _direct_response. steps_split. Qed.

#[export] Hint Resolve phase2_quiet phase3_quiet final_answer_quiet direct_response_quiet : leap.

Lemma tool_turn_quiet {E : Env} q req : steps quiet (tool_turn q req).
Proof. unfold tool_turn. steps_split. Qed.

(** *** What a method can return *)

Lemma yields_bind {E : Env} {A B : Type} (P : B -> Prop) (m : M A) (k : A -> M B) :
  (forall a, yields P (k a)) -> yields P (bind m k).
Proof.
  intros Hk st b. rewrite bind_run.
  destruct (m st) as [[a|e] st']; simpl; [apply Hk|discriminate].
Qed.

Lemma yields_ret {E : Env} {A : Type} (P : A -> Prop) (a : A) : P a -> yields P (ret a).
Proof. intros H st b [= <-]. exact H. Qed.

Lemma tool_turn_yields_next {E : Env} q req : yields (fun f => f = Next) (tool_turn q req).
Proof.
  unfold tool_turn. repeat (apply yields_bind; intros). now apply yields_ret.
Qed.

(** ** The turn loop *)

Lemma phase_event_body e : phase_event e -> body_event e.
Proof. now destruct e. Qed.

Lemma Forall_phase_body evs : Forall phase_event evs -> Forall body_event evs.
Proof. apply Forall_impl, phase_event_body. Qed.

Lemma planning_calls_app a b : planning_calls (a ++ b) = planning_calls a + planning_calls b.
Proof. unfold planning_calls. now rewrite filter_app, length_app. Qed.

Lemma turns_app a b : turns (a ++ b) = turns a ++ turns b.
Proof. unfold turns. apply flat_map_app. Qed.

Lemma body_events_count evs :
  Forall body_event evs -> planning_calls evs = 0 /\ turns evs = [].
Proof.
  induction 1 as [|e evs He _ [IH1 IH2]]; [now split|].
  destruct e; try contradiction; split; simpl; auto.
Qed.

Lemma phase_events_no_finish evs : Forall phase_event evs -> ~ In EvFinish evs.
Proof. intros H Hin. rewrite Forall_forall in H. exact (H _ Hin). Qed.

Lemma phase_events_no_limit evs : Forall phase_event evs -> ~ In EvLimit evs.
Proof. intros H Hin. rewrite Forall_forall in H. exact (H _ Hin). Qed.

(** Brings appended event lists to a right-nested form. *)
Ltac list_norm :=
  repeat (rewrite <- app_assoc || rewrite <- app_comm_cons); cbn [app].

Section Loop.
Context {E : Env}.
Local Open Scope Z_scope.

Lemma planning_trace q st :
  exists evs, trace (snd (_phase1_planning q st)) = trace st ++ EvPlanning :: evs
              /\ Forall phase_event evs.
Proof.
  unfold _phase1_planning. rewrite bind_run. cbn [log].
  match goal with
  | |- context [snd (?m ?s)] =>
      assert (Hq : steps quiet m) by steps_split; destruct (Hq s) as [evs [Ht Hf]]
  end.
  exists evs. split; [|assumption].
  rewrite Ht. cbn [trace]. now rewrite <- app_assoc.
Qed.

(** An iteration logs its turn and one planning call; unless it goes on
    to the next turn it has seen the finish signal. *)
Lemma turn_body_spec q t st r st' :
  turn_body q t st = (r, st') ->
  exists evs,
    trace st' = trace st ++ EvTurn t :: EvPlanning :: evs
    /\ Forall body_event evs
    /\ (forall f, r = Ok f -> f <> Next -> In EvFinish evs).
Proof.
  unfold turn_body. rewrite bind_run. cbn [log].
  set (st1 := {| trace := trace st ++ [EvTurn t] |}).
  rewrite bind_run. unfold now at 1. destruct (time_time (world st1)) as [t0 w1].
  set (st2 := set_world w1 st1).
  rewrite bind_run.
  destruct (planning_trace q st2) as [e3 [H3 F3]].
  assert (Hpre : trace st2 = trace st ++ [EvTurn t]) by reflexivity.
  destruct (_phase1_planning q st2) as [[req|e] st3]; cbn [snd] in H3.
  2:{ intros [= <- <-]. exists e3. rewrite H3, Hpre, <- app_assoc. cbn [app].
      split; [reflexivity|]. split; [now apply Forall_phase_body|discriminate]. }
  rewrite bind_run. unfold now at 1. destruct (time_time (world st3)) as [t1 w3].
  set (st4 := set_world w3 st3).
  rewrite bind_run. cbn [add_phase1_time bind get_metrics_record set_metrics].
  match goal with
  | |- match req with _ => _ end ?s = _ -> _ => set (st5 := s)
  end.
  assert (H5 : trace st5 = trace st ++ EvTurn t :: EvPlanning :: e3).
  { subst st5 st4. cbn [trace set_world]. rewrite H3, Hpre, <- app_assoc. reflexivity. }
  destruct req as [req|].
  - (* a tool was selected *)
    intros Hrun.
    destruct (tool_turn_quiet q req st5) as [e6 [H6 F6]].
    pose proof (tool_turn_yields_next q req st5) as Hy.
    rewrite Hrun in H6, Hy. cbn [fst snd] in H6, Hy.
    exists (e3 ++ e6). split; [|split].
    + rewrite H6, H5. now rewrite <- app_assoc.
    + apply Forall_app. split; now apply Forall_phase_body.
    + intros f -> Hn. now specialize (Hy _ eq_refl).
  - (* the finish signal *)
    rewrite bind_run. cbn [log].
    match goal with
    | |- (if _ then _ else _) ?s = _ -> _ => set (st6 := s)
    end.
    assert (H6 : trace st6 = trace st ++ EvTurn t :: EvPlanning :: e3 ++ [EvFinish]).
    { subst st6. cbn [trace]. rewrite H5, <- app_assoc. reflexivity. }
    destruct (t =? 1).
    + rewrite bind_run.
      destruct (direct_response_quiet q st6) as [e7 [H7 F7]].
      intros Hrun.
      exists (e3 ++ EvFinish :: e7). split; [|split].
      * destruct (_direct_response q st6) as [[a|e] st7]; cbn [snd] in H7;
          injection Hrun as <- <-; rewrite H7, H6; list_norm; reflexivity.
      * apply Forall_app. split; [now apply Forall_phase_body|].
        constructor; [exact I|now apply Forall_phase_body].
      * intros _ _ _. apply in_or_app. right. now left.
    + intros [= <- <-]. exists (e3 ++ [EvFinish]). split; [|split].
      * rewrite H6. reflexivity.
      * apply Forall_app. split; [now apply Forall_phase_body|].
        now repeat constructor.
      * intros _ _ _. apply in_or_app. right. now left.
Qed.

End Loop.

Section LoopSpec.
Context {E : Env}.
Local Open Scope Z_scope.

Lemma turns_from_S t k : turns_from t (S k) = t :: turns_from (t + 1) k.
Proof.
  unfold turns_from. simpl. f_equal; [lia|].
  rewrite <- seq_shift, map_map. apply map_ext. intros i. lia.
Qed.

Lemma turns_from_one k : turns_from 1 k = List.map Z.of_nat (seq 1 k).
Proof.
  unfold turns_from. rewrite <- seq_shift, map_map. apply map_ext. intros i. lia.
Qed.

(** The loop started at turn [t] makes [k] planning calls, one in each
    of the turns [t .. t+k-1], none of them beyond [max_turns]. *)
Lemma turn_loop_spec q n :
  forall fuel t st r st',
    turn_loop fuel q n t st = (r, st') ->
    exists evs,
      trace st' = trace st ++ evs
      /\ turns evs = turns_from t (planning_calls evs)
      /\ (planning_calls evs = 0%nat \/ t + Z.of_nat (planning_calls evs) - 1 <= n)
      /\ (planning_calls evs <= fuel)%nat
      /\ match r with
         | Ok (inl (Some _)) => In EvFinish evs
         | Ok (inl None) =>
             In EvFinish evs \/ (In EvLimit evs /\ n < t + Z.of_nat (planning_calls evs))
         | Ok (inr _) => planning_calls evs = fuel
         | Raise _ => True
         end.
Proof.
  induction fuel as [|fuel IH]; intros t st r st'; cbn [turn_loop].
  - intros [= <- <-]. exists []. rewrite app_nil_r. cbn.
    repeat split; auto.
  - destruct (Z.leb_spec t n) as [Hle|Hgt].
    + rewrite bind_run.
      destruct (turn_body q t st) as [rb st1] eqn:Hb.
      destruct (turn_body_spec q t st rb st1 Hb) as [eb [Hbt [Hbf Hfin]]].
      destruct (body_events_count eb Hbf) as [Hc0 Ht0].
      assert (Hcount : planning_calls (EvTurn t :: EvPlanning :: eb) = 1%nat).
      { change (planning_calls (EvTurn t :: EvPlanning :: eb))
          with (S (planning_calls eb)). now rewrite Hc0. }
      assert (Hturns : turns (EvTurn t :: EvPlanning :: eb) = [t]).
      { change (turns (EvTurn t :: EvPlanning :: eb)) with (t :: turns eb).
        now rewrite Ht0. }
      assert (Hone : forall r0,
                 match r0 with
                 | Ok (inl (Some _)) | Ok (inl None) => In EvFinish eb
                 | Ok (inr _) => False
                 | Raise _ => True
                 end ->
                 (r0, st1) = (r, st') ->
                 exists evs,
                   trace st' = trace st ++ evs
                   /\ turns evs = turns_from t (planning_calls evs)
                   /\ (planning_calls evs = 0%nat
                       \/ t + Z.of_nat (planning_calls evs) - 1 <= n)
                   /\ (planning_calls evs <= S fuel)%nat
                   /\ match r with
                      | Ok (inl (Some _)) => In EvFinish evs
                      | Ok (inl None) =>
                          In EvFinish evs
                          \/ (In EvLimit evs /\ n < t + Z.of_nat (planning_calls evs))
                      | Ok (inr _) => planning_calls evs = S fuel
                      | Raise _ => True
                      end).
      { intros r0 Hr0 [= <- <-]. exists (EvTurn t :: EvPlanning :: eb).
        rewrite Hcount, Hturns. split; [assumption|].
        split; [now rewrite turns_from_S|].
        split; [right; lia|]. split; [lia|].
        destruct r0 as [[[a|]|[]]|e]; auto; try contradiction.
        - now right; right.
        - left. now right; right. }
      destruct rb as [[a| |]|e].
      * apply (Hone (Ok (inl (Some a)))). apply Hfin with (f := Return a); congruence.
      * apply (Hone (Ok (inl None))). apply Hfin with (f := Break); congruence.
      * intros Hloop. destruct (IH _ _ _ _ Hloop) as [ev [Htr [Htu [Hbound [Hfuel Hmode]]]]].
        exists ((EvTurn t :: EvPlanning :: eb) ++ ev).
        rewrite planning_calls_app, turns_app, Hcount, Hturns, Htu.
        cbn [Nat.add app]. rewrite turns_from_S.
        split; [rewrite Htr, Hbt; now list_norm|].
        split; [reflexivity|]. split; [right; lia|]. split; [lia|].
        destruct r as [[[a|]|[]]|e]; auto.
        -- right; right. apply in_or_app. now right.
        -- destruct Hmode as [Hf|[Hl Hn]].
           ++ left. right; right. apply in_or_app. now right.
           ++ right. split; [right; right; apply in_or_app; now right|lia].
      * apply (Hone (Raise e)). exact I.
    + rewrite bind_run. cbn [log ret]. intros [= <- <-].
      exists [EvLimit]. cbn. split; [reflexivity|]. split; [reflexivity|].
      split; [now left|]. split; [lia|]. right. split; [now left|lia].
Qed.

End LoopSpec.

Local Open Scope Z_scope.

(** ** [run] *)

Lemma run_fuel_spec {E : Env} fuel q n st r st' :
  run_fuel fuel q n st = (r, st') ->
  exists evs,
    trace st' = trace st ++ evs
    /\ turns evs = turns_from 1 (planning_calls evs)
    /\ (planning_calls evs = 0%nat \/ Z.of_nat (planning_calls evs) <= n)
    /\ match r with
       | Ok (Some _) =>
           In EvFinish evs \/ (In EvLimit evs /\ n < 1 + Z.of_nat (planning_calls evs))
       | Ok None => planning_calls evs = fuel
       | Raise _ => True
       end.
Proof.
  unfold run_fuel. rewrite bind_run. cbn [set_summary].
  set (st1 := {| state_summary := lit "No actions taken yet." |}).
  rewrite bind_run. unfold now at 1. destruct (time_time (world st1)) as [t0 w1].
  set (st2 := set_world w1 st1).
  assert (H2 : trace st2 = trace st) by reflexivity.
  rewrite bind_run.
  destruct (turn_loop fuel q n 1 st2) as [rl st3] eqn:Hl.
  destruct (turn_loop_spec q n fuel 1 st2 rl st3 Hl)
    as [evs [Htr [Htu [Hb [_ Hmode]]]]].
  rewrite H2 in Htr.
  assert (Hb' : planning_calls evs = 0%nat \/ Z.of_nat (planning_calls evs) <= n)
    by (destruct Hb; [now left|right; lia]).
  destruct rl as [[[a|]|[]]|e].
  - intros [= <- <-]. exists evs. auto.
  - rewrite bind_run.
    destruct (final_answer_quiet q st3) as [ef [Hf Ff]].
    destruct (body_events_count ef (Forall_phase_body ef Ff)) as [Hc0 Ht0].
    intros Hrun. exists (evs ++ ef).
    rewrite planning_calls_app, turns_app, Hc0, Ht0, Nat.add_0_r, app_nil_r.
    split.
    { destruct (_generate_final_answer q st3) as [[a|e] st4]; cbn [snd] in Hf;
        injection Hrun as <- <-; rewrite Hf, Htr; now list_norm. }
    split; [assumption|]. split; [assumption|].
    destruct (_generate_final_answer q st3) as [[a|e] st4];
      injection Hrun as <- <-; [|exact I].
    destruct Hmode as [Hfin|[Hlim Hn]].
    + left. apply in_or_app. now left.
    + right. split; [apply in_or_app; now left|assumption].
  - intros [= <- <-]. exists evs. auto.
  - intros [= <- <-]. exists evs. auto.
Qed.

(** The fuel [run] gives its loop is never used up: [run] returns or
    raises. *)
Lemma run_fuel_enough {E : Env} q n st : fst (run q n st) <> Ok None.
Proof.
  unfold run. destruct (run_fuel _ q n st) as [r st'] eqn:Hrun.
  destruct (run_fuel_spec _ _ _ _ _ _ Hrun) as [evs [_ [_ [Hb Hmode]]]].
  cbn [fst]. intros ->. rewrite Hmode in Hb. destruct Hb as [Hb|Hb]; [discriminate|].
  lia.
Qed.




(** C9 (as the code has it): a call of [run] with [max_turns < 1], whatever the
    query, raises no configuration error and makes no planning,
    execution or state-update call: the loop body is skipped, and the
    run makes the one generation call of the final answer, from the
    initial summary, and returns its text or propagates its error. *)
Theorem run_below_one_turn {E : Env} (query : pystr) (max_turns : Z) (st : Orch) :
  max_turns < 1 ->
  trace (snd (run query max_turns st))
  = trace st ++ [ EvLimit; EvFinal;
                  EvGenerate (main_model (config st))
                             (final_prompt query (lit "No actions taken yet.")) ]
  /\ fst (run query max_turns st)
     = match fst (generate (main_model (config st))
                           (final_prompt query (lit "No actions taken yet."))
                           (main_temperature (config st)) 1024
                           (snd (time_time (world st)))) with
       | inl text => Ok (Some text)
       | inr msg => Raise (RuntimeError msg)
       end.
Proof.
  intros Hn. unfold run, run_fuel. cbn [turn_loop].
  destruct (Z.leb_spec 1 max_turns) as [Hle|_]; [lia|].
  unfold bind, set_summary, now, log, ret, _generate_final_answer, bind, log,
    get_config, get_summary, inference_generate, bind, log.
  cbn [world config state_summary trace metrics].
  destruct (time_time (world st)) as [t0 w1]. cbn [set_world world config state_summary trace metrics fst snd].
  destruct (generate _ _ _ _ w1) as [[text|msg] w2]; cbn [fst snd trace set_world];
    split; try reflexivity; now list_norm.
Qed.

Lemma run_below_one_turn_witness :
  0 < 1
  /\ trace (snd (@run scripted (lit "hello") 0 (scripted_start [inl (lit "Hi there.")])))
     = trace (scripted_start [inl (lit "Hi there.")])
       ++ [ EvLimit; EvFinal;
            EvGenerate (main_model (config (scripted_start [inl (lit "Hi there.")])))
                       (final_prompt (lit "hello") (lit "No actions taken yet.")) ]
  /\ fst (@run scripted (lit "hello") 0 (scripted_start [inl (lit "Hi there.")]))
     = match fst (@generate scripted
                    (main_model (config (scripted_start [inl (lit "Hi there.")])))
                    (final_prompt (lit "hello") (lit "No actions taken yet."))
                    (main_temperature (config (scripted_start [inl (lit "Hi there.")])))
                    1024
                    (snd (@time_time scripted
                            (world (scripted_start [inl (lit "Hi there.")]))))) with
       | inl text => Ok (Some text)
       | inr msg => Raise (RuntimeError msg)
       end.
Proof.
  split; [lia|].
  apply (@run_below_one_turn scripted (lit "hello") 0
           (scripted_start [inl (lit "Hi there.")])).
  lia.
Defined.

(** C9 (counterexample): neither an empty query nor a turn limit of
    zero is refused.  The empty query is planned and answered like any
    other; with [max_turns = 0] the run returns an answer as well. *)
Lemma run_accepts_empty_query_and_zero_turns :
  fst (@run scripted [] 1
         (scripted_start [inl (jq "{'tool': null}");
                          inl (lit "Hello! How can I help you today?")]))
  = Ok (Some (lit "Hello! How can I help you today?"))
  /\ planning_calls
       (trace (snd (@run scripted [] 1
                      (scripted_start [inl (jq "{'tool': null}");
                                       inl (lit "Hello! How can I help you today?")]))))
     = 1%nat
  /\ fst (@run scripted (lit "hello") 0 (scripted_start [inl (lit "Hi there.")]))
     = Ok (Some (lit "Hi there.")).
Proof. vm_compute. repeat split. Qed.

(** ** Metrics *)

Lemma run_all_same_total {E : Env} calls :
  forall st, total_time (metrics (run_all calls st)) = total_time (metrics st).
Proof.
  induction calls as [|[q n] calls IH]; intros st; [reflexivity|].
  cbn [run_all]. rewrite IH. apply (run_same_total q n st).
Qed.

(** C10: no operation assigns [total_time].  After any sequence of
    calls of [run] on a new orchestrator, in any environment,
    [get_metrics()] reports [total_time = 0.0]; the times of the three
    phases do accumulate, as in the scripted run of two turns below. *)
Theorem total_time_never_assigned :
  (forall (E : Env) (cfg : LEAPConfig) (w : World) (calls : list (pystr * Z)),
      dict_get (get_metrics (run_all calls (new_orchestrator cfg w))) (lit "total_time")
      = Some (PFloat 0%float))
  /\ (let st :=
        @run_all scripted [(lit "What is 15% of 250?", 3)]
          (scripted_start
             [ inl (jq "{'tool': 'calculate', 'params': {'expression': '250 * 0.15'}}");
               inl (lit "Calculated 250 * 0.15 = 37.5.");
               inl (jq "{'tool': null}");
               inl (lit "15% of 250 is 37.5.") ]) in
      phase1_time (metrics st) = 2%float
      /\ phase2_time (metrics st) = 1%float
      /\ phase3_time (metrics st) = 1%float
      /\ total_time (metrics st) = 0%float).
Proof.
  split.
  - intros E cfg w calls. unfold get_metrics.
    change (dict_get _ (lit "total_time"))
      with (Some (PFloat (total_time (metrics (run_all calls (new_orchestrator cfg w)))))).
    now rewrite run_all_same_total.
  - vm_compute. repeat split.
Qed.

(** ** Dictionaries *)

Lemma pystr_eqb_sym (a b : pystr) : pystr_eqb a b = pystr_eqb b a.
Proof.
  destruct (pystr_eqb a b) eqn:H.
  - apply pystr_eqb_eq in H. subst. now rewrite pystr_eqb_refl.
  - symmetry. apply pystr_eqb_neq. apply pystr_eqb_neq in H. congruence.
Qed.

Lemma dict_get_set (d : pydict) (k k' : pystr) (v : pyval) :
  dict_get (dict_set d k v) k' = if pystr_eqb k k' then Some v else dict_get d k'.
Proof.
  induction d as [|[k0 v0] d IH]; simpl.
  - reflexivity.
  - destruct (pystr_eqb k0 k) eqn:H0; simpl.
    + apply pystr_eqb_eq in H0. subst k0. now destruct (pystr_eqb k k').
    + rewrite IH. destruct (pystr_eqb k0 k') eqn:H1; [|reflexivity].
      apply pystr_eqb_eq in H1. subst k'. now rewrite pystr_eqb_sym, H0.
Qed.

Lemma dict_has_keys (d : pydict) (k : pystr) :
  dict_has d k = true <-> In k (dict_keys d).
Proof.
  unfold dict_has. induction d as [|[k0 v0] d IH]; simpl.
  - split; [discriminate|contradiction].
  - destruct (pystr_eqb k0 k) eqn:H0.
    + apply pystr_eqb_eq in H0. split; auto.
    + apply pystr_eqb_neq in H0. rewrite IH. split; [auto|intros [H|H]; congruence].
Qed.

Lemma dict_has_get (d : pydict) (k : pystr) :
  dict_has d k = true <-> exists v, dict_get d k = Some v.
Proof.
  unfold dict_has. destruct (dict_get d k); split; eauto; try discriminate.
  intros [v H]. discriminate.
Qed.

(** ** The filter *)

(** The fallback loop over a list of field names. *)
Lemma pick_fields_names (names : list pystr) (raw : pydict) :
  forall acc, exists out,
    pick_fields (List.map PStr names) raw acc = Ok out
    /\ forall k, dict_get out k =
                 if existsb (pystr_eqb k) names && dict_has raw k
                 then dict_get raw k else dict_get acc k.
Proof.
  induction names as [|f names IH]; intros acc; cbn [List.map pick_fields].
  - exists acc. split; [reflexivity|]. intros k. reflexivity.
  - destruct (dict_get raw f) as [v|] eqn:Hf.
    + destruct (IH (dict_set acc f v)) as [out [Hout Hget]].
      exists out. split; [assumption|]. intros k. rewrite Hget, dict_get_set.
      cbn [existsb]. destruct (pystr_eqb k f) eqn:Hkf.
      * apply pystr_eqb_eq in Hkf. subst k. rewrite pystr_eqb_refl.
        unfold dict_has. rewrite Hf. cbn.
        now destruct (existsb (pystr_eqb f) names).
      * now rewrite pystr_eqb_sym, Hkf.
    + destruct (IH acc) as [out [Hout Hget]].
      exists out. split; [assumption|]. intros k. rewrite Hget.
      cbn [existsb]. destruct (pystr_eqb k f) eqn:Hkf; [|reflexivity].
      apply pystr_eqb_eq in Hkf. subst k. unfold dict_has. rewrite Hf.
      now rewrite !andb_false_r.
Qed.

Lemma existsb_eqb_In (k : pystr) (names : list pystr) :
  existsb (pystr_eqb k) names = true <-> In k names.
Proof.
  rewrite existsb_exists. split.
  - intros [x [Hin Heq]]. apply pystr_eqb_eq in Heq. now subst.
  - intros H. exists k. split; [assumption|apply pystr_eqb_refl].
Qed.

(** C6: a mapping whose serialisation (with [indent=2]) is shorter than
    500 characters is returned as it is, whatever the requested fields,
    and the state stays as it was: no call of the execution model is
    made. *)
Theorem filter_passes_small_results {E : Env} (d : pydict) (filter_fields : pyval)
        (raw_json : pystr) (st : Orch) :
  json_dumps_indent 2 (PDict d) = Some raw_json ->
  len raw_json < 500 ->
  _filter_response (PDict d) filter_fields st = (Ok (PDict d), st).
Proof.
  intros Hd Hlen. unfold _filter_response. rewrite Hd.
  destruct (Z.ltb_spec (len raw_json) 500); [reflexivity|lia].
Qed.

Lemma filter_passes_small_results_witness :
  @json_dumps_indent scripted 2 calculate_result
  = Some (jq "{
  'expression': '250 * 0.15',
  'result': 37.5,
  'type': 'float'
}")
  /\ len (jq "{
  'expression': '250 * 0.15',
  'result': 37.5,
  'type': 'float'
}") < 500
  /\ @_filter_response scripted calculate_result (PList [PStr (lit "result")])
       (scripted_start [])
     = (Ok calculate_result, scripted_start []).
Proof.
  split; [reflexivity|]. split; [reflexivity|].
  eapply (@filter_passes_small_results scripted); reflexivity.
Defined.



(** The fallback on the scripted world: of the requested fields only
    [size] is a key of the raw result. *)
Example filter_fallback_run :
  fst (@_filter_response scripted read_file_result
         (PList [PStr (lit "size"); PStr (lit "owner")])
         (scripted_start [inl (lit "I cannot do that.")]))
  = Ok (PDict [(lit "size", PInt 600)]).
Proof. vm_compute. reflexivity. Qed.

(** ** Failed tool calls *)

Lemma error_json_dumps {E : Env} (msg : pystr) :
  json_dumps (PDict [(lit "error", PStr msg)]) = Some (error_json msg).
Proof. reflexivity. Qed.

(** Unfolds the monadic plumbing of a method. *)
Ltac run_method :=
  repeat progress
    (unfold bind, ret, raise, log, now, get_config, get_summary, get_metrics_record,
       set_metrics, set_summary, set_tool_name, add_phase1_time, add_phase2_time,
       add_phase3_time, inference_generate, invoke_tool;
     cbn [config metrics state_summary world trace set_world fst snd]).

(** The execution phase on a request whose tool is unknown, or whose
    callable raises: it returns the error mapping, serialised. *)
Lemma phase2_failure {E : Env} (tool_request : pydict) (name msg : pystr) (st : Orch) :
  dict_get tool_request (lit "tool") = Some (PStr name) ->
  (registry_get _load_tools name = None /\ msg = lit "Unknown tool: " ++ name)
  \/ (exists tool_func,
         registry_get _load_tools name = Some tool_func
         /\ fst (call_tool tool_func
                   (if truthy (dict_get_default tool_request (lit "params") (PDict []))
                    then Some (dict_get_default tool_request (lit "params") (PDict []))
                    else None)
                   (world st)) = inr msg) ->
  exists st' calls,
    _phase2_execution tool_request st = (Ok (error_json msg), st')
    /\ trace st' = trace st ++ EvExecution :: calls
    /\ (forall e, In e calls -> exists f, e = EvTool f)
    /\ config st' = config st
    /\ state_summary st' = state_summary st.
Proof.
  intros Htool Hfail. unfold _phase2_execution. cbv zeta.
  replace (dict_get_default tool_request (lit "tool") PNone) with (PStr name)
    by (unfold dict_get_default; now rewrite Htool).
  cbn [py_str].
  destruct Hfail as [[Hreg ->]|[tool_func [Hreg Hcall]]]; rewrite Hreg.
  - run_method. eexists _, []. split; [reflexivity|].
    cbn [trace]. split; [reflexivity|]. split; [intros e []|]. now split.
  - run_method.
    destruct (call_tool tool_func _ (world st)) as [r w'] eqn:Hc.
    cbn [fst] in Hcall. subst r. run_method.
    eexists _, [EvTool tool_func]. split; [reflexivity|].
    cbn [trace]. split; [now list_norm|].
    split; [intros e [<-|[]]; now exists tool_func|]. now split.
Qed.



(** A planner that always asks for an unknown tool: every turn is
    executed and summarised, and the run ends at the turn limit with a
    final answer. *)
Example unknown_tool_run :
  fst (@run scripted (lit "do it") 2
         (scripted_start
            [ inl (jq "{'tool': 'does_not_exist'}"); inl (lit "An unknown tool was requested.");
              inl (jq "{'tool': 'does_not_exist'}"); inl (lit "Two unknown tools were requested.");
              inl (lit "I could not complete the task.") ]))
  = Ok (Some (lit "I could not complete the task."))
  /\ state_summary
       (snd (@run scripted (lit "do it") 2
               (scripted_start
                  [ inl (jq "{'tool': 'does_not_exist'}"); inl (lit "An unknown tool was requested.");
                    inl (jq "{'tool': 'does_not_exist'}"); inl (lit "Two unknown tools were requested.");
                    inl (lit "I could not complete the task.") ])))
     = lit "Two unknown tools were requested.".
Proof. vm_compute. split; reflexivity. Qed.

(** A registered tool that raises: the message of the exception is
    returned as the error. *)
Example raising_tool_phase2 :
  fst (@_phase2_execution scripted
         [(lit "tool", PStr (lit "web_search")); (lit "params", PDict [(lit "query", PStr (lit "rocq"))])]
         (scripted_start []))
  = Ok (jq "{'error': 'network unreachable'}").
Proof. vm_compute. reflexivity. Qed.

(** ** The response parser *)

Lemma interpret_finish (d : pydict) :
  dict_get d (lit "tool") = Some PNone \/ dict_get d (lit "tool") = Some (PStr (lit "null")) ->
  interpret (PDict d) = Some None.
Proof.
  intros H. unfold interpret, dict_has.
  destruct H as [-> | ->]; reflexivity.
Qed.

(** C2 (as the code has it): when the cleaned text is a JSON mapping whose [tool]
    is [null] or the string ["null"], the parser returns the finish
    signal [None].  (An empty string under [tool] is not a finish
    signal.) *)
Theorem parse_finish_signal {E : Env} (raw : pystr) (d : pydict) :
  json_loads (clean_response raw) = Some (PDict d) ->
  dict_get d (lit "tool") = Some PNone \/ dict_get d (lit "tool") = Some (PStr (lit "null")) ->
  _parse_tool_request raw = None.
Proof.
  intros Hload Htool. unfold _parse_tool_request, try_parse.
  rewrite Hload. now rewrite interpret_finish.
Qed.

Lemma parse_finish_signal_witness :
  @json_loads scripted (clean_response (jq "```json
{'tool': 'null'}
```")) = Some (PDict [(lit "tool", PStr (lit "null"))])
  /\ dict_get [(lit "tool", PStr (lit "null"))] (lit "tool") = Some (PStr (lit "null"))
  /\ @_parse_tool_request scripted (jq "```json
{'tool': 'null'}
```") = None.
Proof.
  split; [reflexivity|]. split; [reflexivity|].
  apply (@parse_finish_signal scripted _ [(lit "tool", PStr (lit "null"))]).
  - reflexivity.
  - right. reflexivity.
Defined.

Example parse_null : @_parse_tool_request scripted (jq "{'tool': null}") = None.
Proof. reflexivity. Qed.

Example parse_null_string : @_parse_tool_request scripted (jq "{ 'tool' : 'null' }") = None.
Proof. reflexivity. Qed.

(** C2 (counterexample): an empty string under [tool] is returned as a
    tool request, not as the finish signal. *)
Lemma parse_empty_tool_is_a_request :
  @_parse_tool_request scripted (jq "{'tool': ''}") = Some [(lit "tool", PStr [])].
Proof. reflexivity. Qed.

(** C7 (counterexample): a well-formed finish signal and a text with no
    JSON in it give the same value. *)
Lemma parse_finish_equals_failure :
  @_parse_tool_request scripted (jq "{'tool': null}")
  = @_parse_tool_request scripted (lit "I am not sure what to do next.").
Proof. reflexivity. Qed.

(** C7 (as the code has it): the parser has two outcomes, a tool request and
    [None].  A well-formed finish signal and a text that is not JSON and
    holds no brace-balanced object both give [None]: no further action
    is not told apart from a parse failure. *)
Theorem parse_finish_and_failure_coincide {E : Env} (finish garbage : pystr)
        (d : pydict) :
  json_loads (clean_response finish) = Some (PDict d) ->
  dict_get d (lit "tool") = Some PNone \/ dict_get d (lit "tool") = Some (PStr (lit "null")) ->
  json_loads (clean_response garbage) = None ->
  extract_json_object (clean_response garbage) = None ->
  _parse_tool_request finish = None /\ _parse_tool_request garbage = None.
Proof.
  intros Hload Htool Hbad Hnone. split.
  - unfold _parse_tool_request, try_parse. rewrite Hload. now rewrite interpret_finish.
  - unfold _parse_tool_request, try_parse. now rewrite Hbad, Hnone.
Qed.

Lemma parse_finish_and_failure_coincide_witness :
  @json_loads scripted (clean_response (jq "{'tool': null}"))
  = Some (PDict [(lit "tool", PNone)])
  /\ dict_get [(lit "tool", PNone)] (lit "tool") = Some PNone
  /\ @json_loads scripted (clean_response (lit "I am not sure what to do next.")) = None
  /\ extract_json_object (clean_response (lit "I am not sure what to do next.")) = None
  /\ @_parse_tool_request scripted (jq "{'tool': null}") = None
  /\ @_parse_tool_request scripted (lit "I am not sure what to do next.") = None.
Proof.
  split; [reflexivity|]. split; [reflexivity|].
  split; [reflexivity|]. split; [reflexivity|].
  apply (@parse_finish_and_failure_coincide scripted _ _ [(lit "tool", PNone)]).
  - reflexivity.
  - left. reflexivity.
  - reflexivity.
  - reflexivity.
Defined.

(** What the parser returns as a request does carry a tool. *)
Lemma parse_request_has_tool {E : Env} (raw : pystr) (d : pydict) :
  _parse_tool_request raw = Some d ->
  exists v, dict_get d (lit "tool") = Some v /\ v <> PNone /\ v <> PStr (lit "null").
Proof.
  assert (Hi : forall p r, interpret p = Some (Some r) ->
                 exists v, dict_get r (lit "tool") = Some v
                           /\ v <> PNone /\ v <> PStr (lit "null")).
  { intros p r. unfold interpret. destruct p; try discriminate.
    unfold dict_has. destruct (dict_get entries (lit "tool")) as [v|] eqn:Hv;
      [|discriminate].
    destruct v; try (intros [= <-]; eexists; split; [eassumption|split; discriminate]).
    - discriminate.
    - destruct (pystr_eqb s (lit "null")) eqn:Hs; [discriminate|].
      intros [= <-]. eexists. split; [eassumption|]. split; [discriminate|].
      intros [= ->]. now rewrite pystr_eqb_refl in Hs. }
  unfold _parse_tool_request, try_parse.
  destruct (json_loads (clean_response raw)) as [p|].
  - destruct (interpret p) as [[r|]|] eqn:Hp.
    + intros [= <-]. eauto.
    + discriminate.
    + destruct (extract_json_object _) as [j|]; [|discriminate].
      destruct (json_loads j) as [p'|]; [|discriminate].
      destruct (interpret p') as [[r|]|] eqn:Hp'; try discriminate.
      intros [= <-]. eauto.
  - destruct (extract_json_object _) as [j|]; [|discriminate].
    destruct (json_loads j) as [p'|]; [|discriminate].
    destruct (interpret p') as [[r|]|] eqn:Hp'; try discriminate.
    intros [= <-]. eauto.
Qed.

Local Close Scope Z_scope.

(** ** The JSON scanner reads no further than the value *)

Section JsonLocal.
Context {E : Env}.
Local Open Scope N_scope.

Lemma strip_prefix_more (p s r t : pystr) :
  strip_prefix p s = Some r -> strip_prefix p (s ++ t) = Some (r ++ t).
Proof.
  intros H. apply strip_prefix_Some in H. subst s.
  rewrite <- app_assoc. apply strip_prefix_app.
Qed.

Lemma skip_ws_more (s t : pystr) :
  skip_ws s <> [] -> skip_ws (s ++ t) = skip_ws s ++ t.
Proof.
  induction s as [|x s IH]; cbn [skip_ws app]; [congruence|].
  destruct (is_json_ws x); [assumption|reflexivity].
Qed.

Lemma skip_ws_length (s : pystr) : (List.length (skip_ws s) <= List.length s)%nat.
Proof.
  induction s as [|x s IH]; simpl; [lia|].
  destruct (is_json_ws x); simpl; lia.
Qed.

Lemma skip_ws_head (s r : pystr) (c : char) :
  skip_ws s = c :: r -> is_json_ws c = false.
Proof.
  induction s as [|x s IH]; simpl; [discriminate|].
  destruct (is_json_ws x) eqn:Hx; [assumption|]. now intros [= <- _].
Qed.

Lemma skip_ws_fixed (c : char) (s : pystr) :
  is_json_ws c = false -> skip_ws (c :: s) = c :: s.
Proof. intros H. simpl. now rewrite H. Qed.

(** *** Strings *)

Lemma cons_str_Some c o str r :
  cons_str c o = Some (str, r) ->
  exists str', o = Some (str', r) /\ str = c :: str'.
Proof.
  destruct o as [[str' r']|]; simpl; [|discriminate].
  intros [= <- <-]. eauto.
Qed.

Lemma scanstring_more :
  forall n s, (List.length s <= n)%nat ->
    forall str r t, scanstring s = Some (str, r) ->
                    scanstring (s ++ t) = Some (str, r ++ t).
Proof.
  induction n as [|n IH]; intros s Hn str r t H.
  { destruct s; [discriminate|simpl in Hn; lia]. }
  assert (Hrec : forall c s' str r,
             (List.length s' <= n)%nat ->
             cons_str c (scanstring s') = Some (str, r) ->
             cons_str c (scanstring (s' ++ t)) = Some (str, r ++ t)).
  { intros c s' str0 r0 Hl Hc. apply cons_str_Some in Hc as [str' [Hs ->]].
    now rewrite (IH s' Hl _ _ t Hs). }
  destruct s as [|c s1]; [discriminate H|].
  cbn [scanstring app] in *.
  destruct (c =? 34).
  { injection H as <- <-. reflexivity. }
  destruct (c =? 92).
  2:{ destruct (c <? 32); [discriminate H|]. apply Hrec; [simpl in Hn; lia|assumption]. }
  destruct s1 as [|e s2]; [discriminate H|]. cbn [app].
  destruct (e =? 117).
  2:{ destruct (unescape e); [|discriminate H].
      apply Hrec; [simpl in Hn; lia|assumption]. }
  destruct s2 as [|h1 [|h2 [|h3 [|h4 s3]]]]; try discriminate H. cbn [app].
  destruct (hex4 h1 h2 h3 h4) as [uni|]; [|discriminate H].
  assert (Hl3 : (List.length s3 <= n)%nat) by (simpl in Hn; lia).
  destruct ((55296 <=? uni) && (uni <=? 56319)); [|now apply Hrec].
  destruct s3 as [|b [|u s4]].
  - discriminate H.
  - (* one character left: it closes the string *)
    apply cons_str_Some in H as [str' [Hs ->]].
    assert (Hb : (b =? 92) = false).
    { destruct (N.eqb_spec b 92) as [->|]; [cbn in Hs; discriminate Hs|reflexivity]. }
    pose proof (IH [b] Hl3 _ _ t Hs) as Ht.
    cbn [app] in *. destruct t as [|u t'].
    + now rewrite Ht.
    + rewrite Hb. cbn [andb]. now rewrite Ht.
  - cbn [app].
    destruct ((b =? 92) && (u =? 117)); [|now apply (Hrec uni (b :: u :: s4))].
    destruct s4 as [|l1 [|l2 [|l3 [|l4 s5]]]]; try discriminate H. cbn [app].
    destruct (hex4 l1 l2 l3 l4) as [uni2|]; [|discriminate H].
    destruct ((56320 <=? uni2) && (uni2 <=? 57343)).
    + apply Hrec; [simpl in Hl3; lia|assumption].
    + now apply (Hrec uni (b :: u :: l1 :: l2 :: l3 :: l4 :: s5)).
Qed.

Lemma scanstring_app (s str r t : pystr) :
  scanstring s = Some (str, r) -> scanstring (s ++ t) = Some (str, r ++ t).
Proof. apply (scanstring_more (List.length s)). lia. Qed.

Lemma scanstring_length :
  forall n s, (List.length s <= n)%nat ->
    forall str r, scanstring s = Some (str, r) -> (List.length r < List.length s)%nat.
Proof.
  induction n as [|n IH]; intros s Hn str r H.
  { destruct s; [discriminate|simpl in Hn; lia]. }
  assert (Hrec : forall c s' str r,
             (List.length s' <= n)%nat ->
             cons_str c (scanstring s') = Some (str, r) ->
             (List.length r < List.length s')%nat).
  { intros c s' str0 r0 Hl Hc. apply cons_str_Some in Hc as [str' [Hs ->]].
    now apply (IH s' Hl _ _ Hs). }
  destruct s as [|c s1]; [discriminate H|].
  cbn [scanstring] in H.
  destruct (c =? 34).
  { injection H as <- <-. simpl. lia. }
  destruct (c =? 92).
  2:{ destruct (c <? 32); [discriminate H|].
      apply Hrec in H; simpl in *; lia. }
  destruct s1 as [|e s2]; [discriminate H|].
  destruct (e =? 117).
  2:{ destruct (unescape e); [|discriminate H]. apply Hrec in H; simpl in *; lia. }
  destruct s2 as [|h1 [|h2 [|h3 [|h4 s3]]]]; try discriminate H.
  destruct (hex4 h1 h2 h3 h4) as [uni|]; [|discriminate H].
  assert (Hl3 : (List.length s3 <= n)%nat) by (simpl in Hn; lia).
  destruct ((55296 <=? uni) && (uni <=? 56319));
    [|apply Hrec in H; simpl in *; lia].
  destruct s3 as [|b [|u s4]].
  - discriminate H.
  - apply Hrec in H; simpl in *; lia.
  - destruct ((b =? 92) && (u =? 117)); [|apply Hrec in H; simpl in *; lia].
    destruct s4 as [|l1 [|l2 [|l3 [|l4 s5]]]]; try discriminate H.
    destruct (hex4 l1 l2 l3 l4) as [uni2|]; [|discriminate H].
    destruct ((56320 <=? uni2) && (uni2 <=? 57343));
      apply Hrec in H; simpl in *; lia.
Qed.

End JsonLocal.

Section JsonNumbers.
Context {E : Env}.
Local Open Scope N_scope.

Lemma is_delim_not_number (c : char) :
  is_delim c = true ->
  is_digit c = false /\ (c =? 46) = false /\ (c =? 101) = false /\ (c =? 69) = false.
Proof.
  unfold is_delim, is_json_ws. intros H.
  repeat (apply orb_true_iff in H as [H|H]); apply N.eqb_eq in H; subst c;
    repeat split; reflexivity.
Qed.

Lemma span_digits_more (s d r t : pystr) :
  span_digits s = (d, r) -> r <> [] -> span_digits (s ++ t) = (d, r ++ t).
Proof.
  revert d. induction s as [|x s IH]; intros d; cbn [span_digits app].
  - intros [= <- <-]. congruence.
  - destruct (is_digit x).
    + destruct (span_digits s) as [d' r'] eqn:Hs. intros [= <- <-] Hr.
      now rewrite (IH _ eq_refl Hr).
    + intros [= <- <-] _. reflexivity.
Qed.

Lemma span_digits_length (s d r : pystr) :
  span_digits s = (d, r) -> (List.length r <= List.length s)%nat.
Proof.
  revert d r. induction s as [|x s IH]; intros d r; cbn [span_digits].
  - intros [= <- <-]. simpl. lia.
  - destruct (is_digit x).
    + destruct (span_digits s) as [d' r'] eqn:Hs. intros [= <- <-].
      specialize (IH _ _ eq_refl). simpl. lia.
    + intros [= <- <-]. simpl. lia.
Qed.

Lemma match_int_unfold (s : pystr) :
  match_int s =
  match s with
  | x :: s' => if x =? 45 then match_int_digits [x] s' else match_int_digits [] s
  | [] => None
  end.
Proof. destruct s as [|x s']; [reflexivity|]. unfold match_int. now destruct (x =? 45). Qed.

Lemma match_int_digits_more (sign s1 i r t : pystr) :
  match_int_digits sign s1 = Some (i, r) -> r <> [] ->
  match_int_digits sign (s1 ++ t) = Some (i, r ++ t).
Proof.
  unfold match_int_digits. destruct s1 as [|y s2]; [discriminate|]. cbn [app].
  destruct (y =? 48); [intros [= <- <-]; reflexivity|].
  destruct (is_digit y); [|discriminate].
  destruct (span_digits s2) as [d r0] eqn:Hs. intros [= <- <-] Hr.
  now rewrite (span_digits_more _ _ _ t Hs Hr).
Qed.

Lemma match_int_digits_length (sign s1 i r : pystr) :
  match_int_digits sign s1 = Some (i, r) -> (List.length r < List.length s1)%nat.
Proof.
  unfold match_int_digits. destruct s1 as [|y s2]; [discriminate|].
  destruct (y =? 48); [intros [= <- <-]; simpl; lia|].
  destruct (is_digit y); [|discriminate].
  destruct (span_digits s2) as [d r0] eqn:Hs. intros [= <- <-].
  apply span_digits_length in Hs. simpl. lia.
Qed.

Lemma match_int_more (s i r t : pystr) :
  match_int s = Some (i, r) -> r <> [] -> match_int (s ++ t) = Some (i, r ++ t).
Proof.
  rewrite !match_int_unfold. destruct s as [|x s']; [discriminate|]. cbn [app].
  destruct (x =? 45).
  - apply match_int_digits_more.
  - apply (match_int_digits_more [] (x :: s')).
Qed.

Lemma match_int_head (s i r : pystr) :
  match_int s = Some (i, r) ->
  exists c s', s = c :: s' /\ ((c =? 45) = true \/ is_digit c = true).
Proof.
  rewrite match_int_unfold. destruct s as [|x s']; [discriminate|].
  destruct (x =? 45) eqn:Hx; [intros _; eauto|].
  unfold match_int_digits.
  destruct (N.eqb_spec x 48) as [->|].
  - intros _. exists 48, s'. split; [reflexivity|]. now right.
  - destruct (is_digit x) eqn:Hd; [|discriminate]. intros _. eauto.
Qed.

Lemma match_int_length (s i r : pystr) :
  match_int s = Some (i, r) -> (List.length r < List.length s)%nat.
Proof.
  rewrite match_int_unfold. destruct s as [|x s']; [discriminate|].
  destruct (x =? 45).
  - intros H. apply match_int_digits_length in H. simpl. lia.
  - apply (match_int_digits_length [] (x :: s')).
Qed.

Lemma match_frac_more (s f r t : pystr) :
  match_frac s = Some (f, r) -> r <> [] -> match_frac (s ++ t) = Some (f, r ++ t).
Proof.
  unfold match_frac. destruct s as [|x s1]; [discriminate|]. cbn [app].
  destruct (x =? 46); [|discriminate].
  destruct (span_digits s1) as [d r0] eqn:Hs.
  destruct d as [|d0 d]; [discriminate|]. intros [= <- <-] Hr.
  now rewrite (span_digits_more _ _ _ t Hs Hr).
Qed.

Lemma match_frac_head (s f r : pystr) :
  match_frac s = Some (f, r) -> exists s', s = 46 :: s'.
Proof.
  unfold match_frac. destruct s as [|x s1]; [discriminate|].
  destruct (N.eqb_spec x 46) as [->|]; [eauto|discriminate].
Qed.

Lemma match_frac_length (s f r : pystr) :
  match_frac s = Some (f, r) -> (List.length r <= List.length s)%nat.
Proof.
  unfold match_frac. destruct s as [|x s1]; [discriminate|].
  destruct (x =? 46); [|discriminate].
  destruct (span_digits s1) as [d r0] eqn:Hs.
  destruct d as [|d0 d]; [discriminate|]. intros [= <- <-].
  apply span_digits_length in Hs. simpl. lia.
Qed.

Lemma match_frac_none (c : char) (r t : pystr) :
  (c =? 46) = false -> match_frac ((c :: r) ++ t) = None.
Proof. intros H. cbn [app match_frac]. now rewrite H. Qed.

Lemma match_exp_more (s e r t : pystr) :
  match_exp s = Some (e, r) -> r <> [] -> match_exp (s ++ t) = Some (e, r ++ t).
Proof.
  unfold match_exp. destruct s as [|x s1]; [discriminate|]. cbn [app].
  destruct ((x =? 101) || (x =? 69)); [|discriminate].
  destruct s1 as [|y s2].
  - cbn [span_digits]. discriminate.
  - cbn [app]. destruct ((y =? 45) || (y =? 43)).
    + destruct (span_digits s2) as [d r0] eqn:Hs.
      destruct d as [|d0 d]; [discriminate|]. intros [= <- <-] Hr.
      now rewrite (span_digits_more _ _ _ t Hs Hr).
    + destruct (span_digits (y :: s2)) as [d r0] eqn:Hs.
      destruct d as [|d0 d]; [discriminate|]. intros [= <- <-] Hr.
      change (y :: s2 ++ t) with ((y :: s2) ++ t).
      now rewrite (span_digits_more _ _ _ t Hs Hr).
Qed.

Lemma match_exp_head (s e r : pystr) :
  match_exp s = Some (e, r) ->
  exists c s', s = c :: s' /\ (c =? 46) = false.
Proof.
  unfold match_exp. destruct s as [|x s1]; [discriminate|].
  destruct ((x =? 101) || (x =? 69)) eqn:Hx; [|discriminate].
  intros _. exists x, s1. split; [reflexivity|].
  apply orb_true_iff in Hx as [Hx|Hx]; apply N.eqb_eq in Hx; now subst.
Qed.

Lemma match_exp_length (s e r : pystr) :
  match_exp s = Some (e, r) -> (List.length r <= List.length s)%nat.
Proof.
  unfold match_exp. destruct s as [|x s1]; [discriminate|].
  destruct ((x =? 101) || (x =? 69)); [|discriminate].
  destruct s1 as [|y s2].
  - cbn [span_digits]. discriminate.
  - destruct ((y =? 45) || (y =? 43)).
    + destruct (span_digits s2) as [d r0] eqn:Hs.
      destruct d as [|d0 d]; [discriminate|]. intros [= <- <-].
      apply span_digits_length in Hs. simpl. lia.
    + destruct (span_digits (y :: s2)) as [d r0] eqn:Hs.
      destruct d as [|d0 d]; [discriminate|]. intros [= <- <-].
      apply span_digits_length in Hs. simpl in *. lia.
Qed.

Lemma match_exp_none (c : char) (r t : pystr) :
  (c =? 101) = false -> (c =? 69) = false -> match_exp ((c :: r) ++ t) = None.
Proof. intros H1 H2. cbn [app match_exp]. now rewrite H1, H2. Qed.

Lemma match_number_more (s r t : pystr) (v : pyval) :
  match_number s = Some (v, r) -> delim_ahead r = true ->
  match_number (s ++ t) = Some (v, r ++ t).
Proof.
  intros H Hd.
  assert (Hr : r <> []) by (destruct r; [discriminate|congruence]).
  unfold match_number in *.
  destruct (match_int s) as [[i s1]|] eqn:Hi; [|discriminate].
  destruct (match_frac s1) as [[f s2]|] eqn:Hf.
  - destruct (match_frac_head _ _ _ Hf) as [s1' ->].
    rewrite (match_int_more _ _ _ t Hi) by discriminate.
    destruct (match_exp s2) as [[e s3]|] eqn:Hx.
    + destruct (match_exp_head _ _ _ Hx) as [x [s2' [-> _]]].
      rewrite (match_frac_more _ _ _ t Hf) by discriminate.
      injection H as <- <-.
      now rewrite (match_exp_more _ _ _ t Hx Hr).
    + injection H as <- <-.
      rewrite (match_frac_more _ _ _ t Hf Hr).
      destruct s2 as [|c r]; [congruence|].
      apply is_delim_not_number in Hd as [_ [_ [He HE]]].
      now rewrite match_exp_none.
  - destruct (match_exp s1) as [[e s3]|] eqn:Hx.
    + destruct (match_exp_head _ _ _ Hx) as [x [s1' [-> Hx46]]].
      rewrite (match_int_more _ _ _ t Hi) by discriminate.
      rewrite match_frac_none by assumption.
      injection H as <- <-.
      now rewrite (match_exp_more _ _ _ t Hx Hr).
    + injection H as <- <-.
      rewrite (match_int_more _ _ _ t Hi Hr).
      destruct s1 as [|c r]; [congruence|].
      apply is_delim_not_number in Hd as [_ [Hdot [He HE]]].
      now rewrite match_frac_none, match_exp_none.
Qed.

Lemma match_number_head (s r : pystr) (v : pyval) :
  match_number s = Some (v, r) ->
  exists c s', s = c :: s' /\ ((c =? 45) = true \/ is_digit c = true).
Proof.
  unfold match_number. destruct (match_int s) as [[i s1]|] eqn:Hi; [|discriminate].
  intros _. eapply match_int_head, Hi.
Qed.

Lemma match_number_length (s r : pystr) (v : pyval) :
  match_number s = Some (v, r) -> (List.length r < List.length s)%nat.
Proof.
  unfold match_number. destruct (match_int s) as [[i s1]|] eqn:Hi; [|discriminate].
  apply match_int_length in Hi.
  destruct (match_frac s1) as [[f s2]|] eqn:Hf.
  - apply match_frac_length in Hf.
    destruct (match_exp s2) as [[e s3]|] eqn:Hx.
    + apply match_exp_length in Hx. intros [= <- <-]. lia.
    + intros [= <- <-]. lia.
  - destruct (match_exp s1) as [[e s3]|] eqn:Hx.
    + apply match_exp_length in Hx. intros [= <- <-]. lia.
    + intros [= <- <-]. lia.
Qed.

End JsonNumbers.

Section JsonScan.
Context {E : Env}.
Local Open Scope N_scope.

Lemma scan_once_S (n : nat) (s : pystr) :
  scan_once (S n) s =
  match s with
  | [] => JErr
  | c :: s' =>
      if c =? 34 then
        match scanstring s' with
        | Some (str, r) => JOk (PStr str) r
        | None => JErr
        end
      else if c =? 123 then
        match skip_ws s' with
        | x :: s2 =>
            if x =? 34 then
              match parse_object_loop n [] s2 with
              | JOk d r => JOk (PDict d) r
              | JErr => JErr
              | JFuel => JFuel
              end
            else if x =? 125 then JOk (PDict []) s2
            else JErr
        | [] => JErr
        end
      else if c =? 91 then
        match skip_ws s' with
        | x :: s2 =>
            if x =? 93 then JOk (PList []) s2
            else
              match parse_array_loop n [] (x :: s2) with
              | JOk l r => JOk (PList l) r
              | JErr => JErr
              | JFuel => JFuel
              end
        | [] => JErr
        end
      else scan_atom s
  end.
Proof. reflexivity. Qed.

Lemma parse_object_loop_S (n : nat) (pairs : list (pystr * pyval)) (s : pystr) :
  parse_object_loop (S n) pairs s =
  match scanstring s with
  | None => JErr
  | Some (key, s1) =>
      match skip_ws s1 with
      | c :: s2 =>
          if c =? 58 then
            match scan_once n (skip_ws s2) with
            | JOk value s3 =>
                match skip_ws s3 with
                | x :: s4 =>
                    if x =? 125 then JOk (dict_of_pairs (pairs ++ [(key, value)])) s4
                    else if x =? 44 then
                      match skip_ws s4 with
                      | q :: s5 =>
                          if q =? 34
                          then parse_object_loop n (pairs ++ [(key, value)]) s5
                          else JErr
                      | [] => JErr
                      end
                    else JErr
                | [] => JErr
                end
            | JErr => JErr
            | JFuel => JFuel
            end
          else JErr
      | [] => JErr
      end
  end.
Proof. reflexivity. Qed.

Lemma parse_array_loop_S (n : nat) (values : list pyval) (s : pystr) :
  parse_array_loop (S n) values s =
  match scan_once n s with
  | JOk value s1 =>
      match skip_ws s1 with
      | x :: s2 =>
          if x =? 93 then JOk (values ++ [value]) s2
          else if x =? 44 then parse_array_loop n (values ++ [value]) (skip_ws s2)
          else JErr
      | [] => JErr
      end
  | JErr => JErr
  | JFuel => JFuel
  end.
Proof. reflexivity. Qed.

Lemma scan_atom_open (s r : pystr) (v : pyval) :
  scan_atom s = JOk v r -> closed_value v = false.
Proof.
  unfold scan_atom.
  repeat match goal with
         | |- context [match strip_prefix ?p s with _ => _ end] =>
             destruct (strip_prefix p s); [intros [= <- _]; reflexivity|]
         | |- context [match match_number s with _ => _ end] =>
             destruct (match_number s) as [[v0 r0]|] eqn:Hn
         end; try discriminate.
  intros [= <- _]. unfold match_number in Hn.
  destruct (match_int s) as [[i s1]|]; [|discriminate].
  destruct (match_frac s1) as [[f s2]|];
    destruct (match_exp _) as [[e s3]|]; injection Hn as <- _; reflexivity.
Qed.

Lemma scan_atom_length (s r : pystr) (v : pyval) :
  scan_atom s = JOk v r -> (List.length r < List.length s)%nat.
Proof.
  unfold scan_atom.
  repeat match goal with
         | |- context [match strip_prefix ?p s with _ => _ end] =>
             let H := fresh "Hp" in
             destruct (strip_prefix p s) eqn:H;
             [apply strip_prefix_length in H; intros [= _ <-]; simpl in H; lia|]
         | |- context [match match_number s with _ => _ end] =>
             destruct (match_number s) as [[v0 r0]|] eqn:Hn
         end; try discriminate.
  intros [= _ <-]. eapply match_number_length, Hn.
Qed.

(** The value read does not change when text is appended, as long as a
    number is followed by a delimiter. *)
Lemma scan_atom_more (s r t : pystr) (v : pyval) :
  scan_atom s = JOk v r -> delim_ahead r = true ->
  scan_atom (s ++ t) = JOk v (r ++ t).
Proof.
  unfold scan_atom at 1. intros H Hd.
  destruct (strip_prefix (lit "null") s) as [r0|] eqn:H1.
  { injection H as <- <-. unfold scan_atom. now rewrite (strip_prefix_more _ _ _ t H1). }
  destruct (strip_prefix (lit "true") s) as [r0|] eqn:H2.
  { injection H as <- <-. apply strip_prefix_Some in H2. subst s. reflexivity. }
  destruct (strip_prefix (lit "false") s) as [r0|] eqn:H3.
  { injection H as <- <-. apply strip_prefix_Some in H3. subst s. reflexivity. }
  destruct (match_number s) as [[v0 r0]|] eqn:Hn.
  { injection H as <- <-.
    destruct (match_number_head _ _ _ Hn) as [c [s' [-> Hc]]].
    assert (Hlit : c <> 110 /\ c <> 116 /\ c <> 102).
    { repeat split; intros ->; destruct Hc as [Hc|Hc]; discriminate Hc. }
    destruct Hlit as [Hn1 [Hn2 Hn3]].
    unfold scan_atom. cbn [app].
    change (lit "null") with (110 :: lit "ull").
    change (lit "true") with (116 :: lit "rue").
    change (lit "false") with (102 :: lit "alse").
    rewrite !strip_prefix_head by assumption.
    change (c :: s' ++ t) with ((c :: s') ++ t).
    now rewrite (match_number_more _ _ t _ Hn Hd). }
  destruct (strip_prefix (lit "NaN") s) as [r0|] eqn:H4.
  { injection H as <- <-. apply strip_prefix_Some in H4. subst s. reflexivity. }
  destruct (strip_prefix (lit "Infinity") s) as [r0|] eqn:H5.
  { injection H as <- <-. apply strip_prefix_Some in H5. subst s. reflexivity. }
  destruct (strip_prefix (lit "-Infinity") s) as [r0|] eqn:H6.
  { injection H as <- <-. apply strip_prefix_Some in H6. subst s. reflexivity. }
  discriminate.
Qed.

End JsonScan.

Section JsonValues.
Context {E : Env}.
Local Open Scope N_scope.

Lemma skip_ws_cons_more (s r t : pystr) (x : char) :
  skip_ws s = x :: r -> skip_ws (s ++ t) = x :: (r ++ t).
Proof.
  intros H. rewrite skip_ws_more by (rewrite H; discriminate). now rewrite H.
Qed.

Lemma skip_ws_delim (s r : pystr) (x : char) :
  skip_ws s = x :: r -> is_delim x = true -> delim_ahead s = true.
Proof.
  destruct s as [|c s']; cbn [skip_ws]; [discriminate|].
  destruct (is_json_ws c) eqn:Hc.
  - intros _ _. cbn [delim_ahead]. unfold is_delim. now rewrite Hc.
  - intros [= -> _] Hx. exact Hx.
Qed.

Lemma scan_once_nonempty (n : nat) (s r : pystr) (v : pyval) :
  scan_once n s = JOk v r -> s <> [].
Proof. destruct n; [discriminate|]. rewrite scan_once_S. destruct s; [discriminate|congruence]. Qed.

Lemma parse_array_loop_nonempty (n : nat) (vs l : list pyval) (s r : pystr) :
  parse_array_loop n vs s = JOk l r -> s <> [].
Proof.
  destruct n; [discriminate|]. rewrite parse_array_loop_S.
  destruct (scan_once n s) as [v s1| |] eqn:Hs; try discriminate.
  intros _. eapply scan_once_nonempty, Hs.
Qed.

Lemma skip_ws_id_more (s t : pystr) : skip_ws s <> [] -> skip_ws (s ++ t) = skip_ws s ++ t.
Proof. apply skip_ws_more. Qed.

Lemma scan_more :
  forall n,
    (forall s v r t, scan_once n s = JOk v r -> settled v r ->
                     scan_once n (s ++ t) = JOk v (r ++ t))
    /\ (forall pairs s d r t, parse_object_loop n pairs s = JOk d r ->
                              parse_object_loop n pairs (s ++ t) = JOk d (r ++ t))
    /\ (forall values s l r t, parse_array_loop n values s = JOk l r ->
                               parse_array_loop n values (s ++ t) = JOk l (r ++ t)).
Proof.
  induction n as [|n [IHs [IHo IHa]]].
  { repeat split; intros; discriminate. }
  split; [|split].
  - (* scan_once *)
    intros s v r t. rewrite !scan_once_S. destruct s as [|c s']; [discriminate|].
    cbn [app]. destruct (c =? 34).
    { destruct (scanstring s') as [[str r0]|] eqn:Hs; [|discriminate].
      intros [= <- <-] _. now rewrite (scanstring_app _ _ _ t Hs). }
    destruct (c =? 123).
    { destruct (skip_ws s') as [|x s2] eqn:Hw; [discriminate|].
      rewrite (skip_ws_cons_more _ _ t _ Hw).
      destruct (x =? 34).
      - destruct (parse_object_loop n [] s2) as [d r0| |] eqn:Ho; try discriminate.
        intros [= <- <-] _. now rewrite (IHo _ _ _ _ t Ho).
      - destruct (x =? 125); [|discriminate]. now intros [= <- <-] _. }
    destruct (c =? 91).
    { destruct (skip_ws s') as [|x s2] eqn:Hw; [discriminate|].
      rewrite (skip_ws_cons_more _ _ t _ Hw).
      destruct (x =? 93); [now intros [= <- <-] _|].
      destruct (parse_array_loop n [] (x :: s2)) as [l r0| |] eqn:Ha; try discriminate.
      intros [= <- <-] _.
      change (x :: s2 ++ t) with ((x :: s2) ++ t). now rewrite (IHa _ _ _ _ t Ha). }
    intros Ha [Hc|Hd].
    + apply scan_atom_open in Ha. congruence.
    + change (c :: s' ++ t) with ((c :: s') ++ t). now apply scan_atom_more.
  - (* parse_object_loop *)
    intros pairs s d r t. rewrite !parse_object_loop_S.
    destruct (scanstring s) as [[key s1]|] eqn:Hk; [|discriminate].
    rewrite (scanstring_app _ _ _ t Hk).
    destruct (skip_ws s1) as [|c s2] eqn:Hw1; [discriminate|].
    rewrite (skip_ws_cons_more _ _ t _ Hw1).
    destruct (c =? 58); [|discriminate].
    destruct (scan_once n (skip_ws s2)) as [value s3| |] eqn:Hv; try discriminate.
    rewrite skip_ws_more by (eapply scan_once_nonempty, Hv).
    destruct (skip_ws s3) as [|x s4] eqn:Hw3; [discriminate|].
    assert (Hset : is_delim x = true -> settled value s3).
    { intros Hx. right. eapply skip_ws_delim; eauto. }
    destruct (N.eqb_spec x 125) as [->|].
    { intros [= <- <-]. rewrite (IHs _ _ _ t Hv (Hset eq_refl)).
      rewrite (skip_ws_cons_more _ _ t _ Hw3). reflexivity. }
    destruct (N.eqb_spec x 44) as [->|]; [|discriminate].
    rewrite (IHs _ _ _ t Hv (Hset eq_refl)).
    rewrite (skip_ws_cons_more _ _ t _ Hw3). cbn [N.eqb Pos.eqb].
    destruct (skip_ws s4) as [|q s5] eqn:Hw4; [discriminate|].
    rewrite (skip_ws_cons_more _ _ t _ Hw4).
    destruct (q =? 34); [|discriminate].
    apply IHo.
  - (* parse_array_loop *)
    intros values s l r t. rewrite !parse_array_loop_S.
    destruct (scan_once n s) as [value s1| |] eqn:Hv; try discriminate.
    destruct (skip_ws s1) as [|x s2] eqn:Hw1; [discriminate|].
    assert (Hset : is_delim x = true -> settled value s1).
    { intros Hx. right. eapply skip_ws_delim; eauto. }
    destruct (N.eqb_spec x 93) as [->|].
    { intros [= <- <-]. rewrite (IHs _ _ _ t Hv (Hset eq_refl)).
      rewrite (skip_ws_cons_more _ _ t _ Hw1). reflexivity. }
    destruct (N.eqb_spec x 44) as [->|]; [|discriminate].
    intros Hl. rewrite (IHs _ _ _ t Hv (Hset eq_refl)).
    rewrite (skip_ws_cons_more _ _ t _ Hw1). cbn [N.eqb Pos.eqb].
    rewrite skip_ws_more by (eapply parse_array_loop_nonempty, Hl).
    now apply IHa.
Qed.

(** More fuel changes no result. *)
Lemma scan_fuel_S :
  forall n,
    (forall s v r, scan_once n s = JOk v r -> scan_once (S n) s = JOk v r)
    /\ (forall pairs s d r, parse_object_loop n pairs s = JOk d r ->
                            parse_object_loop (S n) pairs s = JOk d r)
    /\ (forall values s l r, parse_array_loop n values s = JOk l r ->
                             parse_array_loop (S n) values s = JOk l r).
Proof.
  induction n as [|n [IHs [IHo IHa]]].
  { repeat split; intros; discriminate. }
  split; [|split].
  - intros s v r. rewrite (scan_once_S (S n)), (scan_once_S n).
    destruct s as [|c s']; [discriminate|].
    destruct (c =? 34); [auto|].
    destruct (c =? 123).
    { destruct (skip_ws s') as [|x s2]; [discriminate|].
      destruct (x =? 34); [|auto].
      destruct (parse_object_loop n [] s2) as [d r0| |] eqn:Ho; try discriminate.
      now rewrite (IHo _ _ _ _ Ho). }
    destruct (c =? 91); [|auto].
    destruct (skip_ws s') as [|x s2]; [discriminate|].
    destruct (x =? 93); [auto|].
    destruct (parse_array_loop n [] (x :: s2)) as [l r0| |] eqn:Ha; try discriminate.
    now rewrite (IHa _ _ _ _ Ha).
  - intros pairs s d r. rewrite (parse_object_loop_S (S n)), (parse_object_loop_S n).
    destruct (scanstring s) as [[key s1]|]; [|discriminate].
    destruct (skip_ws s1) as [|c s2]; [discriminate|].
    destruct (c =? 58); [|discriminate].
    destruct (scan_once n (skip_ws s2)) as [value s3| |] eqn:Hv; try discriminate.
    rewrite (IHs _ _ _ Hv).
    destruct (skip_ws s3) as [|x s4]; [discriminate|].
    destruct (x =? 125); [auto|].
    destruct (x =? 44); [|discriminate].
    destruct (skip_ws s4) as [|q s5]; [discriminate|].
    destruct (q =? 34); [|discriminate].
    apply IHo.
  - intros values s l r. rewrite (parse_array_loop_S (S n)), (parse_array_loop_S n).
    destruct (scan_once n s) as [value s1| |] eqn:Hv; try discriminate.
    rewrite (IHs _ _ _ Hv).
    destruct (skip_ws s1) as [|x s2]; [discriminate|].
    destruct (x =? 93); [auto|].
    destruct (x =? 44); [|discriminate].
    apply IHa.
Qed.

Lemma scan_once_fuel_le (n m : nat) (s r : pystr) (v : pyval) :
  (n <= m)%nat -> scan_once n s = JOk v r -> scan_once m s = JOk v r.
Proof.
  induction 1 as [|m Hle IH]; [auto|].
  intros H. apply (proj1 (scan_fuel_S m)). auto.
Qed.

(** Every value read consumes text. *)
Lemma scan_length :
  forall n,
    (forall s v r, scan_once n s = JOk v r -> (List.length r < List.length s)%nat)
    /\ (forall pairs s d r, parse_object_loop n pairs s = JOk d r ->
                            (List.length r < List.length s)%nat)
    /\ (forall values s l r, parse_array_loop n values s = JOk l r ->
                             (List.length r < List.length s)%nat).
Proof.
  induction n as [|n [IHs [IHo IHa]]].
  { repeat split; intros; discriminate. }
  split; [|split].
  - intros s v r. rewrite scan_once_S.
    destruct s as [|c s']; [discriminate|].
    destruct (c =? 34).
    { destruct (scanstring s') as [[str r0]|] eqn:Hs; [|discriminate].
      intros [= _ <-]. apply (scanstring_length (List.length s')) in Hs; simpl; lia. }
    destruct (c =? 123).
    { pose proof (skip_ws_length s') as Hl.
      destruct (skip_ws s') as [|x s2]; [discriminate|].
      destruct (x =? 34).
      - destruct (parse_object_loop n [] s2) as [d r0| |] eqn:Ho; try discriminate.
        intros [= _ <-]. apply IHo in Ho. simpl in *. lia.
      - destruct (x =? 125); [|discriminate]. intros [= _ <-]. simpl in *. lia. }
    destruct (c =? 91).
    { pose proof (skip_ws_length s') as Hl.
      destruct (skip_ws s') as [|x s2]; [discriminate|].
      destruct (x =? 93); [intros [= _ <-]; simpl in *; lia|].
      destruct (parse_array_loop n [] (x :: s2)) as [l r0| |] eqn:Ha; try discriminate.
      intros [= _ <-]. apply IHa in Ha. simpl in *. lia. }
    apply scan_atom_length.
  - intros pairs s d r. rewrite parse_object_loop_S.
    destruct (scanstring s) as [[key s1]|] eqn:Hk; [|discriminate].
    apply (scanstring_length (List.length s)) in Hk; [|lia].
    pose proof (skip_ws_length s1) as Hl1.
    destruct (skip_ws s1) as [|c s2]; [discriminate|].
    destruct (c =? 58); [|discriminate].
    pose proof (skip_ws_length s2) as Hl2.
    destruct (scan_once n (skip_ws s2)) as [value s3| |] eqn:Hv; try discriminate.
    apply IHs in Hv.
    pose proof (skip_ws_length s3) as Hl3.
    destruct (skip_ws s3) as [|x s4]; [discriminate|].
    destruct (x =? 125); [intros [= _ <-]; simpl in *; lia|].
    destruct (x =? 44); [|discriminate].
    pose proof (skip_ws_length s4) as Hl4.
    destruct (skip_ws s4) as [|q s5]; [discriminate|].
    destruct (q =? 34); [|discriminate].
    intros Ho. apply IHo in Ho. simpl in *. lia.
  - intros values s l r. rewrite parse_array_loop_S.
    destruct (scan_once n s) as [value s1| |] eqn:Hv; try discriminate.
    apply IHs in Hv.
    pose proof (skip_ws_length s1) as Hl1.
    destruct (skip_ws s1) as [|x s2]; [discriminate|].
    destruct (x =? 93); [intros [= _ <-]; simpl in *; lia|].
    destruct (x =? 44); [|discriminate].
    pose proof (skip_ws_length s2) as Hl2.
    intros Ha. apply IHa in Ha. simpl in *. lia.
Qed.

(** With more than two units of fuel for each character the scan never
    runs out of fuel. *)
Lemma scan_fuel :
  forall n,
    (forall s, (2 * List.length s < n)%nat -> scan_once n s <> JFuel)
    /\ (forall pairs s, (2 * List.length s + 1 < n)%nat ->
                        parse_object_loop n pairs s <> JFuel)
    /\ (forall values s, (2 * List.length s + 1 < n)%nat ->
                         parse_array_loop n values s <> JFuel).
Proof.
  induction n as [|n [IHs [IHo IHa]]].
  { repeat split; intros; lia. }
  split; [|split].
  - intros s Hn. rewrite scan_once_S.
    destruct s as [|c s']; [discriminate|].
    destruct (c =? 34).
    { destruct (scanstring s') as [[str r0]|]; discriminate. }
    destruct (c =? 123).
    { pose proof (skip_ws_length s') as Hl.
      destruct (skip_ws s') as [|x s2]; [discriminate|].
      destruct (x =? 34).
      - specialize (IHo [] s2).
        destruct (parse_object_loop n [] s2); try discriminate.
        intros _. apply IHo; [simpl in *; lia|reflexivity].
      - destruct (x =? 125); discriminate. }
    destruct (c =? 91).
    { pose proof (skip_ws_length s') as Hl.
      destruct (skip_ws s') as [|x s2]; [discriminate|].
      destruct (x =? 93); [discriminate|].
      specialize (IHa [] (x :: s2)).
      destruct (parse_array_loop n [] (x :: s2)); try discriminate.
      intros _. apply IHa; [simpl in *; lia|reflexivity]. }
    unfold scan_atom.
    repeat match goal with
           | |- context [match ?x with _ => _ end] => destruct x
           end; discriminate.
  - intros pairs s Hn. rewrite parse_object_loop_S.
    destruct (scanstring s) as [[key s1]|] eqn:Hk; [|discriminate].
    apply (scanstring_length (List.length s)) in Hk; [|lia].
    pose proof (skip_ws_length s1) as Hl1.
    destruct (skip_ws s1) as [|c s2]; [discriminate|].
    destruct (c =? 58); [|discriminate].
    pose proof (skip_ws_length s2) as Hl2.
    pose proof (IHs (skip_ws s2)) as Hf.
    destruct (scan_once n (skip_ws s2)) as [value s3| |] eqn:Hv; try discriminate.
    2:{ intros _. apply Hf; [simpl in *; lia|reflexivity]. }
    apply (proj1 (scan_length n)) in Hv.
    pose proof (skip_ws_length s3) as Hl3.
    destruct (skip_ws s3) as [|x s4]; [discriminate|].
    destruct (x =? 125); [discriminate|].
    destruct (x =? 44); [|discriminate].
    pose proof (skip_ws_length s4) as Hl4.
    destruct (skip_ws s4) as [|q s5]; [discriminate|].
    destruct (q =? 34); [|discriminate].
    apply IHo. simpl in *. lia.
  - intros values s Hn. rewrite parse_array_loop_S.
    pose proof (IHs s) as Hf.
    destruct (scan_once n s) as [value s1| |] eqn:Hv; try discriminate.
    2:{ intros _. apply Hf; [lia|reflexivity]. }
    apply (proj1 (scan_length n)) in Hv.
    pose proof (skip_ws_length s1) as Hl1.
    destruct (skip_ws s1) as [|x s2]; [discriminate|].
    destruct (x =? 93); [discriminate|].
    destruct (x =? 44); [|discriminate].
    pose proof (skip_ws_length s2) as Hl2.
    apply IHa. simpl in *. lia.
Qed.

(** [json_loads] gives its scan enough fuel. *)
Lemma scan_once_fuel (s : pystr) :
  scan_once (S (2 * List.length s)) (skip_ws s) <> JFuel.
Proof.
  apply (proj1 (scan_fuel _)). pose proof (skip_ws_length s). lia.
Qed.

End JsonValues.

(** ** A JSON object inside other text *)

Section Wrapped.
Local Open Scope N_scope.

Lemma lstrip_keep (b y : pystr) (x : char) :
  isspace x = false ->
  exists b', lstrip (b ++ x :: y) = b' ++ x :: y /\ incl b' b.
Proof.
  intros Hx. induction b as [|c b IH]; cbn [app lstrip].
  - rewrite Hx. exists []. split; [reflexivity|apply incl_nil_l].
  - destruct (isspace c).
    + destruct IH as [b' [H Hi]]. exists b'. split; [assumption|].
      now apply incl_tl.
    + exists (c :: b). split; [reflexivity|apply incl_refl].
Qed.

Lemma lstrip_fixed (x : char) (y : pystr) : isspace x = false -> lstrip (x :: y) = x :: y.
Proof. intros H. cbn [lstrip]. now rewrite H. Qed.

Lemma lstrip_head (s r : pystr) (c : char) : lstrip s = c :: r -> isspace c = false.
Proof.
  induction s as [|x s IH]; cbn [lstrip]; [discriminate|].
  destruct (isspace x) eqn:Hx; [assumption|]. now intros [= <- _].
Qed.

Lemma rstrip_keep (s a : pystr) (x : char) :
  isspace x = false ->
  exists a', rstrip (s ++ x :: a) = s ++ x :: a'.
Proof.
  intros Hx. unfold rstrip.
  rewrite rev_app_distr. cbn [rev]. rewrite <- app_assoc. cbn [app].
  destruct (lstrip_keep (rev a) (rev s) x Hx) as [a' [H _]].
  rewrite H, rev_app_distr. cbn [rev]. rewrite rev_involutive, <- app_assoc.
  now exists (rev a').
Qed.

Lemma rstrip_fixed (s : pystr) (x : char) :
  isspace x = false -> rstrip (s ++ [x]) = s ++ [x].
Proof.
  intros Hx. unfold rstrip. rewrite rev_app_distr. cbn [rev app].
  rewrite lstrip_fixed by assumption. cbn [rev]. now rewrite rev_involutive.
Qed.

Lemma json_ws_isspace (c : char) : is_json_ws c = true -> isspace c = true.
Proof.
  unfold is_json_ws. intros H.
  repeat (apply orb_true_iff in H as [H|H]); apply N.eqb_eq in H; subst c; reflexivity.
Qed.

(** A pattern without [x] that matches in front of [x] matches before it. *)
Lemma strip_prefix_within (p b y rest : pystr) (x : char) :
  ~ In x p -> strip_prefix p (b ++ x :: y) = Some rest ->
  exists b1, b = p ++ b1 /\ rest = b1 ++ x :: y.
Proof.
  revert b. induction p as [|a p IH]; intros b Hx; cbn [strip_prefix].
  - intros [= <-]. now exists b.
  - destruct b as [|c b]; cbn [app].
    + destruct (N.eqb_spec a x) as [->|]; [|discriminate].
      exfalso. apply Hx. now left.
    + destruct (N.eqb_spec a c) as [->|]; [|discriminate].
      intros H. destruct (IH b (fun Hin => Hx (or_intror Hin)) H) as [b1 [-> ->]].
      now exists b1.
Qed.

(** Deleting fences in front of an object leaves the object, and no
    brace in front of it. *)
Lemma fence_sub_keeps_object (m : matcher) (p : pystr) (obj' after : pystr) :
  consuming m -> starts_with_char m Ch.backtick ->
  (forall s, m s = match strip_prefix p s with
                   | Some rest => Some (lstrip rest)
                   | None => None
                   end) ->
  ~ In Ch.lbrace p ->
  ~ In Ch.backtick (Ch.lbrace :: obj') ->
  forall n before,
    (List.length before <= n)%nat -> ~ In Ch.lbrace before ->
    exists before',
      re_sub_delete m (before ++ Ch.lbrace :: obj' ++ after)
      = before' ++ Ch.lbrace :: obj' ++ re_sub_delete m after
      /\ ~ In Ch.lbrace before'.
Proof.
  intros Hc Hh Hm Hp Hobj. induction n as [|n IH]; intros before Hn Hb.
  - destruct before; [|simpl in Hn; lia]. exists []. split; [|auto].
    cbn [app]. change (Ch.lbrace :: obj' ++ after) with ((Ch.lbrace :: obj') ++ after).
    now rewrite (re_sub_delete_skip m Ch.backtick Hc Hh).
  - destruct before as [|c before].
    { exists []. split; [|auto].
      cbn [app]. change (Ch.lbrace :: obj' ++ after) with ((Ch.lbrace :: obj') ++ after).
      now rewrite (re_sub_delete_skip m Ch.backtick Hc Hh). }
    cbn [app]. rewrite re_sub_delete_cons by assumption.
    rewrite Hm.
    change (c :: before ++ Ch.lbrace :: obj' ++ after)
      with ((c :: before) ++ Ch.lbrace :: obj' ++ after).
    destruct (strip_prefix p ((c :: before) ++ Ch.lbrace :: obj' ++ after))
      as [rest|] eqn:Hs.
    + destruct (strip_prefix_within p (c :: before) _ rest Ch.lbrace Hp Hs)
        as [b1 [Hb1 ->]].
      destruct (lstrip_keep b1 (obj' ++ after) Ch.lbrace eq_refl) as [b1' [Hl Hi]].
      rewrite Hl.
      assert (Hlen : (List.length b1' <= n)%nat).
      { pose proof (lstrip_length (b1 ++ Ch.lbrace :: obj' ++ after)) as H1.
        rewrite Hl in H1. rewrite !length_app in H1.
        assert (H2 : List.length (c :: before) = (List.length p + List.length b1)%nat)
          by (rewrite Hb1; apply length_app).
        assert (Hp0 : (0 < List.length p)%nat).
        { destruct p; [|simpl; lia].
          specialize (Hc [Ch.lbrace] [Ch.lbrace]). rewrite Hm in Hc.
          specialize (Hc eq_refl). simpl in Hc. lia. }
        simpl in H2, Hn. lia. }
      apply IH; [assumption|].
      intros Hin. apply Hi in Hin. apply Hb. rewrite Hb1. apply in_or_app. now right.
    + destruct (IH before) as [b' [Hr Hb']].
      * simpl in Hn. lia.
      * intros Hin. apply Hb. now right.
      * exists (c :: b'). cbn [app]. rewrite Hr. split; [reflexivity|].
        intros [Heq|Hin]; [apply Hb; now left|contradiction].
Qed.

End Wrapped.

Section Occurs.
Local Open Scope N_scope.

Lemma occurs_here (p s : pystr) : occurs p s = false -> strip_prefix p s = None.
Proof.
  destruct s; cbn [occurs]; unfold startswith;
    destruct (strip_prefix p _); (discriminate || reflexivity).
Qed.

Lemma occurs_tail (p s : pystr) (c : char) : occurs p (c :: s) = false -> occurs p s = false.
Proof. cbn [occurs]. intros H. now apply orb_false_iff in H as [_ H]. Qed.

Lemma occurs_suffix (p a b : pystr) : occurs p (a ++ b) = false -> occurs p b = false.
Proof.
  induction a as [|c a IH]; [auto|]. cbn [app]. intros H. eapply IH, occurs_tail, H.
Qed.

Lemma strip_prefix_None_more (p s t : pystr) :
  strip_prefix p (s ++ t) = None -> strip_prefix p s = None.
Proof.
  destruct (strip_prefix p s) as [r|] eqn:H; [|reflexivity].
  intros H2. erewrite strip_prefix_more in H2 by eassumption. discriminate H2.
Qed.

Lemma occurs_prefix (p a b : pystr) :
  p <> [] -> occurs p (a ++ b) = false -> occurs p a = false.
Proof.
  intros Hp. induction a as [|c a IH].
  - intros _. destruct p; [congruence|reflexivity].
  - intros H. pose proof (occurs_here _ _ H) as H1.
    apply occurs_tail in H. cbn [occurs]. unfold startswith.
    change ((c :: a) ++ b) with ((c :: a) ++ b) in H1.
    rewrite (strip_prefix_None_more _ _ _ H1). now apply IH.
Qed.

Lemma strip_think_absent (s : pystr) : occurs think_open s = false -> strip_think s = s.
Proof.
  induction s as [|c s IH]; intros H; [reflexivity|].
  rewrite strip_think_cons. unfold match_think.
  rewrite (occurs_here _ _ H). f_equal. eapply IH, occurs_tail, H.
Qed.

End Occurs.

Section Braces.
Local Open Scope Z_scope.

Lemma balance_more (s t : pystr) :
  forall d r, balance d s = Some r -> balance d (s ++ t) = Some r.
Proof.
  induction s as [|c s IH]; intros d r; cbn [balance app]; [discriminate|].
  assert (Hrec : forall d', option_map (cons c) (balance d' s) = Some r ->
                            option_map (cons c) (balance d' (s ++ t)) = Some r).
  { intros d'. destruct (balance d' s) eqn:H; [|discriminate].
    now rewrite (IH _ _ H). }
  destruct (N.eqb c Ch.lbrace); [apply Hrec|].
  destruct (N.eqb c Ch.rbrace); [|apply Hrec].
  destruct (d - 1 =? 0); [auto|apply Hrec].
Qed.

Lemma balance_prefix (s r : pystr) :
  forall d, balance d s = Some r ->
            exists r0 t, r = r0 ++ [Ch.rbrace] /\ s = r ++ t.
Proof.
  revert r. induction s as [|c s IH]; intros r d; cbn [balance]; [discriminate|].
  assert (Hrec : forall d', option_map (cons c) (balance d' s) = Some r ->
                            exists r0 t, r = r0 ++ [Ch.rbrace] /\ c :: s = r ++ t).
  { intros d'. destruct (balance d' s) as [r'|] eqn:H; [|discriminate].
    intros [= <-]. destruct (IH _ _ H) as [r0 [t [-> ->]]].
    exists (c :: r0), t. split; reflexivity. }
  destruct (N.eqb c Ch.lbrace); [apply Hrec|].
  destruct (N.eqb_spec c Ch.rbrace) as [->|]; [|apply Hrec].
  destruct (d - 1 =? 0); [|apply Hrec].
  intros [= <-]. now exists [], s.
Qed.

Lemma suffix_from_split (c : char) (s r : pystr) :
  suffix_from c s = Some r -> exists pre r', s = pre ++ r /\ r = c :: r'.
Proof.
  induction s as [|x s IH]; cbn [suffix_from]; [discriminate|].
  destruct (N.eqb_spec x c) as [->|].
  - intros [= <-]. now exists [], s.
  - intros H. destruct (IH H) as [pre [r' [-> ->]]]. now exists (x :: pre), r'.
Qed.

Lemma suffix_from_skip (c : char) (pre s : pystr) :
  ~ In c pre -> suffix_from c (pre ++ c :: s) = Some (c :: s).
Proof.
  induction pre as [|x pre IH]; intros H; cbn [app suffix_from].
  - now rewrite N.eqb_refl.
  - destruct (N.eqb_spec x c) as [->|]; [exfalso; apply H; now left|].
    apply IH. intros Hin. apply H. now right.
Qed.

(** An object that [extract_json_object] returns whole starts with a
    brace, ends with one, and the scan closes at its end. *)
Lemma extract_whole (obj : pystr) :
  extract_json_object obj = Some obj ->
  exists body, obj = Ch.lbrace :: body
               /\ (exists r0, obj = r0 ++ [Ch.rbrace])
               /\ balance 0 obj = Some obj.
Proof.
  unfold extract_json_object.
  destruct (suffix_from Ch.lbrace obj) as [rest|] eqn:Hs; [|discriminate].
  intros Hb.
  destruct (suffix_from_split _ _ _ Hs) as [pre [r' [Hobj Hrest]]].
  destruct (balance_prefix _ _ _ Hb) as [r0 [t [Hr Ht]]].
  assert (pre = []).
  { apply (f_equal (@List.length _)) in Hobj, Ht.
    rewrite length_app in Hobj, Ht. destruct pre; [reflexivity|]. simpl in Hobj. lia. }
  subst pre. cbn [app] in Hobj. subst rest.
  exists r'. split; [assumption|]. split; [now exists r0|assumption].
Qed.

Lemma extract_inside (before obj after : pystr) :
  extract_json_object obj = Some obj -> ~ In Ch.lbrace before ->
  extract_json_object (before ++ obj ++ after) = Some obj.
Proof.
  intros Ho Hb. destruct (extract_whole _ Ho) as [body [Hobj [_ Hbal]]].
  unfold extract_json_object.
  rewrite Hobj at 1. cbn [app]. rewrite suffix_from_skip by assumption.
  change (Ch.lbrace :: body ++ after) with ((Ch.lbrace :: body) ++ after).
  rewrite <- Hobj. now apply balance_more.
Qed.

End Braces.

Section WrappedObject.
Context {E : Env}.
Local Open Scope N_scope.

Lemma skip_ws_fixed_head (c : char) (s : pystr) :
  isspace c = false -> skip_ws (c :: s) = c :: s.
Proof.
  intros H. cbn [skip_ws]. destruct (is_json_ws c) eqn:Hc; [|reflexivity].
  apply json_ws_isspace in Hc. congruence.
Qed.

(** Only a text that starts with a brace parses to a dict. *)
Lemma scan_once_dict_head (n : nat) (c : char) (s r : pystr) (d : pydict) :
  scan_once n (c :: s) = JOk (PDict d) r -> c = Ch.lbrace.
Proof.
  destruct n; [discriminate|]. rewrite scan_once_S.
  destruct (c =? 34).
  { destruct (scanstring s) as [[str r']|]; discriminate. }
  destruct (N.eqb_spec c 123) as [->|_]; [reflexivity|].
  destruct (c =? 91).
  { destruct (skip_ws s) as [|x s2]; [discriminate|].
    destruct (x =? 93); [discriminate|].
    destruct (parse_array_loop n [] (x :: s2)); discriminate. }
  intros H. apply scan_atom_open in H. discriminate H.
Qed.

Lemma try_parse_prose (c : char) (s : pystr) :
  c <> Ch.lbrace -> isspace c = false -> try_parse (c :: s) = None.
Proof.
  intros Hc Hs. unfold try_parse, json_loads.
  rewrite skip_ws_fixed_head by assumption.
  destruct (scan_once _ (c :: s)) as [v r| |] eqn:H; try reflexivity.
  destruct (skip_ws r); [|reflexivity].
  destruct v; try reflexivity.
  apply scan_once_dict_head in H. contradiction.
Qed.

Lemma try_parse_object_more (body after : pystr) (d : pydict) :
  json_loads (Ch.lbrace :: body) = Some (PDict d) ->
  try_parse ((Ch.lbrace :: body) ++ after) = None
  \/ try_parse ((Ch.lbrace :: body) ++ after) = try_parse (Ch.lbrace :: body).
Proof.
  intros Hj. unfold try_parse. rewrite Hj.
  revert Hj. unfold json_loads.
  cbn [app]. rewrite !skip_ws_fixed_head by reflexivity.
  destruct (scan_once _ (Ch.lbrace :: body)) as [v r| |] eqn:H; try discriminate.
  destruct (skip_ws r) eqn:Hr; [|discriminate]. intros [= ->].
  apply (scan_once_fuel_le _ (S (2 * List.length (Ch.lbrace :: body ++ after)))) in H.
  2:{ simpl. rewrite length_app. lia. }
  apply (proj1 (scan_more _)) with (t := after) in H; [|now left].
  cbn [app] in H. rewrite H.
  destruct (skip_ws (r ++ after)); [now right|now left].
Qed.

Lemma interpret_tool (d : pydict) :
  dict_has d (lit "tool") = true -> exists r, interpret (PDict d) = Some r.
Proof.
  intros H. cbn [interpret]. rewrite H.
  destruct (dict_get d (lit "tool")) as [[| | | |s| | |]|]; eauto.
  destruct (pystr_eqb s (lit "null")); eauto.
Qed.

(** Cleaning leaves a bare object as it is. *)
Lemma clean_response_object (obj : pystr) :
  extract_json_object obj = Some obj -> ~ In Ch.backtick obj ->
  occurs think_open obj = false ->
  clean_response obj = obj.
Proof.
  intros Ho Hb Ht. destruct (extract_whole _ Ho) as [body [Hobj [[r0 Hr] _]]].
  unfold clean_response. rewrite strip_think_absent by assumption.
  rewrite (re_sub_delete_id match_json_fence Ch.backtick
             match_json_fence_consuming match_json_fence_head) by assumption.
  rewrite (re_sub_delete_id match_fence Ch.backtick
             match_fence_consuming match_fence_head) by assumption.
  unfold strip. rewrite Hobj at 1. rewrite lstrip_fixed by reflexivity.
  rewrite <- Hobj. rewrite Hr. now apply rstrip_fixed.
Qed.

(** Cleaning leaves an object inside other text in place, with no brace
    and no leading white space before it. *)
Lemma clean_response_wrapped (before obj after : pystr) :
  extract_json_object obj = Some obj -> ~ In Ch.backtick obj ->
  ~ In Ch.lbrace before ->
  occurs think_open (before ++ obj ++ after) = false ->
  exists b a,
    clean_response (before ++ obj ++ after) = b ++ obj ++ a
    /\ ~ In Ch.lbrace b
    /\ (forall c b', b = c :: b' -> isspace c = false).
Proof.
  intros Ho Hbt Hb Ht. destruct (extract_whole _ Ho) as [body [Hobj [[r0 Hr] _]]].
  unfold clean_response. rewrite strip_think_absent by assumption.
  clear Ho Ht. subst obj. cbn [app].
  destruct (fence_sub_keeps_object match_json_fence (lit "```json") body after
              match_json_fence_consuming match_json_fence_head
              (fun s => eq_refl)) with (n := List.length before) (before := before)
    as [b1 [H1 Hb1]]; try assumption; try lia.
  { cbv. intuition discriminate. }
  rewrite H1.
  destruct (fence_sub_keeps_object match_fence (lit "```") body
              (re_sub_delete match_json_fence after)
              match_fence_consuming match_fence_head
              (fun s => eq_refl)) with (n := List.length b1) (before := b1)
    as [b2 [H2 Hb2]]; try assumption; try lia.
  { cbv. intuition discriminate. }
  rewrite H2. unfold strip.
  set (a2 := re_sub_delete match_fence (re_sub_delete match_json_fence after)).
  destruct (lstrip_keep b2 (body ++ a2) Ch.lbrace eq_refl) as [b3 [H3 Hi]].
  rewrite H3.
  assert (Hsplit : forall a, b3 ++ Ch.lbrace :: body ++ a = (b3 ++ r0) ++ Ch.rbrace :: a).
  { intros a. change (Ch.lbrace :: body ++ a) with ((Ch.lbrace :: body) ++ a).
    rewrite Hr, <- !app_assoc. reflexivity. }
  rewrite Hsplit.
  destruct (rstrip_keep (b3 ++ r0) a2 Ch.rbrace eq_refl) as [a3 H4].
  rewrite H4. exists b3, a3. split; [|split].
  - symmetry. apply Hsplit.
  - intros Hin. apply Hb2. now apply Hi.
  - intros c b' ->. cbn [app] in H3. eapply lstrip_head, H3.
Qed.

End WrappedObject.

Section WrappedRequest.
Context {E : Env}.
Local Open Scope N_scope.


End WrappedRequest.

Lemma absent_char (c : char) (s : pystr) : existsb (N.eqb c) s = false -> ~ In c s.
Proof.
  intros H Hin. assert (existsb (N.eqb c) s = true); [|congruence].
  apply existsb_exists. exists c. split; [assumption|apply N.eqb_refl].
Qed.



(** * Further properties *)

(** ** [extract_json_object] finds the first balanced object *)

Section ExtractSpec.
Local Open Scope Z_scope.

Lemma depth_cons (c : char) (s : pystr) :
  depth (c :: s)
  = (if N.eqb c Ch.lbrace then 1 else if N.eqb c Ch.rbrace then -1 else 0) + depth s.
Proof. reflexivity. Qed.

Lemma balance_sound (s : pystr) :
  forall d r, 1 <= d -> balance d s = Some r ->
    exists t, s = r ++ t
              /\ d + depth r = 0
              /\ forall p q, r = p ++ q -> q <> [] -> 1 <= d + depth p.
Proof.
  induction s as [|c s IH]; intros d r Hd; cbn [balance]; [discriminate|].
  assert (Hrec : forall d', 1 <= d' ->
            d' = d + (if N.eqb c Ch.lbrace then 1 else if N.eqb c Ch.rbrace then -1 else 0) ->
            option_map (cons c) (balance d' s) = Some r ->
            exists t, c :: s = r ++ t
                      /\ d + depth r = 0
                      /\ forall p q, r = p ++ q -> q <> [] -> 1 <= d + depth p).
  { intros d' Hd' Hstep. destruct (balance d' s) as [r'|] eqn:Hb; [|discriminate].
    intros [= <-]. destruct (IH _ _ Hd' Hb) as [t [Hs [Hz Hp]]].
    exists t. split; [now rewrite Hs|]. split; [rewrite depth_cons; lia|].
    intros p q Hpq Hq. destruct p as [|x p'].
    - cbn [depth]. lia.
    - cbn [app] in Hpq. injection Hpq as <- Hpq.
      specialize (Hp _ _ Hpq Hq). rewrite depth_cons. lia. }
  destruct (N.eqb c Ch.lbrace) eqn:Hl.
  - apply Hrec; lia.
  - destruct (N.eqb c Ch.rbrace) eqn:Hr.
    + destruct (Z.eqb_spec (d - 1) 0) as [Hz|Hz].
      * intros [= <-]. exists s. split; [reflexivity|].
        split; [rewrite depth_cons, Hl, Hr; cbn [depth]; lia|].
        intros p q Hpq Hq. destruct p as [|x p']; [cbn [depth]; lia|].
        cbn [app] in Hpq. injection Hpq as _ Hpq.
        destruct p'; [|discriminate Hpq]. cbn [app] in Hpq. congruence.
      * apply Hrec; lia.
    + replace (d) with (d + 0) at 1 by lia. apply Hrec; lia.
Qed.

Lemma balance_complete (r t : pystr) :
  forall d, 1 <= d -> d + depth r = 0 ->
    (forall p q, r = p ++ q -> q <> [] -> 1 <= d + depth p) ->
    balance d (r ++ t) = Some r.
Proof.
  induction r as [|c r IH]; intros d Hd Hz Hp; [cbn [depth] in Hz; lia|].
  cbn [app balance]. rewrite depth_cons in Hz.
  assert (Hrec : forall d', 1 <= d' ->
            d' = d + (if N.eqb c Ch.lbrace then 1 else if N.eqb c Ch.rbrace then -1 else 0) ->
            option_map (cons c) (balance d' (r ++ t)) = Some (c :: r)).
  { intros d' Hd' Hstep. rewrite (IH d'); [reflexivity|assumption|lia|].
    intros p q Hpq Hq. specialize (Hp (c :: p) q). cbn [app] in Hp.
    rewrite Hpq in Hp. specialize (Hp eq_refl Hq). rewrite depth_cons in Hp. lia. }
  destruct (N.eqb c Ch.lbrace) eqn:Hl.
  - apply Hrec; lia.
  - destruct (N.eqb c Ch.rbrace) eqn:Hr.
    + destruct (Z.eqb_spec (d - 1) 0) as [Hd0|Hd0].
      * destruct r as [|x r']; [reflexivity|].
        specialize (Hp [c] (x :: r') eq_refl ltac:(discriminate)).
        rewrite depth_cons, Hl, Hr in Hp. cbn [depth] in Hp. lia.
      * apply Hrec; lia.
    + replace d with (d + 0) at 1 by lia. apply Hrec; lia.
Qed.

Lemma suffix_from_first (c : char) (text rest : pystr) :
  suffix_from c text = Some rest <->
  exists pre s, text = pre ++ rest /\ ~ In c pre /\ rest = c :: s.
Proof.
  split.
  - revert rest. induction text as [|x text IH]; intros rest; cbn [suffix_from]; [discriminate|].
    destruct (N.eqb_spec x c) as [->|Hx].
    + intros [= <-]. exists [], text. auto.
    + intros H. destruct (IH _ H) as [pre [s [-> [Hin ->]]]].
      exists (x :: pre), s. split; [reflexivity|]. split; [|reflexivity].
      intros [Heq|Hin']; [congruence|contradiction].
  - intros [pre [s [-> [Hin ->]]]]. now apply suffix_from_skip.
Qed.

(** X1: [extract_json_object] returns [obj] exactly when [obj] sits in
    the text after a part without an opening brace, opens with a brace,
    and ends where that brace is closed for the first time, counting
    every brace character; it returns [None] for every other text. *)
Theorem extract_json_object_first_balanced (text obj : pystr) :
  extract_json_object text = Some obj <->
  exists pre post,
    text = pre ++ obj ++ post /\ ~ In Ch.lbrace pre /\ first_balanced obj.
Proof.
  unfold extract_json_object, first_balanced. split.
  - destruct (suffix_from Ch.lbrace text) as [rest|] eqn:Hs; [|discriminate].
    apply suffix_from_first in Hs as [pre [s [-> [Hpre ->]]]].
    cbn [balance]. rewrite N.eqb_refl.
    destruct (balance (0 + 1) s) as [r|] eqn:Hb; [|discriminate].
    intros [= <-]. destruct (balance_sound s (0 + 1) r ltac:(lia) Hb) as [t [-> [Hz Hp]]].
    exists pre, t. split; [reflexivity|]. split; [assumption|].
    split; [now exists r|]. split; [rewrite depth_cons, N.eqb_refl; lia|].
    intros p q Hpq Hpn Hq. destruct p as [|x p']; [congruence|].
    cbn [app] in Hpq. injection Hpq as <- Hpq.
    specialize (Hp _ _ Hpq Hq). rewrite depth_cons, N.eqb_refl. lia.
  - intros [pre [post [-> [Hpre [[body ->] [Hz Hp]]]]]].
    cbn [app]. rewrite suffix_from_skip by assumption.
    cbn [balance]. rewrite N.eqb_refl.
    rewrite depth_cons, N.eqb_refl in Hz.
    rewrite (balance_complete body post); [reflexivity|lia|lia|].
    intros p q Hpq Hq. specialize (Hp (Ch.lbrace :: p) q). cbn [app] in Hp.
    rewrite Hpq in Hp. specialize (Hp eq_refl ltac:(discriminate) Hq).
    rewrite depth_cons, N.eqb_refl in Hp. lia.
Qed.

End ExtractSpec.

(** ** Cleaning only deletes *)

Lemma subsequence_refl (s : pystr) : subsequence s s.
Proof. induction s; [apply subsequence_nil|now apply subsequence_keep]. Qed.

Lemma subsequence_trans (a b c : pystr) :
  subsequence a b -> subsequence b c -> subsequence a c.
Proof.
  intros Hab Hbc. revert a Hab.
  induction Hbc as [|x b c Hbc IH|x b c Hbc IH]; intros a Hab.
  - assumption.
  - apply subsequence_drop. now apply IH.
  - inversion Hab; subst.
    + apply subsequence_drop. now apply IH.
    + apply subsequence_keep. now apply IH.
Qed.

Lemma subsequence_suffix (p s : pystr) : subsequence s (p ++ s).
Proof. induction p; cbn [app]; [apply subsequence_refl|now apply subsequence_drop]. Qed.

Lemma subsequence_prefix (s q : pystr) : subsequence s (s ++ q).
Proof.
  induction s as [|c s IH]; cbn [app].
  - induction q; [apply subsequence_nil|now apply subsequence_drop].
  - now apply subsequence_keep.
Qed.

Lemma subsequence_In (a b : pystr) (c : char) : subsequence a b -> In c a -> In c b.
Proof.
  induction 1 as [|x a b H IH|x a b H IH]; intros Hin.
  - assumption.
  - right. auto.
  - destruct Hin as [->|Hin]; [now left|right; auto].
Qed.

Lemma subsequence_length (a b : pystr) :
  subsequence a b -> List.length a <= List.length b.
Proof. induction 1; simpl; lia. Qed.

Lemma lstrip_suffix (s : pystr) : exists p, s = p ++ lstrip s.
Proof.
  induction s as [|c s [p IH]]; [now exists []|].
  cbn [lstrip]. destruct (isspace c).
  - exists (c :: p). cbn [app]. now rewrite <- IH.
  - now exists [].
Qed.

Lemma rstrip_prefix (s : pystr) : exists q, s = rstrip s ++ q.
Proof.
  unfold rstrip. destruct (lstrip_suffix (rev s)) as [p Hp].
  exists (rev p). rewrite <- rev_app_distr, <- Hp. now rewrite rev_involutive.
Qed.

Lemma strip_subsequence (s : pystr) : subsequence (strip s) s.
Proof.
  unfold strip. destruct (lstrip_suffix s) as [p Hp].
  destruct (rstrip_prefix (lstrip s)) as [q Hq].
  apply subsequence_trans with (b := lstrip s).
  - rewrite Hq at 2. apply subsequence_prefix.
  - rewrite Hp at 2. apply subsequence_suffix.
Qed.

(** A matcher leaves a suffix of the text unread. *)
Lemma sub_fuel_subsequence (m : matcher) :
  (forall s r, m s = Some r -> exists p, s = p ++ r) ->
  forall n s, subsequence (sub_fuel m n s) s.
Proof.
  intros Hm. induction n as [|n IH]; intros s; cbn [sub_fuel].
  - apply subsequence_refl.
  - destruct s as [|c s']; [apply subsequence_nil|].
    destruct (m (c :: s')) as [rest|] eqn:H.
    + destruct (Hm _ _ H) as [p Hp]. rewrite Hp.
      eapply subsequence_trans; [apply IH|apply subsequence_suffix].
    + apply subsequence_keep. apply IH.
Qed.

Lemma match_think_suffix (s r : pystr) : match_think s = Some r -> exists p, s = p ++ r.
Proof.
  unfold match_think. destruct (strip_prefix think_open s) as [body|] eqn:Hp; [|discriminate].
  intros H. apply strip_prefix_Some in Hp. apply after_first_Some in H as [pre H].
  exists (think_open ++ pre ++ think_close). rewrite Hp, H. now rewrite <- !app_assoc.
Qed.

Lemma fence_matcher_suffix (p s r : pystr) :
  match strip_prefix p s with
  | Some rest => Some (lstrip rest)
  | None => None
  end = Some r -> exists q, s = q ++ r.
Proof.
  destruct (strip_prefix p s) as [rest|] eqn:Hp; [|discriminate].
  intros [= <-]. apply strip_prefix_Some in Hp.
  destruct (lstrip_suffix rest) as [w Hw].
  exists (p ++ w). rewrite Hp. rewrite Hw at 1. now rewrite <- app_assoc.
Qed.

Lemma strip_think_subsequence (s : pystr) : subsequence (strip_think s) s.
Proof. apply sub_fuel_subsequence, match_think_suffix. Qed.

Lemma clean_response_subsequence (s : pystr) : subsequence (clean_response s) s.
Proof.
  unfold clean_response.
  eapply subsequence_trans; [apply strip_subsequence|].
  eapply subsequence_trans; [apply sub_fuel_subsequence, (fence_matcher_suffix (lit "```"))|].
  eapply subsequence_trans; [apply sub_fuel_subsequence, (fence_matcher_suffix (lit "```json"))|].
  apply strip_think_subsequence.
Qed.

(** X2: the three substitutions and the final [strip] of the parser
    only delete: the cleaned response is the raw response with some
    characters left out, in the same order, and so is a text after
    trace stripping. *)
Theorem cleaning_only_deletes (response : pystr) :
  subsequence (strip_think response) response
  /\ subsequence (clean_response response) response
  /\ (len (clean_response response) <= len response)%Z.
Proof.
  split; [apply strip_think_subsequence|].
  split; [apply clean_response_subsequence|].
  unfold len. apply inj_le, subsequence_length, clean_response_subsequence.
Qed.

(** ** No fence is left *)

Section NoFence.
Local Open Scope N_scope.

Lemma startswith_fence (s : pystr) :
  startswith s fence = true <->
  exists r, s = Ch.backtick :: Ch.backtick :: Ch.backtick :: r.
Proof.
  unfold startswith. split.
  - destruct (strip_prefix fence s) as [r|] eqn:H; [|discriminate].
    intros _. apply strip_prefix_Some in H. now exists r.
  - intros [r ->]. reflexivity.
Qed.

Lemma match_fence_None (s : pystr) : match_fence s = None -> startswith s fence = false.
Proof.
  unfold match_fence, startswith, fence.
  now destruct (strip_prefix (lit "```") s).
Qed.

Lemma match_fence_Some (s r : pystr) :
  match_fence s = Some r -> exists t, s = Ch.backtick :: t.
Proof.
  unfold match_fence. destruct (strip_prefix (lit "```") s) as [rest|] eqn:H; [|discriminate].
  intros _. apply strip_prefix_Some in H. rewrite H. now eexists.
Qed.

(** The substitution puts a backtick first only where the text has one. *)
Lemma fence_sub_head :
  forall n s r, (List.length s <= n)%nat ->
    re_sub_delete match_fence s = Ch.backtick :: r ->
    exists t, s = Ch.backtick :: t.
Proof.
  intros n s r _. destruct s as [|c s]; [discriminate|].
  rewrite re_sub_delete_cons by apply match_fence_consuming.
  destruct (match_fence (c :: s)) as [rest|] eqn:H.
  - intros _. now apply match_fence_Some in H.
  - intros [= -> _]. now eexists.
Qed.

Lemma fence_sub_no_fence :
  forall n s, (List.length s <= n)%nat ->
    occurs fence (re_sub_delete match_fence s) = false.
Proof.
  induction n as [|n IH]; intros s Hn.
  - destruct s; [reflexivity|simpl in Hn; lia].
  - destruct s as [|c s]; [reflexivity|].
    rewrite re_sub_delete_cons by apply match_fence_consuming.
    destruct (match_fence (c :: s)) as [rest|] eqn:H.
    + apply IH. apply match_fence_consuming in H. simpl in H, Hn. lia.
    + cbn [occurs]. rewrite IH by (simpl in Hn; lia). rewrite orb_false_r.
      apply match_fence_None in H.
      destruct (startswith (c :: re_sub_delete match_fence s) fence) eqn:Hs; [|reflexivity].
      apply startswith_fence in Hs as [r Hs].
      assert (Hc : c = Ch.backtick) by congruence. subst c.
      assert (Hs1 : re_sub_delete match_fence s = Ch.backtick :: Ch.backtick :: r)
        by congruence.
      clear Hs. destruct (fence_sub_head _ s _ (le_n _) Hs1) as [t ->].
      rewrite re_sub_delete_cons in Hs1 by apply match_fence_consuming.
      destruct (match_fence (Ch.backtick :: t)) as [rest|] eqn:H2.
      * unfold match_fence in H2.
        destruct (strip_prefix (lit "```") (Ch.backtick :: t)) as [x|] eqn:H3;
          [|discriminate H2].
        apply strip_prefix_Some in H3. rewrite H3 in H. discriminate H.
      * assert (Hs2 : re_sub_delete match_fence t = Ch.backtick :: r) by congruence.
        destruct (fence_sub_head _ t _ (le_n _) Hs2) as [t' ->].
        discriminate H.
Qed.

End NoFence.

Lemma occurs_lstrip (p s : pystr) : occurs p s = false -> occurs p (lstrip s) = false.
Proof.
  destruct (lstrip_suffix s) as [q Hq]. intros H. rewrite Hq in H.
  eapply occurs_suffix, H.
Qed.

Lemma occurs_rstrip (p s : pystr) :
  p <> [] -> occurs p s = false -> occurs p (rstrip s) = false.
Proof.
  destruct (rstrip_prefix s) as [q Hq]. intros Hp H. rewrite Hq in H.
  eapply occurs_prefix; eassumption.
Qed.

Lemma lstrip_rstrip (s : pystr) : lstrip s = s -> lstrip (rstrip s) = rstrip s.
Proof.
  destruct s as [|c s]; [reflexivity|].
  intros H. assert (Hc : isspace c = false) by (eapply lstrip_head, H).
  destruct (rstrip_keep [] s c Hc) as [a Ha]. cbn [app] in Ha.
  rewrite Ha. now apply lstrip_fixed.
Qed.

Lemma lstrip_idem (s : pystr) : lstrip (lstrip s) = lstrip s.
Proof.
  induction s as [|c s IH]; [reflexivity|].
  cbn [lstrip]. destruct (isspace c) eqn:Hc; [assumption|].
  cbn [lstrip]. now rewrite Hc.
Qed.

Lemma strip_idem (s : pystr) : strip (strip s) = strip s.
Proof.
  unfold strip. rewrite (lstrip_rstrip (lstrip s)) by apply lstrip_idem.
  unfold rstrip. rewrite rev_involutive. now rewrite lstrip_idem.
Qed.

(** X3: no code-fence marker survives the cleaning of a response, and
    its result has no white space at either end. *)
Theorem clean_response_has_no_fence (response : pystr) :
  occurs fence (clean_response response) = false
  /\ strip (clean_response response) = clean_response response.
Proof.
  unfold clean_response. split; [|apply strip_idem].
  unfold strip. apply occurs_rstrip; [discriminate|]. apply occurs_lstrip.
  eapply fence_sub_no_fence, le_n.
Qed.

(** ** What the parser never takes for a request *)

Section ParserEdges.
Context {E : Env}.
Local Open Scope N_scope.

Lemma skip_ws_suffix (s : pystr) : exists p, s = p ++ skip_ws s.
Proof.
  induction s as [|c s [p IH]]; [now exists []|].
  cbn [skip_ws]. destruct (is_json_ws c).
  - exists (c :: p). cbn [app]. now rewrite <- IH.
  - now exists [].
Qed.

Lemma suffix_from_absent (c : char) (s : pystr) : ~ In c s -> suffix_from c s = None.
Proof.
  induction s as [|x s IH]; intros H; [reflexivity|].
  cbn [suffix_from]. destruct (N.eqb_spec x c) as [->|_].
  - exfalso. apply H. now left.
  - apply IH. intros Hin. apply H. now right.
Qed.

(** A text without an opening brace does not decode to a mapping. *)
Lemma try_parse_needs_brace (text : pystr) : ~ In Ch.lbrace text -> try_parse text = None.
Proof.
  intros Hb. unfold try_parse, json_loads.
  destruct (scan_once _ (skip_ws text)) as [v r| |] eqn:H; try reflexivity.
  destruct (skip_ws r); [|reflexivity].
  destruct v; try reflexivity.
  destruct (skip_ws_suffix text) as [p Hp].
  destruct (skip_ws text) as [|c s] eqn:Hs.
  - now apply scan_once_nonempty in H.
  - apply scan_once_dict_head in H. subst c.
    exfalso. apply Hb. rewrite Hp. apply in_or_app. right. now left.
Qed.


(** X5: a mapping the parser returns is what [json.loads] makes of the
    cleaned response, or of the object extracted from it, and its
    [tool] is present and is neither [None] nor the string [null]. *)
Theorem parse_returns_a_loaded_request (response : pystr) (d : pydict) :
  _parse_tool_request response = Some d ->
  (json_loads (clean_response response) = Some (PDict d)
   \/ exists json_str,
        extract_json_object (clean_response response) = Some json_str
        /\ json_loads json_str = Some (PDict d))
  /\ exists v, dict_get d (lit "tool") = Some v
               /\ v <> PNone /\ v <> PStr (lit "null").
Proof.
  intros H. split; [|eapply parse_request_has_tool, H].
  assert (Hi : forall p, interpret p = Some (Some d) -> p = PDict d).
  { intros p. destruct p; try discriminate. cbn [interpret].
    destruct (dict_has entries (lit "tool")); [|discriminate].
    destruct (dict_get entries (lit "tool")) as [[| | | |s| | |]|];
      try (intros [= ->]; reflexivity); try discriminate.
    destruct (pystr_eqb s (lit "null")); [discriminate|]. now intros [= ->]. }
  revert H. unfold _parse_tool_request, try_parse.
  destruct (json_loads (clean_response response)) as [p|] eqn:Hp.
  - destruct (interpret p) as [[r|]|] eqn:Hr.
    + intros [= ->]. left. now rewrite (Hi _ Hr).
    + discriminate.
    + destruct (extract_json_object _) as [j|]; [|discriminate].
      destruct (json_loads j) as [p'|] eqn:Hp'; [|discriminate].
      destruct (interpret p') as [[r|]|] eqn:Hr'; try discriminate.
      intros [= ->]. right. exists j. split; [reflexivity|]. rewrite Hp'. f_equal. now apply Hi.
  - destruct (extract_json_object _) as [j|]; [|discriminate].
    destruct (json_loads j) as [p'|] eqn:Hp'; [|discriminate].
    destruct (interpret p') as [[r|]|] eqn:Hr'; try discriminate.
    intros [= ->]. right. exists j. split; [reflexivity|]. rewrite Hp'. f_equal. now apply Hi.
Qed.

End ParserEdges.


Lemma parse_returns_a_loaded_request_witness :
  (@json_loads scripted (clean_response (jq "ok: {'tool': 'read_file'} "))
   = Some (PDict [(lit "tool", PStr (lit "read_file"))])
   \/ exists json_str,
        extract_json_object (clean_response (jq "ok: {'tool': 'read_file'} "))
        = Some json_str
        /\ @json_loads scripted json_str
           = Some (PDict [(lit "tool", PStr (lit "read_file"))]))
  /\ exists v, dict_get [(lit "tool", PStr (lit "read_file"))] (lit "tool") = Some v
               /\ v <> PNone /\ v <> PStr (lit "null").
Proof.
  apply (@parse_returns_a_loaded_request scripted (jq "ok: {'tool': 'read_file'} ")
           [(lit "tool", PStr (lit "read_file"))]).
  vm_compute. reflexivity.
Defined.

(** ** Unterminated traces *)

Section Unterminated.
Local Open Scope N_scope.

Lemma occurs_absent_after_first (p s : pystr) :
  occurs p s = false -> after_first p s = None.
Proof.
  induction s as [|c s IH]; intros H.
  - cbn [after_first]. now rewrite (occurs_here _ _ H).
  - cbn [after_first]. rewrite (occurs_here _ _ H). eapply IH, occurs_tail, H.
Qed.

(** A pattern that starts before [x] and holds [x] at its head only
    ends before [x]. *)
Lemma strip_prefix_before (a x : char) (p s y rest : pystr) :
  ~ In x p -> s <> [] ->
  strip_prefix (a :: p) (s ++ x :: y) = Some rest ->
  exists s1, s = (a :: p) ++ s1 /\ rest = s1 ++ x :: y.
Proof.
  intros Hx Hs. destruct s as [|c s0]; [congruence|].
  cbn [app strip_prefix]. destruct (N.eqb_spec a c) as [->|]; [|discriminate].
  intros H. destruct (strip_prefix_within p s0 y rest x Hx H) as [s1 [-> ->]].
  now exists s1.
Qed.

Variable b : pystr.
Hypothesis no_close : occurs think_close b = false.

Lemma no_close_after_marker : after_first think_close (think_open ++ b) = None.
Proof.
  apply occurs_absent_after_first.
  (* no end marker starts inside the start marker *)
  exact no_close.
Qed.

Lemma after_first_close_inside (s r : pystr) :
  after_first think_close (s ++ think_open ++ b) = Some r ->
  exists r', after_first think_close s = Some r' /\ r = r' ++ think_open ++ b.
Proof.
  induction s as [|c s IH].
  - cbn [app]. now rewrite no_close_after_marker.
  - change ((c :: s) ++ think_open ++ b) with (c :: (s ++ think_open ++ b)).
    cbn [after_first].
    change (c :: (s ++ think_open ++ b)) with ((c :: s) ++ think_open ++ b).
    destruct (strip_prefix think_close ((c :: s) ++ think_open ++ b)) as [rest|] eqn:H.
    + intros [= <-].
      change (think_open ++ b) with (60 :: (lit "think>" ++ b)) in H.
      change think_close with (60 :: lit "/think>") in H.
      apply strip_prefix_before in H as [s1 [Hs ->]];
        [|cbv; intuition discriminate|discriminate].
      exists s1. split; [|reflexivity].
      rewrite Hs. change (60 :: lit "/think>") with think_close.
      now rewrite strip_prefix_app.
    + rewrite (strip_prefix_None_more _ _ _ H). apply IH.
Qed.

Lemma match_think_inside (s r : pystr) :
  s <> [] ->
  match_think (s ++ think_open ++ b) = Some r ->
  exists r', match_think s = Some r' /\ r = r' ++ think_open ++ b.
Proof.
  intros Hs. unfold match_think.
  destruct (strip_prefix think_open (s ++ think_open ++ b)) as [body|] eqn:H; [|discriminate].
  change (think_open ++ b) with (60 :: (lit "think>" ++ b)) in H.
  change think_open with (60 :: lit "think>") in H at 1.
  apply strip_prefix_before in H as [s1 [-> ->]];
    [|cbv; intuition discriminate|assumption].
  change (60 :: lit "think>") with think_open.
  rewrite strip_prefix_app.
  change (60 :: (lit "think>" ++ b)) with (think_open ++ b).
  apply after_first_close_inside.
Qed.

Lemma after_first_None_more (p s t : pystr) :
  after_first p (s ++ t) = None -> after_first p s = None.
Proof.
  induction s as [|c s IH].
  - cbn [app after_first]. destruct p as [|a p]; [|reflexivity].
    destruct t; discriminate.
  - change ((c :: s) ++ t) with (c :: (s ++ t)). cbn [after_first].
    change (c :: (s ++ t)) with ((c :: s) ++ t).
    destruct (strip_prefix p ((c :: s) ++ t)) as [x|] eqn:H; [discriminate|].
    rewrite (strip_prefix_None_more _ _ _ H). apply IH.
Qed.

Lemma match_think_None_more (s t : pystr) :
  match_think (s ++ t) = None -> match_think s = None.
Proof.
  unfold match_think.
  destruct (strip_prefix think_open s) as [body|] eqn:H; [|reflexivity].
  rewrite (strip_prefix_more _ _ _ t H). apply after_first_None_more.
Qed.

Lemma strip_think_before_marker :
  forall n a, (List.length a <= n)%nat ->
    strip_think (a ++ think_open ++ b) = strip_think a ++ think_open ++ b.
Proof.
  induction n as [|n IH]; intros a Hn.
  - destruct a; [|simpl in Hn; lia]. cbn [app].
    apply strip_think_no_close, no_close_after_marker.
  - destruct a as [|c a].
    { cbn [app]. apply strip_think_no_close, no_close_after_marker. }
    change ((c :: a) ++ think_open ++ b) with (c :: (a ++ think_open ++ b)).
    rewrite !strip_think_cons.
    change (c :: (a ++ think_open ++ b)) with ((c :: a) ++ think_open ++ b).
    destruct (match_think ((c :: a) ++ think_open ++ b)) as [r|] eqn:H.
    + apply match_think_inside in H as [r' [H ->]]; [|discriminate].
      rewrite H. apply IH. apply match_think_consuming in H. simpl in H, Hn. lia.
    + rewrite (match_think_None_more _ _ H). cbn [app]. f_equal.
      apply IH. simpl in Hn. lia.
Qed.

End Unterminated.

(** X6: an unterminated trace is left intact.  When no end marker
    follows a start marker, the marker and all the text after it stay
    as they are, and stripping acts on the text before the marker
    alone; a text without an end marker is not changed at all. *)
Theorem strip_think_keeps_unterminated (a b : pystr) :
  occurs think_close b = false ->
  strip_think b = b
  /\ strip_think (a ++ think_open ++ b) = strip_think a ++ think_open ++ b.
Proof.
  intros H. split.
  - apply strip_think_no_close, occurs_absent_after_first, H.
  - eapply strip_think_before_marker; [exact H|apply le_n].
Qed.

Lemma strip_think_keeps_unterminated_witness :
  strip_think (lit "still thinking") = lit "still thinking"
  /\ strip_think (lit "<think>plan</think>Answer<think>" ++ think_open ++ lit "still thinking")
     = strip_think (lit "<think>plan</think>Answer<think>") ++ think_open ++ lit "still thinking".
Proof.
  apply (strip_think_keeps_unterminated (lit "<think>plan</think>Answer<think>")
           (lit "still thinking")).
  reflexivity.
Defined.

(** ** How many calls a run makes *)

Lemma generations_app a b : generations (a ++ b) = generations a + generations b.
Proof. unfold generations. now rewrite filter_app, length_app. Qed.

Lemma tool_calls_app a b : tool_calls (a ++ b) = tool_calls a + tool_calls b.
Proof. unfold tool_calls. now rewrite filter_app, length_app. Qed.

Section Spending.
Context {E : Env}.

Lemma spends_weaken {A : Type} (g t g' t' : nat) (m : M A) :
  spends g t m -> g <= g' -> t <= t' -> spends g' t' m.
Proof.
  intros H Hg Ht st. destruct (H st) as [evs [H1 [H2 H3]]].
  exists evs. repeat split; [assumption|lia|lia].
Qed.

Lemma spends_same (g t : nat) {A : Type} (m : M A) :
  (forall st, trace (snd (m st)) = trace st) -> spends g t m.
Proof.
  intros H st. exists []. rewrite app_nil_r. split; [apply H|]. unfold generations, tool_calls. simpl. lia.
Qed.

Lemma spends_ret {A : Type} (g t : nat) (a : A) : spends g t (ret a).
Proof. now apply spends_same. Qed.

Lemma spends_raise {A : Type} (g t : nat) (e : exn) : spends g t (@raise E A e).
Proof. now apply spends_same. Qed.

(** The budget of [bind m k] pays for [m]; [k] has what is left. *)
Lemma spends_bind {A B : Type} (g1 t1 g t : nat) (m : M A) (k : A -> M B) :
  spends g1 t1 m -> g1 <= g -> t1 <= t ->
  (forall a, spends (g - g1) (t - t1) (k a)) ->
  spends g t (bind m k).
Proof.
  intros Hm Hg Ht Hk st. rewrite bind_run.
  destruct (Hm st) as [e1 [H1 [G1 T1]]].
  destruct (m st) as [[a|e] st']; cbn [snd] in *.
  - destruct (Hk a st') as [e2 [H2 [G2 T2]]].
    exists (e1 ++ e2). rewrite H2, H1, app_assoc, generations_app, tool_calls_app.
    repeat split; lia.
  - exists e1. repeat split; [assumption|lia|lia].
Qed.

Lemma spends_log (g t : nat) (e : event) :
  match e with EvGenerate _ _ | EvTool _ => False | _ => True end ->
  spends g t (log e).
Proof.
  intros He st. exists [e]. split; [reflexivity|].
  unfold generations, tool_calls. destruct e; try contradiction; simpl; lia.
Qed.

Lemma spends_now (g t : nat) : spends g t now.
Proof.
  apply spends_same. intros st. unfold now. now destruct (time_time (world st)).
Qed.

Lemma spends_generate model prompt temperature n :
  spends 1 0 (inference_generate model prompt temperature n).
Proof.
  intros st. exists [EvGenerate model prompt]. split; [|unfold generations, tool_calls; simpl; lia].
  unfold inference_generate. rewrite bind_run. cbn.
  now destruct (generate _ _ _ _ _) as [[text|msg] w].
Qed.

Lemma spends_invoke_tool f params : spends 0 1 (invoke_tool f params).
Proof.
  intros st. exists [EvTool f]. split; [|unfold generations, tool_calls; simpl; lia].
  unfold invoke_tool. rewrite bind_run. cbn.
  now destruct (call_tool _ _ _).
Qed.

End Spending.

#[export] Hint Resolve spends_generate spends_invoke_tool : leap.

(** Pays each step of a method out of the budget of the goal. *)
Ltac spend :=
  repeat first
    [ apply spends_ret
    | apply spends_raise
    | apply spends_now
    | apply spends_log; exact I
    | apply spends_same; intros ?; reflexivity
    | match goal with
      | |- spends _ _ (bind _ _) =>
          eapply spends_bind;
          [ first [ solve [eauto with leap]
                  | apply (spends_now 0 0)
                  | apply (spends_log 0 0); exact I
                  | apply (spends_same 0 0); intros ?; reflexivity ]
          | lia | lia | intros ]
      | |- spends _ _ (match ?x with _ => _ end) => destruct x
      | |- spends _ _ (if ?b then _ else _) => destruct b
      | |- spends _ _ (let _ := _ in _) => cbv zeta
      end
    | eapply spends_weaken; [solve [eauto with leap]|lia|lia] ].

Section Budgets.
Context {E : Env}.

Lemma spends_fallback_filter d fields : spends 0 0 (fallback_filter d fields).
Proof. unfold fallback_filter. spend. Qed.

Lemma spends_filter_response raw fields : spends 1 0 (_filter_response raw fields).
Proof.
  unfold _filter_response. spend.
  all: eapply spends_weaken; [apply spends_fallback_filter|lia|lia].
Qed.

Lemma spends_dumps_or_str x : spends 0 0 (dumps_or_str x).
Proof. unfold dumps_or_str. spend. Qed.

Lemma spends_optional_filter (c : bool) raw fields :
  spends 1 0 (if c then _filter_response raw fields else ret raw).
Proof. destruct c; [apply spends_filter_response|apply spends_ret]. Qed.

Lemma spends_optional_reduction (c : bool) r :
  spends 0 0 (if c then set_token_reduction r else ret tt).
Proof. destruct c; spend. Qed.

End Budgets.

#[export] Hint Resolve spends_fallback_filter spends_filter_response spends_dumps_or_str
  spends_optional_filter spends_optional_reduction : leap.

Section BudgetsOfPhases.
Context {E : Env}.

Lemma spends_phase2 req : spends 1 1 (_phase2_execution req).
Proof. unfold _phase2_execution. spend. Qed.

Lemma spends_phase1 q : spends 1 0 (_phase1_planning q).
Proof. unfold _phase1_planning. spend. Qed.

Lemma spends_phase3 q req r : spends 1 0 (_phase3_update_state q req r).
Proof. unfold _phase3_update_state. spend. Qed.

Lemma spends_final_answer q : spends 1 0 (_generate_final_answer q).
Proof. unfold _generate_final_answer. spend. Qed.

Lemma spends_direct_response q : spends 2 0 (_direct_response q).
Proof. unfold _direct_response. spend. Qed.

End BudgetsOfPhases.

#[export] Hint Resolve spends_phase1 spends_phase2 spends_phase3 spends_final_answer
  spends_direct_response : leap.

Section BudgetOfRun.
Context {E : Env}.
Local Open Scope Z_scope.

Lemma spends_tool_turn q req : spends 2 1 (tool_turn q req).
Proof. unfold tool_turn. spend. Qed.

Lemma spends_turn_body q t : spends 3 1 (turn_body q t).
Proof.
  unfold turn_body. pose proof (spends_tool_turn q) as Ht. spend.
Qed.

Lemma spends_turn_loop q n :
  forall fuel t,
    spends (3 * Z.to_nat (n - t + 1)) (Z.to_nat (n - t + 1)) (turn_loop fuel q n t).
Proof.
  induction fuel as [|fuel IH]; intros t; cbn [turn_loop]; [apply spends_ret|].
  destruct (Z.leb_spec t n) as [Hle|Hgt].
  - eapply spends_bind; [apply spends_turn_body|lia|lia|].
    intros [a| |]; [apply spends_ret|apply spends_ret|].
    eapply spends_weaken; [apply IH|lia|lia].
  - spend.
Qed.

(** X7: whatever the models and the tools answer, a run with the turn
    limit [max_turns] makes at most [3 * max_turns + 1] calls of the
    model backend and at most [max_turns] calls of tools (one backend
    call and no tool call when [max_turns < 1]). *)
Theorem run_call_budget (query : pystr) (max_turns : Z) (st : Orch) :
  exists evs,
    trace (snd (run query max_turns st)) = trace st ++ evs
    /\ Z.of_nat (generations evs) <= 3 * Z.max 0 max_turns + 1
    /\ Z.of_nat (tool_calls evs) <= Z.max 0 max_turns.
Proof.
  assert (H : spends (3 * Z.to_nat max_turns + 1) (Z.to_nat max_turns)
                (run query max_turns)).
  { unfold run, run_fuel.
    eapply spends_bind; [apply (spends_same 0 0); intros ?; reflexivity|lia|lia|intros _].
    eapply spends_bind; [apply (spends_now 0 0)|lia|lia|intros _].
    eapply spends_bind; [apply spends_turn_loop|lia|lia|].
    replace (max_turns - 1 + 1) with max_turns by lia.
    intros [[a|]|[]]; spend. }
  destruct (H st) as [evs [H1 [H2 H3]]]. exists evs.
  split; [assumption|]. lia.
Qed.

End BudgetOfRun.

(** ** Metrics are write-only *)

Section Alike.
Context {E : Env}.

Lemma alike_quiet {A : Type} (x : A) (m : M A) :
  (forall st, fst (m st) = Ok x
              /\ config (snd (m st)) = config st
              /\ state_summary (snd (m st)) = state_summary st
              /\ world (snd (m st)) = world st
              /\ trace (snd (m st)) = trace st) ->
  alike m.
Proof.
  intros H a b [Hc [Hs Hw]].
  destruct (H a) as [Ra [Ca [Sa [Wa Ta]]]]. destruct (H b) as [Rb [Cb [Sb [Wb Tb]]]].
  split; [congruence|]. split; [unfold agree; repeat split; congruence|].
  exists []. now rewrite !app_nil_r.
Qed.

Lemma alike_ret {A : Type} (x : A) : alike (ret x).
Proof. now apply (alike_quiet x). Qed.

Lemma alike_raise {A : Type} (e : exn) : alike (@raise E A e).
Proof.
  intros a b H. split; [reflexivity|]. split; [assumption|].
  exists []. now rewrite !app_nil_r.
Qed.

Lemma alike_bind {A B : Type} (m : M A) (k : A -> M B) :
  alike m -> (forall x, alike (k x)) -> alike (bind m k).
Proof.
  intros Hm Hk a b Hab. rewrite !bind_run.
  destruct (Hm a b Hab) as [Hr [Hag [e1 [Ha Hb]]]].
  destruct (m a) as [ra a'], (m b) as [rb b']. cbn [fst snd] in *. subst rb.
  destruct ra as [x|e].
  - destruct (Hk x a' b' Hag) as [Hr2 [Hag2 [e2 [Ha2 Hb2]]]].
    split; [assumption|]. split; [assumption|].
    exists (e1 ++ e2). now rewrite Ha2, Hb2, Ha, Hb, !app_assoc.
  - split; [reflexivity|]. split; [assumption|]. now exists e1.
Qed.

Lemma alike_metrics {A : Type} (x : A) (k : OrchestrationMetrics -> M A) :
  metrics_only x k -> alike (bind get_metrics_record k).
Proof.
  intros H a b [Hc [Hs Hw]]. rewrite !bind_run. unfold get_metrics_record.
  destruct (H (metrics a) a) as [Ra [Ca [Sa [Wa Ta]]]].
  destruct (H (metrics b) b) as [Rb [Cb [Sb [Wb Tb]]]].
  split; [congruence|]. split; [unfold agree; repeat split; congruence|].
  exists []. now rewrite !app_nil_r.
Qed.

Lemma alike_log (e : event) : alike (log e).
Proof.
  intros a b [Hc [Hs Hw]]. split; [reflexivity|].
  split; [now repeat split|]. now exists [e].
Qed.

Lemma alike_get_config : alike get_config.
Proof.
  intros a b [Hc [Hs Hw]]. unfold get_config. cbn [fst snd].
  split; [now rewrite Hc|]. split; [now repeat split|].
  exists []. now rewrite !app_nil_r.
Qed.

Lemma alike_get_summary : alike get_summary.
Proof.
  intros a b [Hc [Hs Hw]]. unfold get_summary. cbn [fst snd].
  split; [now rewrite Hs|]. split; [now repeat split|].
  exists []. now rewrite !app_nil_r.
Qed.

Lemma alike_set_summary (s : pystr) : alike (set_summary s).
Proof.
  intros a b [Hc [Hs Hw]]. split; [reflexivity|].
  split; [now repeat split|]. exists []. cbn. now rewrite !app_nil_r.
Qed.

Lemma alike_now : alike now.
Proof.
  intros a b [Hc [Hs Hw]]. unfold now. rewrite Hw.
  destruct (time_time (world b)) as [t w]. cbn.
  split; [reflexivity|]. split; [now repeat split|].
  exists []. now rewrite !app_nil_r.
Qed.

Lemma alike_generate model prompt t n : alike (inference_generate model prompt t n).
Proof.
  intros a b [Hc [Hs Hw]]. unfold inference_generate. rewrite !bind_run. cbn. rewrite Hw.
  destruct (generate _ _ _ _ (world b)) as [[text|msg] w]; cbn;
    (split; [reflexivity|]; split; [now repeat split|]; now exists [EvGenerate model prompt]).
Qed.

Lemma alike_invoke_tool f params : alike (invoke_tool f params).
Proof.
  intros a b [Hc [Hs Hw]]. unfold invoke_tool. rewrite !bind_run. cbn. rewrite Hw.
  destruct (call_tool _ _ (world b)) as [r w]; cbn.
  split; [reflexivity|]. split; [now repeat split|]. now exists [EvTool f].
Qed.

Lemma alike_set_metrics_field (f : OrchestrationMetrics -> OrchestrationMetrics) :
  alike (bind get_metrics_record (fun m => set_metrics (f m))).
Proof. apply (alike_metrics tt). intros m st. now repeat split. Qed.

End Alike.

#[export] Hint Resolve alike_ret alike_raise alike_log alike_get_config alike_get_summary
  alike_set_summary alike_now alike_generate alike_invoke_tool : leap.

(** Splits a method into steps that act alike. *)
Ltac alike_split :=
  repeat first
    [ solve [auto with leap]
    | match goal with
      | |- alike (bind get_metrics_record (fun m => set_metrics _)) =>
          apply (alike_set_metrics_field _)
      | |- alike (bind get_metrics_record _) => fail 1
      | |- alike (bind _ _) => apply alike_bind; [ | intros ]
      | |- alike (match ?x with _ => _ end) => destruct x
      | |- alike (if ?b then _ else _) => destruct b
      | |- alike (let _ := _ in _) => cbv zeta
      end ].

Section AlikeMethods.
Context {E : Env}.
Local Open Scope Z_scope.

Lemma alike_add_phase1_time d : alike (add_phase1_time d).
Proof. apply (alike_set_metrics_field _). Qed.

Lemma alike_add_phase2_time d : alike (add_phase2_time d).
Proof. apply (alike_set_metrics_field _). Qed.

Lemma alike_add_phase3_time d : alike (add_phase3_time d).
Proof. apply (alike_set_metrics_field _). Qed.

Lemma alike_set_tool_name v : alike (set_tool_name v).
Proof. apply (alike_set_metrics_field _). Qed.

Lemma alike_set_raw_response_tokens n : alike (set_raw_response_tokens n).
Proof. apply (alike_set_metrics_field _). Qed.

Lemma alike_set_filtered_response_tokens n : alike (set_filtered_response_tokens n).
Proof. apply (alike_set_metrics_field _). Qed.

Lemma alike_fallback_filter d fields : alike (fallback_filter d fields).
Proof. unfold fallback_filter. alike_split. Qed.

Lemma alike_filter_response raw fields : alike (_filter_response raw fields).
Proof.
  pose proof alike_fallback_filter. unfold _filter_response. alike_split.
Qed.

Lemma alike_dumps_or_str x : alike (dumps_or_str x).
Proof. unfold dumps_or_str. alike_split. Qed.

End AlikeMethods.

#[export] Hint Resolve alike_add_phase1_time alike_add_phase2_time alike_add_phase3_time
  alike_set_tool_name alike_set_raw_response_tokens alike_set_filtered_response_tokens
  alike_fallback_filter alike_filter_response alike_dumps_or_str : leap.

Section AlikeRun.
Context {E : Env}.
Local Open Scope Z_scope.

(** The last statements of the execution phase read the metrics to
    compute the token reduction, and nothing else. *)
Lemma token_reduction_metrics_only (text : pystr) :
  metrics_only text
    (fun m =>
       bind (if 0 <? raw_response_tokens m
             then set_token_reduction
                    ((1 - float_of_int (filtered_response_tokens m)
                          / float_of_int (raw_response_tokens m)) * 100)%float
             else ret tt)
            (fun _ => ret text)).
Proof. intros m st. destruct (0 <? raw_response_tokens m); now repeat split. Qed.

Lemma alike_phase2 req : alike (_phase2_execution req).
Proof.
  unfold _phase2_execution. alike_split.
  all: apply (alike_metrics _ _ (token_reduction_metrics_only _)).
Qed.

Lemma alike_phase1 q : alike (_phase1_planning q).
Proof. unfold _phase1_planning. alike_split. Qed.

Lemma alike_phase3 q req r : alike (_phase3_update_state q req r).
Proof. unfold _phase3_update_state. alike_split. Qed.

Lemma alike_final_answer q : alike (_generate_final_answer q).
Proof. unfold _generate_final_answer. alike_split. Qed.

Lemma alike_direct_response q : alike (_direct_response q).
Proof. unfold _direct_response. alike_split. Qed.

Lemma alike_tool_turn q req : alike (tool_turn q req).
Proof.
  pose proof alike_phase2. pose proof alike_phase3.
  unfold tool_turn. alike_split.
Qed.

Lemma alike_turn_body q t : alike (turn_body q t).
Proof.
  pose proof alike_phase1. pose proof alike_direct_response. pose proof alike_tool_turn.
  unfold turn_body. alike_split.
Qed.

Lemma alike_turn_loop q n : forall fuel t, alike (turn_loop fuel q n t).
Proof.
  pose proof alike_turn_body.
  induction fuel as [|fuel IH]; intros t; cbn [turn_loop]; alike_split.
Qed.

Lemma alike_run_tail q n :
  alike (bind now (fun _ =>
         bind (turn_loop (S (Z.to_nat n)) q n 1) (fun r =>
         match r with
         | inr _ => ret None
         | inl (Some answer) => ret (Some answer)
         | inl None => bind (_generate_final_answer q) (fun a => ret (Some a))
         end))).
Proof.
  pose proof alike_turn_loop. pose proof alike_final_answer. alike_split.
Qed.

(** X8: what a run returns, the calls it makes and the summary and
    world it leaves depend on the query, the turn limit, the
    configuration and the world only: the metrics, the summary and the
    log that earlier runs left on the orchestrator have no effect. *)
Theorem run_ignores_earlier_runs (query : pystr) (max_turns : Z) (st1 st2 : Orch) :
  config st1 = config st2 ->
  world st1 = world st2 ->
  fst (run query max_turns st1) = fst (run query max_turns st2)
  /\ state_summary (snd (run query max_turns st1))
     = state_summary (snd (run query max_turns st2))
  /\ world (snd (run query max_turns st1)) = world (snd (run query max_turns st2))
  /\ exists evs,
       trace (snd (run query max_turns st1)) = trace st1 ++ evs
       /\ trace (snd (run query max_turns st2)) = trace st2 ++ evs.
Proof.
  intros Hc Hw.
  pose proof (alike_run_tail query max_turns
                (snd (set_summary (lit "No actions taken yet.") st1))
                (snd (set_summary (lit "No actions taken yet.") st2))) as H.
  destruct H as [Hr [[_ [Hs Hw']] Hev]]; [now repeat split|].
  split; [exact Hr|]. split; [exact Hs|]. split; [exact Hw'|exact Hev].
Qed.

End AlikeRun.

Lemma run_ignores_earlier_runs_witness :
  fst (@run scripted (lit "hello") 3
         (scripted_start [inl (jq "{'tool': null}"); inl (lit "Hello! How can I help?")]))
  = fst (@run scripted (lit "hello") 3
           (scripted_used [inl (jq "{'tool': null}"); inl (lit "Hello! How can I help?")]))
  /\ state_summary
       (snd (@run scripted (lit "hello") 3
               (scripted_start [inl (jq "{'tool': null}"); inl (lit "Hello! How can I help?")])))
     = state_summary
         (snd (@run scripted (lit "hello") 3
                 (scripted_used [inl (jq "{'tool': null}"); inl (lit "Hello! How can I help?")])))
  /\ world
       (snd (@run scripted (lit "hello") 3
               (scripted_start [inl (jq "{'tool': null}"); inl (lit "Hello! How can I help?")])))
     = world
         (snd (@run scripted (lit "hello") 3
                 (scripted_used [inl (jq "{'tool': null}"); inl (lit "Hello! How can I help?")])))
  /\ exists evs,
       trace
         (snd (@run scripted (lit "hello") 3
                 (scripted_start [inl (jq "{'tool': null}"); inl (lit "Hello! How can I help?")])))
       = trace (scripted_start [inl (jq "{'tool': null}"); inl (lit "Hello! How can I help?")])
         ++ evs
       /\ trace
            (snd (@run scripted (lit "hello") 3
                    (scripted_used [inl (jq "{'tool': null}"); inl (lit "Hello! How can I help?")])))
          = trace (scripted_used [inl (jq "{'tool': null}"); inl (lit "Hello! How can I help?")])
            ++ evs.
Proof.
  apply (@run_ignores_earlier_runs scripted); reflexivity.
Defined.

(** ** Answers without tools, and the rolling summary *)

Section Answers.
Context {E : Env}.
Local Open Scope Z_scope.

(** X9: [_direct_response] asks the main model once and, when the
    cleaned reply has fewer than 10 characters, once more with the same
    prompt; there is no third attempt.  What it returns has no white
    space at either end, and an answer shorter than 10 characters is
    returned after the second attempt only. *)
Theorem direct_response_retries_once (query : pystr) (st : Orch) :
  (trace (snd (_direct_response query st))
   = trace st ++ [EvDirect; EvGenerate (main_model (config st)) (direct_prompt query)]
   \/ trace (snd (_direct_response query st))
      = trace st ++ [EvDirect; EvGenerate (main_model (config st)) (direct_prompt query);
                     EvGenerate (main_model (config st)) (direct_prompt query)])
  /\ forall answer,
       fst (_direct_response query st) = Ok answer ->
       strip answer = answer
       /\ (len answer < 10 ->
           trace (snd (_direct_response query st))
           = trace st ++ [EvDirect; EvGenerate (main_model (config st)) (direct_prompt query);
                          EvGenerate (main_model (config st)) (direct_prompt query)]).
Proof.
  unfold _direct_response. run_method.
  destruct (generate _ _ _ 2048 (world st)) as [[reply|msg] w] eqn:Hg; run_method.
  - destruct (Z.ltb_spec (len (strip (strip_think reply))) 10) as [Hlt|Hge]; run_method.
    + destruct (generate _ _ _ 2048 w) as [[reply2|msg2] w2] eqn:Hg2; run_method.
      * split; [right; now list_norm|].
        intros answer [= <-]. split; [apply strip_idem|]. intros _. now list_norm.
      * split; [right; now list_norm|]. intros answer H. discriminate H.
    + split; [left; now list_norm|].
      intros answer [= <-]. split; [apply strip_idem|]. lia.
  - split; [left; now list_norm|]. intros answer H. discriminate H.
Qed.

(** X10: the state update reads the first 1000 characters of the tool
    result only: two results with the same first 1000 characters lead
    to the same backend call and the same new state.  The summary is
    replaced when the backend has answered, by the reply without its
    traces and outer white space; when the backend fails, the summary
    stays as it was.  The metrics are not touched. *)
Theorem update_state_reads_1000_characters (query : pystr) (tool_request : pydict)
        (result1 result2 : pystr) (st : Orch) :
  slice_to 1000 result1 = slice_to 1000 result2 ->
  _phase3_update_state query tool_request result1 st
  = _phase3_update_state query tool_request result2 st
  /\ metrics (snd (_phase3_update_state query tool_request result1 st)) = metrics st
  /\ match fst (_phase3_update_state query tool_request result1 st) with
     | Ok _ =>
         strip (state_summary (snd (_phase3_update_state query tool_request result1 st)))
         = state_summary (snd (_phase3_update_state query tool_request result1 st))
     | Raise _ =>
         state_summary (snd (_phase3_update_state query tool_request result1 st))
         = state_summary st
     end.
Proof.
  intros H. unfold _phase3_update_state, update_prompt. rewrite H. split; [reflexivity|].
  run_method.
  destruct (generate _ _ _ 512 (world st)) as [[reply|msg] w]; run_method.
  - split; [reflexivity|apply strip_idem].
  - split; reflexivity.
Qed.

End Answers.

Lemma update_state_reads_1000_characters_witness :
  slice_to 1000 (repeat 120%N 1000 ++ lit "first")
  = slice_to 1000 (repeat 120%N 1000 ++ lit "second")
  /\ @_phase3_update_state scripted (lit "q") unknown_request
       (repeat 120%N 1000 ++ lit "first") (scripted_start [inl (lit " Read the file. ")])
     = @_phase3_update_state scripted (lit "q") unknown_request
         (repeat 120%N 1000 ++ lit "second") (scripted_start [inl (lit " Read the file. ")])
  /\ state_summary
       (snd (@_phase3_update_state scripted (lit "q") unknown_request
               (repeat 120%N 1000 ++ lit "first")
               (scripted_start [inl (lit " Read the file. ")])))
     = lit "Read the file.".
Proof.
  split; [vm_compute; reflexivity|].
  split; [|vm_compute; reflexivity].
  apply (@update_state_reads_1000_characters scripted). vm_compute. reflexivity.
Defined.

(** ** The execution phase *)

Section Execution.
Context {E : Env}.
Local Open Scope Z_scope.

Lemma dumps_or_str_pure (x : pyval) (text : pystr) (st : Orch) :
  dumps_or_str x st = (Ok text, st) -> forall st', dumps_or_str x st' = (Ok text, st').
Proof.
  unfold dumps_or_str. destruct x; try (intros [= <-]; reflexivity).
  destruct (json_dumps (PDict entries)); [|discriminate]. now intros [= <-].
Qed.

(** X11: a tool call whose request has no filter (none, an empty one,
    or filtering disabled) makes no call of a model: the execution
    phase calls the registered function once and returns its result as
    text, [json.dumps] of a mapping and [str] of anything else, and
    both token counts of the metrics are a quarter of the length of
    that text. *)
Theorem phase2_without_filter (tool_request : pydict) (name tool_func text : pystr)
        (raw_result : pyval) (st : Orch) :
  dict_get tool_request (lit "tool") = Some (PStr name) ->
  registry_get _load_tools name = Some tool_func ->
  fst (call_tool tool_func
         (if truthy (dict_get_default tool_request (lit "params") (PDict []))
          then Some (dict_get_default tool_request (lit "params") (PDict []))
          else None)
         (world st)) = inl raw_result ->
  enable_filtering (config st)
  && truthy (dict_get_default tool_request (lit "filter") (PList [])) = false ->
  dumps_or_str raw_result st = (Ok text, st) ->
  fst (_phase2_execution tool_request st) = Ok text
  /\ trace (snd (_phase2_execution tool_request st))
     = trace st ++ [EvExecution; EvTool tool_func]
  /\ tool_name (metrics (snd (_phase2_execution tool_request st))) = PStr name
  /\ raw_response_tokens (metrics (snd (_phase2_execution tool_request st))) = len text / 4
  /\ filtered_response_tokens (metrics (snd (_phase2_execution tool_request st)))
     = len text / 4.
Proof.
  intros Htool Hreg Hcall Hfilter Hdump.
  pose proof (dumps_or_str_pure _ _ _ Hdump) as Hd.
  unfold _phase2_execution. cbv zeta.
  replace (dict_get_default tool_request (lit "tool") PNone) with (PStr name)
    by (unfold dict_get_default; now rewrite Htool).
  rewrite Hreg. run_method.
  destruct (call_tool tool_func _ (world st)) as [r w'] eqn:Hc.
  cbn [fst] in Hcall. subst r. run_method.
  rewrite Hd. unfold set_raw_response_tokens. run_method. rewrite Hfilter. run_method.
  rewrite Hd. unfold set_filtered_response_tokens. run_method.
  cbn [raw_response_tokens filtered_response_tokens token_reduction tool_name
       phase1_time phase2_time phase3_time total_time].
  destruct (0 <? len text / 4); unfold set_token_reduction; run_method;
    cbn [raw_response_tokens filtered_response_tokens token_reduction tool_name
         phase1_time phase2_time phase3_time total_time];
    (split; [reflexivity|]; split; [now list_norm|]; now repeat split).
Qed.

(** X12: a filter that cannot be iterated (a number, a boolean) makes
    the fallback of [_filter_response] raise [TypeError]; a filter
    given as a string is read character by character, so that a raw
    result without one-character keys comes back whole. *)
Theorem filter_fallback_needs_an_iterable (d : pydict) (filter_fields : pyval)
        (raw_json reply : pystr) (st : Orch) (w' : World) :
  json_dumps_indent 2 (PDict d) = Some raw_json ->
  500 <= len raw_json ->
  generate (sub_model (config st))
           (filter_prompt (py_str filter_fields) raw_json)
           (sub_temperature (config st)) 512 (world st) = (inl reply, w') ->
  parse_filtered reply = None ->
  match filter_fields with
  | PNone | PBool _ | PInt _ | PFloat _ =>
      fst (_filter_response (PDict d) filter_fields st)
      = Raise (TypeError (lit "'" ++ type_name filter_fields ++ lit "' object is not iterable"))
  | PStr s =>
      (forall c, In c s -> dict_has d [c] = false) ->
      fst (_filter_response (PDict d) filter_fields st) = Ok (PDict d)
  | _ => True
  end.
Proof.
  intros Hdump Hlen Hgen Hparse.
  assert (Hrun : _filter_response (PDict d) filter_fields st
                 = fallback_filter d filter_fields
                     (snd (inference_generate (sub_model (config st))
                             (filter_prompt (py_str filter_fields) raw_json)
                             (sub_temperature (config st)) 512 st))).
  { unfold _filter_response. rewrite Hdump.
    destruct (Z.ltb_spec (len raw_json) 500) as [Hlt|_]; [lia|].
    run_method. rewrite Hgen. run_method. now rewrite Hparse. }
  rewrite Hrun. clear Hrun.
  destruct filter_fields; try exact I; try reflexivity.
  intros Hkeys. unfold fallback_filter. cbn [iterate].
  assert (Hpick : forall fields,
             (forall c, In c fields -> dict_has d [c] = false) ->
             pick_fields (List.map (fun c => PStr [c]) fields) d [] = Ok []).
  { induction fields as [|c fields IH]; intros Hk; [reflexivity|].
    cbn [List.map pick_fields].
    specialize (Hk c (or_introl eq_refl)) as Hc. unfold dict_has in Hc.
    destruct (dict_get d [c]); [discriminate|].
    apply IH. intros c' Hin. apply Hk. now right. }
  rewrite (Hpick _ Hkeys). reflexivity.
Qed.

End Execution.

(** A request for the calculator, without a filter. *)
Lemma phase2_without_filter_witness :
  fst (@_phase2_execution scripted
         [(lit "tool", PStr (lit "calculate"));
          (lit "params", PDict [(lit "expression", PStr (lit "250 * 0.15"))])]
         (scripted_start []))
  = Ok (jq "{'expression': '250 * 0.15', 'result': 37.5, 'type': 'float'}")
  /\ trace (snd (@_phase2_execution scripted
                   [(lit "tool", PStr (lit "calculate"));
                    (lit "params", PDict [(lit "expression", PStr (lit "250 * 0.15"))])]
                   (scripted_start [])))
     = trace (scripted_start []) ++ [EvExecution; EvTool (lit "utility_tools.calculate")]
  /\ tool_name (metrics (snd (@_phase2_execution scripted
                   [(lit "tool", PStr (lit "calculate"));
                    (lit "params", PDict [(lit "expression", PStr (lit "250 * 0.15"))])]
                   (scripted_start []))))
     = PStr (lit "calculate")
  /\ raw_response_tokens (metrics (snd (@_phase2_execution scripted
                   [(lit "tool", PStr (lit "calculate"));
                    (lit "params", PDict [(lit "expression", PStr (lit "250 * 0.15"))])]
                   (scripted_start []))))
     = (len (jq "{'expression': '250 * 0.15', 'result': 37.5, 'type': 'float'}") / 4)%Z
  /\ filtered_response_tokens (metrics (snd (@_phase2_execution scripted
                   [(lit "tool", PStr (lit "calculate"));
                    (lit "params", PDict [(lit "expression", PStr (lit "250 * 0.15"))])]
                   (scripted_start []))))
     = (len (jq "{'expression': '250 * 0.15', 'result': 37.5, 'type': 'float'}") / 4)%Z.
Proof.
  apply (@phase2_without_filter scripted _ (lit "calculate")
           (lit "utility_tools.calculate") _ calculate_result); reflexivity.
Defined.

Lemma filter_fallback_needs_an_iterable_witness :
  fst (@_filter_response scripted read_file_result (PInt 5)
         (scripted_start [inl (lit "I cannot do that.")]))
  = Raise (TypeError (lit "'int' object is not iterable")).
Proof.
  apply (@filter_fallback_needs_an_iterable scripted
           [ (lit "content", PStr (repeat 120%N 600));
             (lit "size", PInt 600);
             (lit "path", PStr (lit "a.txt")) ]
           (PInt 5) read_file_json (lit "I cannot do that.")
           (scripted_start [inl (lit "I cannot do that.")])
           {| replies := []; clock := 0%float |}).
  - vm_compute. reflexivity.
  - vm_compute. discriminate.
  - reflexivity.
  - reflexivity.
Defined.

(** ** The tools the planner is offered *)

Lemma registry_get_In (tools : list (pystr * pystr)) (name f : pystr) :
  registry_get tools name = Some f -> In name (List.map fst tools).
Proof.
  induction tools as [|[k g] tools IH]; cbn [registry_get List.map fst]; [discriminate|].
  destruct (pystr_eqb k name) eqn:Hk.
  - intros _. left. now apply pystr_eqb_eq.
  - intros H. right. auto.
Qed.

Lemma In_registry_get (tools : list (pystr * pystr)) (name : pystr) :
  In name (List.map fst tools) -> exists f, registry_get tools name = Some f.
Proof.
  induction tools as [|[k g] tools IH]; cbn [registry_get List.map fst]; [intros []|].
  destruct (pystr_eqb k name) eqn:Hk; [now exists g|].
  intros [->|Hin]; [now rewrite pystr_eqb_refl in Hk|auto].
Qed.

Section Offered.
Context {E : Env}.
Local Open Scope Z_scope.

(** X13: the catalogue shown to the planner and the registry of the
    execution phase name the same tools, in the same order, and these
    are the names [get_available_tools] lists.  So a request for a tool
    of the catalogue is never answered with [Unknown tool]: the
    execution phase calls the function registered under that name. *)
Theorem catalogue_tools_are_registered :
  get_available_tools = List.map fst TOOL_CATALOGUE
  /\ (forall name,
         In name (List.map fst TOOL_CATALOGUE)
         <-> exists f, registry_get _load_tools name = Some f)
  /\ forall name tool_request st,
       In name (List.map fst TOOL_CATALOGUE) ->
       dict_get tool_request (lit "tool") = Some (PStr name) ->
       exists f rest,
         registry_get _load_tools name = Some f
         /\ trace (snd (_phase2_execution tool_request st))
            = trace st ++ EvExecution :: EvTool f :: rest.
Proof.
  assert (Hnames : List.map fst TOOL_CATALOGUE = List.map fst _load_tools) by reflexivity.
  split; [now rewrite Hnames|]. split.
  - intros name. rewrite Hnames. split.
    + apply In_registry_get.
    + intros [f H]. eapply registry_get_In, H.
  - intros name req st Hin Htool. rewrite Hnames in Hin.
    destruct (In_registry_get _ _ Hin) as [f Hreg]. exists f.
    unfold _phase2_execution. cbv zeta.
    replace (dict_get_default req (lit "tool") PNone) with (PStr name)
      by (unfold dict_get_default; now rewrite Htool).
    rewrite Hreg.
    match goal with
    | |- context [bind (invoke_tool f ?p) ?K] => set (k := K)
    end.
    assert (Hk : forall r, steps quiet (k r)).
    { intros [raw|msg]; subst k; cbv beta; steps_split. }
    run_method.
    destruct (call_tool f _ (world st)) as [r w]. 
    match goal with
    | |- context [k r ?s] => destruct (Hk r s) as [evs [Hev _]]
    end.
    exists evs. split; [reflexivity|]. rewrite Hev. cbn [trace set_world]. now list_norm.
Qed.

End Offered.

(** ** A planner that selects no tool in the first turn *)

Section Declined.
Context {E : Env}.
Local Open Scope Z_scope.

Lemma direct_response_effect (query : pystr) (st : Orch) :
  exists more,
    trace (snd (_direct_response query st))
    = trace st ++ [EvDirect; EvGenerate (main_model (config st)) (direct_prompt query)] ++ more
    /\ (more = [] \/ more = [EvGenerate (main_model (config st)) (direct_prompt query)])
    /\ metrics (snd (_direct_response query st)) = metrics st
    /\ state_summary (snd (_direct_response query st)) = state_summary st
    /\ match fst (_direct_response query st) with
       | Ok answer => strip answer = answer
       | Raise (RuntimeError _) => True
       | Raise (TypeError _) => False
       end.
Proof.
  unfold _direct_response. run_method.
  destruct (generate _ _ _ 2048 (world st)) as [[reply|msg] w] eqn:Hg; run_method.
  - destruct (Z.ltb_spec (len (strip (strip_think reply))) 10) as [Hlt|Hge]; run_method.
    + destruct (generate _ _ _ 2048 w) as [[reply2|msg2] w2] eqn:Hg2; run_method.
      * eexists [_]. split; [now list_norm|]. split; [now right|].
        repeat split. apply strip_idem.
      * eexists [_]. split; [now list_norm|]. split; [now right|]. now repeat split.
    + exists []. split; [now list_norm|]. split; [now left|].
      repeat split. apply strip_idem.
  - exists []. split; [now list_norm|]. split; [now left|]. now repeat split.
Qed.

(** The run up to the direct response, when the first reply of the
    planner holds no request. *)
Lemma run_declined_unfold (query : pystr) (max_turns : Z) (st : Orch) (reply : pystr)
      (w : World) :
  1 <= max_turns ->
  generate (main_model (config st))
           (planning_prompt get_catalogue_prompt query (lit "No actions taken yet."))
           0.5%float 300 (snd (time_time (snd (time_time (world st))))) = (inl reply, w) ->
  _parse_tool_request reply = None ->
  exists st1,
    run query max_turns st
    = (match _direct_response query st1 with
       | (Ok answer, st2) => (Ok (Some answer), st2)
       | (Raise e, st2) => (Raise e, st2)
       end)
    /\ config st1 = config st
    /\ state_summary st1 = lit "No actions taken yet."
    /\ trace st1
       = trace st ++ [EvTurn 1; EvPlanning;
                      EvGenerate (main_model (config st))
                        (planning_prompt get_catalogue_prompt query
                           (lit "No actions taken yet."));
                      EvFinish]
    /\ phase2_time (metrics st1) = phase2_time (metrics st)
    /\ phase3_time (metrics st1) = phase3_time (metrics st)
    /\ tool_name (metrics st1) = tool_name (metrics st)
    /\ raw_response_tokens (metrics st1) = raw_response_tokens (metrics st)
    /\ filtered_response_tokens (metrics st1) = filtered_response_tokens (metrics st)
    /\ token_reduction (metrics st1) = token_reduction (metrics st).
Proof.
  intros Hn Hgen Hparse. unfold run, run_fuel. cbn [turn_loop].
  destruct (Z.leb_spec 1 max_turns) as [_|Hlt]; [|lia].
  unfold turn_body, _phase1_planning. run_method.
  revert Hgen. destruct (time_time (world st)) as [t0 w0]. cbn [snd]. intros Hgen.
  run_method.
  revert Hgen. destruct (time_time w0) as [t1 w1]. cbn [snd]. intros Hgen.
  run_method.
  rewrite Hgen. run_method. rewrite Hparse.
  destruct (time_time w) as [t2 w2]. run_method. cbn [Z.eqb Pos.eqb].
  match goal with
  | |- context [_direct_response query ?s] => exists s
  end.
  split.
  - match goal with
    | |- context [_direct_response query ?s] =>
        destruct (_direct_response query s) as [[answer|e] st2]
    end; reflexivity.
  - cbn [config state_summary trace metrics phase2_time phase3_time tool_name
         raw_response_tokens filtered_response_tokens token_reduction].
    repeat split. now list_norm.
Qed.

(** X14: when the first reply of the planner holds no tool request (a
    finish signal, or a text the parser cannot read), the run answers
    the query directly: it makes one or two calls with the direct
    prompt and no other call, it executes no tool and makes no final
    answer from the summary, and it returns a text without outer white
    space or propagates the error of the backend.  The summary stays
    the initial one, and the tool, the token counts and the times of
    phases 2 and 3 in the metrics are those left by earlier runs. *)
Theorem run_answers_directly_when_planner_declines (query : pystr) (max_turns : Z)
        (st : Orch) (reply : pystr) (w : World) :
  1 <= max_turns ->
  generate (main_model (config st))
           (planning_prompt get_catalogue_prompt query (lit "No actions taken yet."))
           0.5%float 300 (snd (time_time (snd (time_time (world st))))) = (inl reply, w) ->
  _parse_tool_request reply = None ->
  (exists more,
      trace (snd (run query max_turns st))
      = trace st ++ [EvTurn 1; EvPlanning;
                     EvGenerate (main_model (config st))
                       (planning_prompt get_catalogue_prompt query
                          (lit "No actions taken yet."));
                     EvFinish; EvDirect;
                     EvGenerate (main_model (config st)) (direct_prompt query)] ++ more
      /\ (more = [] \/ more = [EvGenerate (main_model (config st)) (direct_prompt query)]))
  /\ state_summary (snd (run query max_turns st)) = lit "No actions taken yet."
  /\ tool_name (metrics (snd (run query max_turns st))) = tool_name (metrics st)
  /\ raw_response_tokens (metrics (snd (run query max_turns st)))
     = raw_response_tokens (metrics st)
  /\ filtered_response_tokens (metrics (snd (run query max_turns st)))
     = filtered_response_tokens (metrics st)
  /\ token_reduction (metrics (snd (run query max_turns st))) = token_reduction (metrics st)
  /\ phase2_time (metrics (snd (run query max_turns st))) = phase2_time (metrics st)
  /\ phase3_time (metrics (snd (run query max_turns st))) = phase3_time (metrics st)
  /\ match fst (run query max_turns st) with
     | Ok (Some answer) => strip answer = answer
     | Ok None => False
     | Raise (RuntimeError _) => True
     | Raise (TypeError _) => False
     end.
Proof.
  intros Hn Hgen Hparse.
  destruct (run_declined_unfold query max_turns st reply w Hn Hgen Hparse)
    as [st1 [Hrun [Hc [Hs [Ht [H2 [H3 [Hn' [Hr [Hf Hk]]]]]]]]]].
  destruct (direct_response_effect query st1) as [more [Htr [Hmore [Hm [Hsum Hres]]]]].
  rewrite Hrun. destruct (_direct_response query st1) as [[answer|e] st2]; cbn [fst snd] in *.
  all: rewrite Hc in *; rewrite Hm.
  all: split; [exists more; split; [rewrite Htr, Ht; now list_norm|assumption]|].
  all: split; [congruence|].
  all: repeat (split; [assumption|]); assumption.
Qed.

End Declined.

Lemma run_answers_directly_when_planner_declines_witness :
  @_parse_tool_request scripted (lit "I think we are done here.") = None
  /\ state_summary
       (snd (@run scripted (lit "hello") 3
               (scripted_used [inl (lit "I think we are done here.");
                               inl (lit "Hello! How can I help?")])))
     = lit "No actions taken yet."
  /\ tool_name
       (metrics (snd (@run scripted (lit "hello") 3
                        (scripted_used [inl (lit "I think we are done here.");
                                        inl (lit "Hello! How can I help?")]))))
     = PStr (lit "calculate")
  /\ fst (@run scripted (lit "hello") 3
            (scripted_used [inl (lit "I think we are done here.");
                            inl (lit "Hello! How can I help?")]))
     = Ok (Some (lit "Hello! How can I help?")).
Proof.
  split; [reflexivity|].
  destruct (@run_answers_directly_when_planner_declines scripted (lit "hello") 3
              (scripted_used [inl (lit "I think we are done here.");
                              inl (lit "Hello! How can I help?")])
              (lit "I think we are done here.")
              (Build_Script [inl (lit "Hello! How can I help?")] 2%float))
    as [_ [Hs [Ht _]]].
  - lia.
  - vm_compute. reflexivity.
  - reflexivity.
  - split; [exact Hs|]. split; [exact Ht|]. vm_compute. reflexivity.
Defined.

(** ** JSON strings: decoding undoes encoding *)

Section StringRoundTrip.
Local Open Scope N_scope.

Lemma hex_val_digit (n : N) : n < 16 -> hex_val (hex_digit n) = Some n.
Proof.
  intros H. destruct n as [|p]; [reflexivity|].
  do 4 (try destruct p as [p|p|]); try reflexivity; lia.
Qed.

Lemma hex4_u_escape (n : N) (rest : pystr) :
  n < 65536 ->
  exists h1 h2 h3 h4,
    u_escape n = [92; 117; h1; h2; h3; h4] /\ hex4 h1 h2 h3 h4 = Some n.
Proof.
  intros H. unfold u_escape. do 4 eexists. split; [reflexivity|].
  unfold hex4.
  assert (H1 : n / 4096 < 16) by (apply N.Div0.div_lt_upper_bound; lia).
  assert (H2 : (n / 256) mod 16 < 16) by (apply N.mod_lt; lia).
  assert (H3 : (n / 16) mod 16 < 16) by (apply N.mod_lt; lia).
  assert (H4 : n mod 16 < 16) by (apply N.mod_lt; lia).
  rewrite !hex_val_digit by assumption. f_equal.
  assert (Q2 : n / 16 / 16 = n / 256) by (now rewrite N.Div0.div_div).
  assert (Q3 : n / 256 / 16 = n / 4096) by (now rewrite N.Div0.div_div).
  pose proof (N.div_mod n 16 ltac:(lia)) as E1.
  pose proof (N.div_mod (n / 16) 16 ltac:(lia)) as E2.
  pose proof (N.div_mod (n / 256) 16 ltac:(lia)) as E3.
  rewrite Q2 in E2. rewrite Q3 in E3. lia.
Qed.

Lemma lor_shiftl_low (x y k : N) :
  y < 2 ^ k -> N.lor (N.shiftl x k) y = x * 2 ^ k + y.
Proof.
  intros Hy.
  assert (Hland : N.land (N.shiftl x k) y = 0).
  { apply N.bits_inj. intros i. rewrite N.land_spec, N.bits_0.
    destruct (N.lt_ge_cases i k) as [Hi|Hi].
    - now rewrite N.shiftl_spec_low.
    - rewrite <- (N.mod_small y (2 ^ k)) by assumption.
      rewrite N.mod_pow2_bits_high by assumption. apply andb_false_r. }
  rewrite <- N.lxor_lor by assumption.
  rewrite <- N.add_nocarry_lxor by assumption.
  now rewrite N.shiftl_mul_pow2.
Qed.

Lemma surrogate_pair (c : char) :
  65536 <= c -> c < 1114112 ->
  exists hi lo,
    N.lor 55296 (N.land (N.shiftr (c - 65536) 10) 1023) = hi
    /\ N.lor 56320 (N.land (c - 65536) 1023) = lo
    /\ 55296 <= hi /\ hi <= 56319 /\ 56320 <= lo /\ lo <= 57343
    /\ 65536 + N.lor (N.shiftl (hi - 55296) 10) (lo - 56320) = c.
Proof.
  intros Hlo Hhi. set (n := c - 65536).
  assert (Hn : n < 1048576) by (unfold n; lia).
  assert (Hx : N.land (N.shiftr n 10) 1023 = n / 1024).
  { change 1023 with (N.ones 10). rewrite N.land_ones, N.shiftr_div_pow2.
    change (2 ^ 10) with 1024. apply N.mod_small.
    apply N.Div0.div_lt_upper_bound. lia. }
  assert (Hy : N.land n 1023 = n mod 1024).
  { change 1023 with (N.ones 10). now rewrite N.land_ones. }
  assert (Hq : n / 1024 < 1024) by (apply N.Div0.div_lt_upper_bound; lia).
  assert (Hr : n mod 1024 < 1024) by (apply N.mod_lt; lia).
  rewrite Hx, Hy.
  change 55296 with (N.shiftl 54 10) at 1. change 56320 with (N.shiftl 55 10) at 1.
  rewrite !lor_shiftl_low by (change (2 ^ 10) with 1024; assumption).
  change (2 ^ 10) with 1024.
  do 2 eexists. split; [reflexivity|]. split; [reflexivity|].
  repeat (split; [lia|]).
  replace (54 * 1024 + n / 1024 - 55296) with (n / 1024) by lia.
  replace (55 * 1024 + n mod 1024 - 56320) with (n mod 1024) by lia.
  rewrite lor_shiftl_low by (change (2 ^ 10) with 1024; assumption).
  change (2 ^ 10) with 1024.
  pose proof (N.div_mod n 1024 ltac:(lia)). unfold n in *. lia.
Qed.

Lemma scanstring_u_escape (n : N) (rest : pystr) :
  n < 65536 -> (55296 <=? n) && (n <=? 56319) = false ->
  scanstring (u_escape n ++ rest) = cons_str n (scanstring rest).
Proof.
  intros Hn Hs. destruct (hex4_u_escape n rest Hn) as [h1 [h2 [h3 [h4 [-> Hh]]]]].
  cbn [app scanstring]. change (92 =? 34) with false. change (92 =? 92) with true.
  change (117 =? 117) with true. cbn iota. now rewrite Hh, Hs.
Qed.

(** The decoder reads back what the encoder writes for one character. *)
Lemma scanstring_escape_char (c : char) (rest : pystr) :
  is_scalar c = true ->
  scanstring (escape_char c ++ rest) = cons_str c (scanstring rest).
Proof.
  intros Hc. unfold escape_char.
  destruct (N.eqb_spec c 34) as [->|H34]; [reflexivity|].
  destruct (N.eqb_spec c 92) as [->|H92]; [reflexivity|].
  destruct (N.eqb_spec c 10) as [->|H10]; [reflexivity|].
  destruct (N.eqb_spec c 13) as [->|H13]; [reflexivity|].
  destruct (N.eqb_spec c 9) as [->|H9]; [reflexivity|].
  destruct (N.eqb_spec c 8) as [->|H8]; [reflexivity|].
  destruct (N.eqb_spec c 12) as [->|H12]; [reflexivity|].
  destruct ((32 <=? c) && (c <=? 126)) eqn:Hp.
  - cbn [app scanstring].
    destruct (N.eqb_spec c 34); [contradiction|].
    destruct (N.eqb_spec c 92); [contradiction|].
    apply andb_true_iff in Hp as [Hp _]. apply N.leb_le in Hp.
    destruct (N.ltb_spec c 32); [lia|reflexivity].
  - unfold is_scalar in Hc.
    destruct (N.ltb_spec c 65536) as [Hlt|Hge].
    + apply scanstring_u_escape; [assumption|].
      apply orb_true_iff in Hc as [Hc|Hc].
      * apply N.ltb_lt in Hc. apply andb_false_iff. left. apply N.leb_gt. lia.
      * apply andb_true_iff in Hc as [Hc _]. apply N.ltb_lt in Hc.
        apply andb_false_iff. right. apply N.leb_gt. lia.
    + assert (Hmax : c < 1114112).
      { apply orb_true_iff in Hc as [Hc|Hc].
        - apply N.ltb_lt in Hc. lia.
        - apply andb_true_iff in Hc as [_ Hc]. now apply N.ltb_lt in Hc. }
      cbv zeta.
      destruct (surrogate_pair c Hge Hmax) as [hi [lo [-> [-> [H1 [H2 [H3 [H4 H5]]]]]]]].
      destruct (hex4_u_escape hi rest ltac:(lia)) as [h1 [h2 [h3 [h4 [-> Hh]]]]].
      destruct (hex4_u_escape lo rest ltac:(lia)) as [l1 [l2 [l3 [l4 [-> Hl]]]]].
      cbn [app scanstring]. change (92 =? 34) with false. change (92 =? 92) with true.
      change (117 =? 117) with true. cbn iota. rewrite Hh.
      replace ((55296 <=? hi) && (hi <=? 56319)) with true
        by (symmetry; apply andb_true_iff; split; apply N.leb_le; assumption).
      cbn [andb]. rewrite Hl.
      replace ((56320 <=? lo) && (lo <=? 57343)) with true
        by (symmetry; apply andb_true_iff; split; apply N.leb_le; assumption).
      now rewrite H5.
Qed.

Lemma scanstring_encoded (s rest : pystr) :
  plain_text s = true ->
  scanstring (flat_map escape_char s ++ 34 :: rest) = Some (s, rest).
Proof.
  induction s as [|c s IH]; intros H; [reflexivity|].
  cbn [plain_text forallb] in H. apply andb_true_iff in H as [Hc Hs].
  cbn [flat_map]. rewrite <- app_assoc, scanstring_escape_char by assumption.
  now rewrite (IH Hs).
Qed.

End StringRoundTrip.

(** ** The error text of the execution phase *)

Section ErrorText.
Context {E : Env}.
Local Open Scope N_scope.

Lemma error_json_shape (msg : pystr) :
  error_json msg
  = 123 :: 34 :: lit "error" ++ 34 :: 58 :: 32 :: 34 :: flat_map escape_char msg ++ [34; 125].
Proof.
  unfold error_json, encode_basestring_ascii.
  change (lit "{") with [123]. change (lit "}") with [125]. change (lit ": ") with [58; 32].
  change (flat_map escape_char (lit "error")) with (lit "error").
  cbn [app]. now rewrite <- !app_assoc.
Qed.

Lemma scan_error_json (msg : pystr) :
  plain_text msg = true ->
  scan_once 3 (error_json msg) = JOk (PDict [(lit "error", PStr msg)]) [].
Proof.
  intros H. rewrite error_json_shape, scan_once_S.
  change (123 =? 34) with false. change (123 =? 123) with true. cbn iota.
  rewrite skip_ws_fixed by reflexivity.
  change (34 =? 34) with true. cbn iota.
  rewrite parse_object_loop_S.
  change (lit "error") with [101; 114; 114; 111; 114]. cbn [app].
  match goal with
  | |- context [scanstring ?s] =>
      replace (scanstring s)
        with (Some (lit "error", 58 :: 32 :: 34 :: flat_map escape_char msg ++ [34; 125]))
        by reflexivity
  end.
  rewrite skip_ws_fixed by reflexivity.
  change (58 =? 58) with true. cbn iota.
  match goal with
  | |- context [skip_ws (32 :: ?s)] => change (skip_ws (32 :: s)) with (skip_ws s)
  end.
  rewrite skip_ws_fixed by reflexivity.
  rewrite scan_once_S. change (34 =? 34) with true. cbn iota.
  change [34; 125] with (34 :: [125]).
  rewrite (scanstring_encoded msg [125] H).
  rewrite skip_ws_fixed by reflexivity.
  change (125 =? 125) with true. cbn iota. reflexivity.
Qed.

(** X15: the text the execution phase returns for a failed tool call
    is a JSON object that [json.loads] decodes to the mapping from
    [error] to the message, for every message without surrogate code
    points: nothing of the message is lost in the text. *)
Theorem error_text_decodes_to_the_message (msg : pystr) :
  plain_text msg = true ->
  json_loads (error_json msg) = Some (PDict [(lit "error", PStr msg)]).
Proof.
  intros H. unfold json_loads.
  assert (Hws : skip_ws (error_json msg) = error_json msg)
    by (now rewrite error_json_shape).
  rewrite Hws.
  assert (Hlen : (3 <= S (2 * List.length (error_json msg)))%nat).
  { rewrite error_json_shape. cbn [List.length]. lia. }
  rewrite (scan_once_fuel_le 3 _ _ _ _ Hlen (scan_error_json msg H)).
  reflexivity.
Qed.

End ErrorText.

Lemma error_text_decodes_to_the_message_witness :
  @json_loads scripted (error_json (jq "Unknown tool: 'fs_list'
\ path"))
  = Some (PDict [(lit "error", PStr (jq "Unknown tool: 'fs_list'
\ path"))]).
Proof.
  apply (@error_text_decodes_to_the_message scripted). reflexivity.
Defined.

(** ** JSON integers: decoding undoes encoding *)

Module DecimalText.
Import Decimal DecimalPos DecimalN DecimalZ.

Section IntRoundTrip.
Context {E : Env}.
Local Open Scope N_scope.

Lemma uint_chars_cons (u : uint) :
  uint_chars (D0 u) = 48 :: uint_chars u /\ uint_chars (D1 u) = 49 :: uint_chars u
  /\ uint_chars (D2 u) = 50 :: uint_chars u /\ uint_chars (D3 u) = 51 :: uint_chars u
  /\ uint_chars (D4 u) = 52 :: uint_chars u /\ uint_chars (D5 u) = 53 :: uint_chars u
  /\ uint_chars (D6 u) = 54 :: uint_chars u /\ uint_chars (D7 u) = 55 :: uint_chars u
  /\ uint_chars (D8 u) = 56 :: uint_chars u /\ uint_chars (D9 u) = 57 :: uint_chars u.
Proof. repeat split. Qed.

Lemma uint_chars_digits (u : uint) : forallb is_digit (uint_chars u) = true.
Proof. induction u; cbn; auto. Qed.

Lemma digits_value_acc (u : uint) :
  forall acc : positive,
    fold_left (fun a c => (a * 10 + Z.of_N (c - 48))%Z) (uint_chars u) (Z.pos acc)
    = Z.pos (Pos.of_uint_acc u acc).
Proof.
  induction u; intros acc; [reflexivity|..].
  all: destruct (uint_chars_cons u) as [E0 [E1 [E2 [E3 [E4 [E5 [E6 [E7 [E8 E9]]]]]]]]];
    rewrite ?E0, ?E1, ?E2, ?E3, ?E4, ?E5, ?E6, ?E7, ?E8, ?E9;
    cbn [fold_left Pos.of_uint_acc];
    match goal with
    | |- fold_left _ _ ?z = Z.pos (Pos.of_uint_acc _ ?p) =>
        replace z with (Z.pos p) by (cbn -[Z.mul Z.add Pos.mul Pos.add]; lia)
    end; apply IHu.
Qed.

Lemma digits_value_uint (u : uint) :
  digits_value (uint_chars u) = Z.of_N (Pos.of_uint u).
Proof.
  unfold digits_value. induction u; [reflexivity|..].
  all: destruct (uint_chars_cons u) as [E0 [E1 [E2 [E3 [E4 [E5 [E6 [E7 [E8 E9]]]]]]]]];
    rewrite ?E0, ?E1, ?E2, ?E3, ?E4, ?E5, ?E6, ?E7, ?E8, ?E9;
    cbn [fold_left Pos.of_uint].
  1: exact IHu.
  all: match goal with
       | |- fold_left _ _ ?z = Z.of_N (N.pos (Pos.of_uint_acc _ ?p)) =>
           replace z with (Z.pos p) by (cbn -[Z.mul Z.add Pos.mul Pos.add]; lia)
       end; apply digits_value_acc.
Qed.

Lemma nzhead_no_D0 (u l : uint) : nzhead u <> D0 l.
Proof. induction u; cbn; congruence. Qed.

(** The numeral of a positive number starts with a digit from 1 to 9. *)
Lemma to_uint_head (p : positive) :
  exists c ds,
    uint_chars (Pos.to_uint p) = c :: ds
    /\ is_digit c = true /\ c <> 48 /\ forallb is_digit ds = true.
Proof.
  pose proof (uint_chars_digits (Pos.to_uint p)) as Hd.
  pose proof (DecimalPos.Unsigned.to_uint_nonnil p) as Hnil.
  pose proof (DecimalPos.Unsigned.to_uint_nonzero p) as Hz.
  pose proof (DecimalPos.Unsigned.to_of (Pos.to_uint p)) as Hn.
  rewrite DecimalPos.Unsigned.of_to in Hn. cbn [N.to_uint] in Hn.
  destruct (Pos.to_uint p) as [|l|l|l|l|l|l|l|l|l|l] eqn:Hu; [congruence|..].
  1: { exfalso. unfold unorm in Hn. cbn [nzhead] in Hn.
       destruct (nzhead l) eqn:Hl; try discriminate Hn.
       - injection Hn as ->. now apply Hz.
       - now apply nzhead_no_D0 in Hl. }
  all: destruct (uint_chars_cons l) as [E0 [E1 [E2 [E3 [E4 [E5 [E6 [E7 [E8 E9]]]]]]]]];
    rewrite ?E0, ?E1, ?E2, ?E3, ?E4, ?E5, ?E6, ?E7, ?E8, ?E9 in *;
    cbn [forallb] in Hd; apply andb_true_iff in Hd as [H1 H2];
    do 2 eexists; split; [reflexivity|]; split; [exact H1|]; split; [discriminate|exact H2].
Qed.

Lemma span_digits_stop (ds rest : pystr) :
  forallb is_digit ds = true ->
  match rest with [] => True | c :: _ => is_digit c = false end ->
  span_digits (ds ++ rest) = (ds, rest).
Proof.
  intros Hd Hr. induction ds as [|c ds IH].
  - destruct rest as [|c rest]; [reflexivity|].
    change (span_digits ([] ++ c :: rest))
      with (if is_digit c then let (d, r) := span_digits rest in (c :: d, r)
            else ([], c :: rest)).
    now rewrite Hr.
  - cbn [forallb] in Hd. apply andb_true_iff in Hd as [Hc Hd].
    change (span_digits ((c :: ds) ++ rest))
      with (if is_digit c then let (d, r) := span_digits (ds ++ rest) in (c :: d, r)
            else ([], c :: ds ++ rest)).
    now rewrite Hc, (IH Hd).
Qed.

End IntRoundTrip.

Section IntText.
Context {E : Env}.
Local Open Scope N_scope.

Lemma nilzero_nonnil (u : uint) :
  u <> Nil -> lit (NilZero.string_of_uint u) = uint_chars u.
Proof. destruct u; [congruence|reflexivity..]. Qed.

(** The decimal text of an integer: an optional minus sign and a
    numeral without a leading zero, or the single digit 0. *)
Lemma int_str_shape (z : Z) :
  (z = 0%Z /\ int_str z = [48])
  \/ (exists p c ds,
        (z = Z.pos p /\ int_str z = c :: ds \/ z = Z.neg p /\ int_str z = 45 :: c :: ds)
        /\ c :: ds = uint_chars (Pos.to_uint p)
        /\ is_digit c = true /\ c <> 48 /\ forallb is_digit ds = true).
Proof.
  destruct z as [|p|p]; [now left|right..].
  all: destruct (to_uint_head p) as [c [ds [Hu [Hc [Hz Hd]]]]]; exists p, c, ds.
  all: unfold int_str; cbn [Z.to_int NilZero.string_of_int].
  - split; [left; split; [reflexivity|]|now rewrite Hu].
    now rewrite nilzero_nonnil, Hu by apply DecimalPos.Unsigned.to_uint_nonnil.
  - split; [right; split; [reflexivity|]|now rewrite Hu].
    change (lit (String "-" ?s)) with (45 :: lit s).
    change (lit (String "-" (NilZero.string_of_uint (Pos.to_uint p))))
      with (45 :: lit (NilZero.string_of_uint (Pos.to_uint p))).
    now rewrite nilzero_nonnil, Hu by apply DecimalPos.Unsigned.to_uint_nonnil.
Qed.

Lemma int_of_literal_int_str (z : Z) : int_of_literal (int_str z) = z.
Proof.
  destruct (int_str_shape z) as [[-> ->]|[p [c [ds [Hz [Hu [Hc [H0 Hd]]]]]]]]; [reflexivity|].
  assert (Hv : digits_value (c :: ds) = Z.pos p).
  { rewrite Hu, digits_value_uint, DecimalPos.Unsigned.of_to. reflexivity. }
  assert (Hm : (c =? 45) = false).
  { apply N.eqb_neq. intros ->. discriminate Hc. }
  destruct Hz as [[-> ->]|[-> ->]]; unfold int_of_literal.
  - now rewrite Hm.
  - change (45 =? 45) with true. cbn iota. now rewrite Hv.
Qed.

Lemma closing_not_digit (rest : pystr) :
  closing rest = true ->
  match rest with [] => True | c :: _ => is_digit c = false end.
Proof.
  destruct rest as [|c rest]; [trivial|]. cbn [closing]. intros H.
  repeat (apply orb_true_iff in H as [H|H]); apply N.eqb_eq in H; now subst.
Qed.

Lemma match_int_int_str (z : Z) (rest : pystr) :
  closing rest = true ->
  match_int (int_str z ++ rest) = Some (int_str z, rest).
Proof.
  intros Hr. apply closing_not_digit in Hr.
  destruct (int_str_shape z) as [[-> ->]|[p [c [ds [Hz [Hu [Hc [H0 Hd]]]]]]]]; [reflexivity|].
  assert (Hm : (c =? 45) = false).
  { apply N.eqb_neq. intros ->. discriminate Hc. }
  assert (Hn : (c =? 48) = false) by now apply N.eqb_neq.
  destruct Hz as [[-> ->]|[-> ->]]; unfold match_int; rewrite <- !app_comm_cons.
  - rewrite Hm, Hn, Hc, (span_digits_stop ds rest Hd Hr). reflexivity.
  - change (45 =? 45) with true. cbn iota.
    rewrite Hn, Hc, (span_digits_stop ds rest Hd Hr). reflexivity.
Qed.

Lemma closing_not_number (rest : pystr) :
  closing rest = true -> match_frac rest = None /\ match_exp rest = None.
Proof.
  destruct rest as [|c rest]; [now split|]. cbn [closing]. intros H.
  repeat (apply orb_true_iff in H as [H|H]); apply N.eqb_eq in H; now subst.
Qed.

Lemma int_str_head (z : Z) :
  exists c ds, int_str z = c :: ds /\ (c = 45 \/ is_digit c = true).
Proof.
  destruct (int_str_shape z) as [[-> ->]|[p [c [ds [Hz [Hu [Hc [H0 Hd]]]]]]]].
  - exists 48, []. split; [reflexivity|now right].
  - destruct Hz as [[-> ->]|[-> ->]]; do 2 eexists; (split; [reflexivity|]); auto.
Qed.

Lemma scan_atom_int (z : Z) (rest : pystr) :
  closing rest = true ->
  scan_atom (int_str z ++ rest) = JOk (PInt z) rest.
Proof.
  intros Hr. unfold scan_atom.
  destruct (int_str_head z) as [c [ds [Hs Hc]]].
  assert (Hnot : forall a p, is_digit a = false -> a <> 45 ->
                   strip_prefix (a :: p) (int_str z ++ rest) = None).
  { intros a p Ha Hm. rewrite Hs, <- app_comm_cons. apply strip_prefix_head.
    destruct Hc as [->|Hc]; [congruence|]. intros ->. congruence. }
  change (lit "null") with (110 :: lit "ull").
  change (lit "true") with (116 :: lit "rue").
  change (lit "false") with (102 :: lit "alse").
  rewrite !Hnot by (reflexivity || discriminate).
  unfold match_number. rewrite (match_int_int_str z rest Hr).
  destruct (closing_not_number rest Hr) as [-> ->].
  now rewrite int_of_literal_int_str.
Qed.

End IntText.

End DecimalText.

(** ** JSON values: decoding undoes encoding *)

Section ValueInduction.
Variable P : pyval -> Prop.
Hypothesis HNone : P PNone.
Hypothesis HBool : forall b, P (PBool b).
Hypothesis HInt : forall z, P (PInt z).
Hypothesis HFloat : forall f, P (PFloat f).
Hypothesis HStr : forall s, P (PStr s).
Hypothesis HList : forall items, Forall P items -> P (PList items).
Hypothesis HDict : forall entries, Forall (fun kv => P (snd kv)) entries -> P (PDict entries).
Hypothesis HObj : forall s, P (PObj s).

Lemma pyval_nested_ind : forall v, P v.
Proof.
  fix IH 1. intros v. destruct v as [|b|z|f|s|items|entries|s].
  - exact HNone.
  - exact (HBool b).
  - exact (HInt z).
  - exact (HFloat f).
  - exact (HStr s).
  - apply HList. induction items as [|x items IHi]; constructor; [apply IH|assumption].
  - apply HDict. induction entries as [|[k x] entries IHe]; constructor;
      [apply IH|assumption].
  - exact (HObj s).
Qed.

End ValueInduction.

Section DictOfPairs.

Lemma dict_set_fresh (d : pydict) (k : pystr) (v : pyval) :
  existsb (pystr_eqb k) (List.map fst d) = false -> dict_set d k v = d ++ [(k, v)].
Proof.
  induction d as [|[k' v'] d IH]; cbn [dict_set List.map existsb fst app]; [reflexivity|].
  intros H. apply orb_false_iff in H as [Hk Hd].
  rewrite pystr_eqb_sym, Hk, IH by assumption. reflexivity.
Qed.

Lemma existsb_app_false (k : pystr) (a b : list pystr) :
  existsb (pystr_eqb k) (a ++ b) = false <->
  existsb (pystr_eqb k) a = false /\ existsb (pystr_eqb k) b = false.
Proof. rewrite existsb_app. apply orb_false_iff. Qed.

Lemma dict_of_pairs_acc (l : list (pystr * pyval)) :
  forall acc,
    distinct (List.map fst l) = true ->
    (forall k, In k (List.map fst l) -> existsb (pystr_eqb k) (List.map fst acc) = false) ->
    fold_left (fun d kv => dict_set d (fst kv) (snd kv)) l acc = acc ++ l.
Proof.
  induction l as [|[k v] l IH]; intros acc Hd Hacc; cbn [fold_left fst snd].
  - now rewrite app_nil_r.
  - cbn [List.map fst distinct] in Hd. apply andb_true_iff in Hd as [Hk Hd].
    apply negb_true_iff in Hk.
    rewrite dict_set_fresh by (apply Hacc; now left).
    rewrite IH; [now rewrite <- app_assoc|assumption|].
    intros k' Hin. rewrite List.map_app. apply existsb_app_false. split.
    + apply Hacc. now right.
    + cbn [List.map fst existsb]. rewrite orb_false_r.
      destruct (pystr_eqb k' k) eqn:He; [|reflexivity].
      apply pystr_eqb_eq in He. subst k'.
      apply existsb_eqb_In in Hin. congruence.
Qed.

(** [dict(pairs)] keeps pairs with distinct keys as they are. *)
Lemma dict_of_pairs_distinct (l : list (pystr * pyval)) :
  distinct (List.map fst l) = true -> dict_of_pairs l = l.
Proof.
  intros H. unfold dict_of_pairs. now rewrite dict_of_pairs_acc.
Qed.

End DictOfPairs.

Ltac len_norm H :=
  unfold pystr, char in *;
  repeat first [rewrite length_app in H | progress (cbn [List.length] in H)].

Section ValueRoundTrip.
Context {E : Env}.
Local Open Scope N_scope.

Lemma digit_starts_value (c : char) :
  is_digit c = true -> is_json_ws c = false /\ c <> 93 /\ c <> 34 /\ c <> 123 /\ c <> 91.
Proof.
  unfold is_digit, is_json_ws. intros H. apply andb_true_iff in H as [H1 H2].
  apply N.leb_le in H1, H2.
  repeat split; try lia.
  repeat (apply orb_false_iff; split); apply N.eqb_neq; lia.
Qed.

(** The compact text of a value starts with a character that is neither
    white space nor a closing bracket. *)
Lemma encode_head (v : pyval) (depth level : nat) (text : pystr) :
  plain_below depth v = true -> encode None level v = Some text ->
  exists c t, text = c :: t /\ is_json_ws c = false /\ c <> 93.
Proof.
  destruct depth as [|depth]; [discriminate|].
  destruct v as [|[|]|z|f|s|[|x items]|[|kv entries]|s]; cbn [plain_below encode];
    intros Hp He; try discriminate.
  1-3, 5-6, 8: injection He as <-; do 2 eexists; (split; [reflexivity|]);
    split; [reflexivity|discriminate].
  - injection He as <-. destruct (DecimalText.int_str_head z) as [c [ds [-> Hc]]].
    exists c, ds. split; [reflexivity|].
    destruct Hc as [->|Hc]; [split; [reflexivity|discriminate]|].
    destruct (digit_starts_value c Hc) as [? [? _]]. now split.
  - destruct (all_some _); [|discriminate]. injection He as <-.
    do 2 eexists. split; [reflexivity|]. split; [reflexivity|discriminate].
  - destruct (all_some _); [|discriminate]. injection He as <-.
    do 2 eexists. split; [reflexivity|]. split; [reflexivity|discriminate].
Qed.

Lemma scan_once_atom (n : nat) (c : char) (s : pystr) :
  c <> 34 -> c <> 123 -> c <> 91 -> scan_once (S n) (c :: s) = scan_atom (c :: s).
Proof.
  intros H1 H2 H3. rewrite scan_once_S.
  apply N.eqb_neq in H1, H2, H3. now rewrite H1, H2, H3.
Qed.

Lemma all_some_cons {A : Type} (x : option A) (l : list (option A)) (r : list A) :
  all_some (x :: l) = Some r ->
  exists a r', x = Some a /\ all_some l = Some r' /\ r = a :: r'.
Proof.
  unfold all_some. cbn [fold_right].
  destruct x as [a|]; [|discriminate].
  destruct (fold_right _ _ l) as [r'|]; [|discriminate].
  intros [= <-]. eauto.
Qed.

Lemma join_cons2 (sep a b : pystr) (l : list pystr) :
  join sep (a :: b :: l) = a ++ sep ++ join sep (b :: l).
Proof. reflexivity. Qed.

Lemma join_head (sep t : pystr) (c : char) (l : list pystr) :
  exists r, join sep ((c :: t) :: l) = c :: r.
Proof.
  destruct l as [|b l]; [exists t; reflexivity|].
  rewrite join_cons2, <- app_comm_cons. eauto.
Qed.


Lemma skip_ws_starts (x rest : pystr) (c : char) :
  (exists r, x = c :: r) -> is_json_ws c = false -> skip_ws (x ++ rest) = x ++ rest.
Proof. intros [r ->] H. now rewrite <- app_comm_cons, skip_ws_fixed. Qed.

Lemma array_loop_encoded (D L : nat) (items : list pyval) :
  Forall (fun v => plain_below D v = true -> reads_back v) items ->
  forallb (plain_below D) items = true -> items <> [] ->
  forall parts acc rest n,
    all_some (List.map (encode None L) items) = Some parts ->
    (List.length (join (lit ", ") parts) + 1 <= n)%nat ->
    parse_array_loop n acc (join (lit ", ") parts ++ 93 :: rest) = JOk (acc ++ items) rest.
Proof.
  induction items as [|v items IH]; [congruence|].
  intros HP Hpl _ parts acc rest n Hparts Hn.
  inversion HP as [|? ? Hv HPi]; subst.
  cbn [forallb] in Hpl. apply andb_true_iff in Hpl as [Hpv Hpi].
  cbn [List.map] in Hparts.
  apply all_some_cons in Hparts as [t [ps [Ht [Hps ->]]]].
  destruct n as [|m]; [lia|]. rewrite parse_array_loop_S.
  destruct items as [|v2 items].
  - cbn in Hps. injection Hps as <-. cbn [join] in *.
    rewrite (Hv Hpv L t (93 :: rest) m Ht eq_refl) by lia.
    reflexivity.
  - cbn [List.map] in Hps.
    destruct (all_some_cons _ _ _ Hps) as [t2 [ps2 [Ht2 [Hps2 ->]]]].
    rewrite join_cons2 in *. rewrite !length_app in Hn.
    rewrite <- !app_assoc.
    change (lit ", " ++ ?x) with (44 :: 32 :: x).
    replace (lit ", " ++ join (lit ", ") (t2 :: ps2) ++ 93 :: rest)
      with (44 :: 32 :: join (lit ", ") (t2 :: ps2) ++ 93 :: rest) by reflexivity.
    rewrite (Hv Hpv L t (44 :: _) m Ht eq_refl) by lia.
    cbn [skip_ws is_json_ws N.eqb Pos.eqb orb].
    destruct (encode_head v2 D L t2) as [c [t2' [-> [Hc _]]]];
      [now apply andb_true_iff in Hpi as [? _]|assumption|].
    rewrite (skip_ws_starts _ _ c) by (try apply join_head; assumption).
    rewrite (IH HPi Hpi ltac:(discriminate) _ (acc ++ [v]) rest m Hps).
    + now rewrite <- app_assoc.
    + change (List.length (lit ", ")) with 2%nat in Hn. lia.
Qed.


Lemma object_loop_encoded (D L : nat) (entries : list (pystr * pyval)) :
  Forall (fun kv => plain_below D (snd kv) = true -> reads_back (snd kv)) entries ->
  forallb (fun kv => plain_text (fst kv) && plain_below D (snd kv)) entries = true ->
  entries <> [] ->
  forall parts acc rest n,
    all_some (List.map (fun kv =>
                          match encode None L (snd kv) with
                          | Some t => Some (encode_basestring_ascii (fst kv) ++ lit ": " ++ t)
                          | None => None
                          end) entries) = Some parts ->
    (List.length (join (lit ", ") parts) + 1 <= n)%nat ->
    exists body,
      join (lit ", ") parts = 34 :: body
      /\ parse_object_loop n acc (body ++ 125 :: rest)
         = JOk (dict_of_pairs (acc ++ entries)) rest.
Proof.
  induction entries as [|[k v] entries IH]; [congruence|].
  intros HP Hpl _ parts acc rest n Hparts Hn.
  inversion HP as [|? ? Hv HPi]; subst. cbn [snd] in Hv.
  cbn [forallb fst snd] in Hpl. apply andb_true_iff in Hpl as [Hkv Hpi].
  apply andb_true_iff in Hkv as [Hk Hpv].
  cbn [List.map fst snd] in Hparts.
  apply all_some_cons in Hparts as [part [ps [Hpart [Hps ->]]]].
  destruct (encode None L v) as [t|] eqn:Ht; [|discriminate].
  injection Hpart as <-.
  destruct (encode_head v D L t Hpv Ht) as [c [t' [Hc [Hws _]]]].
  destruct n as [|m]; [lia|].
  destruct entries as [|kv2 entries].
  - cbn in Hps. injection Hps as <-. cbn [join] in *.
    exists ((flat_map escape_char k ++ [34]) ++ lit ": " ++ t). split; [reflexivity|].
    match goal with
    | |- parse_object_loop _ _ ?s = _ =>
        replace s with (flat_map escape_char k ++ 34 :: 58 :: 32 :: t ++ 125 :: rest)
          by (rewrite <- !app_assoc; reflexivity)
    end.
    rewrite parse_object_loop_S.
    match goal with
    | |- context [scanstring ?s] =>
        rewrite (scanstring_encoded k _ Hk : scanstring s = _)
    end.
    cbn [skip_ws is_json_ws N.eqb Pos.eqb orb].
    rewrite (skip_ws_starts t _ c) by (eauto; assumption).
    rewrite (Hv Hpv L t (125 :: _) m Ht eq_refl).
    + reflexivity.
    + unfold encode_basestring_ascii in Hn. len_norm Hn. lia.
  - cbn [List.map] in Hps.
    destruct (all_some_cons _ _ _ Hps) as [part2 [ps2 [Hpart2 [Hps2 ->]]]].
    destruct (IH HPi Hpi ltac:(discriminate) _ (acc ++ [(k, v)]) rest m Hps)
      as [body2 [Hbody2 Hloop]].
    { rewrite join_cons2, !length_app in Hn.
      change (List.length (lit ", ")) with 2%nat in Hn.
      unfold pystr, char in *. lia. }
    exists ((flat_map escape_char k ++ [34]) ++ lit ": " ++ t ++ lit ", " ++ 34 :: body2).
    split.
    { apply (f_equal (fun x => (encode_basestring_ascii k ++ lit ": " ++ t)
                               ++ lit ", " ++ x)) in Hbody2.
      etransitivity; [exact Hbody2|].
      unfold encode_basestring_ascii. list_norm. reflexivity. }
    match goal with
    | |- parse_object_loop _ _ ?s = _ =>
        replace s with (flat_map escape_char k ++ 34 :: 58 :: 32 :: t
                        ++ 44 :: 32 :: 34 :: body2 ++ 125 :: rest)
          by (rewrite <- !app_assoc; reflexivity)
    end.
    rewrite parse_object_loop_S.
    match goal with
    | |- context [scanstring ?s] =>
        rewrite (scanstring_encoded k _ Hk : scanstring s = _)
    end.
    cbn [skip_ws is_json_ws N.eqb Pos.eqb orb].
    rewrite (skip_ws_starts t _ c) by (eauto; assumption).
    rewrite (Hv Hpv L t (44 :: _) m Ht eq_refl).
    + cbn [skip_ws is_json_ws N.eqb Pos.eqb orb].
      rewrite Hloop. now rewrite <- app_assoc.
    + rewrite join_cons2 in Hn. unfold encode_basestring_ascii in Hn.
      len_norm Hn. lia.
Qed.


Lemma scan_once_array (n : nat) (X r : pystr) (c : char) :
  X = c :: r -> is_json_ws c = false -> c <> 93 ->
  scan_once (S n) (91 :: X)
  = match parse_array_loop n [] X with
    | JOk l r => JOk (PList l) r
    | JErr => JErr
    | JFuel => JFuel
    end.
Proof.
  intros -> Hws H93. rewrite scan_once_S. cbn [N.eqb Pos.eqb].
  rewrite skip_ws_fixed by assumption. apply N.eqb_neq in H93. now rewrite H93.
Qed.

Lemma scan_once_object (n : nat) (X body : pystr) :
  X = 34 :: body ->
  scan_once (S n) (123 :: X)
  = match parse_object_loop n [] body with
    | JOk d r => JOk (PDict d) r
    | JErr => JErr
    | JFuel => JFuel
    end.
Proof. intros ->. reflexivity. Qed.

(** Reading the compact text of a plain value gives the value back and
    stops at the text that follows. *)
Lemma plain_below_reads_back (v : pyval) :
  forall depth, plain_below depth v = true -> reads_back v.
Proof.
  induction v as [|b|z|f|s|items IH|entries IH|s] using pyval_nested_ind;
    intros [|D] Hp level text rest n He Hr Hn; try discriminate;
    cbn [plain_below] in Hp; try discriminate.
  - injection He as <-. destruct n as [|n]; [cbn in Hn; lia|]. reflexivity.
  - destruct b; injection He as <-; (destruct n as [|n]; [cbn in Hn; lia|]); reflexivity.
  - cbn [encode] in He. injection He as <-.
    destruct (DecimalText.int_str_head z) as [c [ds [Hs Hc]]].
    destruct n as [|n]; [rewrite Hs in Hn; cbn in Hn; lia|].
    assert (Hatom : c <> 34 /\ c <> 123 /\ c <> 91).
    { destruct Hc as [->|Hc]; [repeat split; discriminate|].
      destruct (digit_starts_value c Hc) as [_ [_ [? [? ?]]]]. auto. }
    destruct Hatom as [H1 [H2 H3]].
    transitivity (scan_atom (int_str z ++ rest)); [|now apply DecimalText.scan_atom_int].
    rewrite Hs, <- app_comm_cons. now apply scan_once_atom.
  - cbn [encode] in He. injection He as <-.
    destruct n as [|n]; [cbn in Hn; lia|].
    unfold encode_basestring_ascii. rewrite <- app_comm_cons, <- app_assoc.
    rewrite scan_once_S. cbn [N.eqb Pos.eqb].
    match goal with
    | |- context [scanstring ?t] =>
        rewrite (scanstring_encoded s rest Hp : scanstring t = _)
    end.
    reflexivity.
  - cbn [encode] in He. destruct items as [|x items].
    { injection He as <-. destruct n as [|n]; [cbn in Hn; lia|]. reflexivity. }
    destruct (all_some _) as [parts|] eqn:Hparts; [|discriminate].
    assert (Ht : text = 91 :: join (lit ", ") parts ++ [93])
      by (injection He as <-; reflexivity).
    clear He. subst text.
    destruct n as [|n]; [cbn in Hn; lia|].
    destruct (all_some_cons _ _ _ Hparts) as [t [ps [Ht [_ Hps]]]].
    assert (Hpx : plain_below D x = true)
      by (cbn [forallb] in Hp; now apply andb_true_iff in Hp).
    destruct (encode_head x D (S level) t Hpx Ht) as [c [t' [-> [Hws H93]]]].
    destruct (join_head (lit ", ") t' c ps) as [r Hr'].
    pose proof (array_loop_encoded D (S level) (x :: items)
                  (Forall_impl _ (fun v H => H D) IH) Hp ltac:(discriminate)
                  parts [] rest n Hparts) as Hloop.
    rewrite <- app_comm_cons, <- app_assoc. cbn [app].
    etransitivity;
      [apply (scan_once_array n _ (r ++ 93 :: rest) c); [|assumption..]|].
    { subst parts. apply (f_equal (fun y => y ++ 93 :: rest)) in Hr'. exact Hr'. }
    etransitivity;
      [refine (f_equal (fun y => match y with
                                 | JOk l r => JOk (PList l) r
                                 | JErr => JErr
                                 | JFuel => JFuel
                                 end) (_ : _ = JOk (x :: items) rest))|reflexivity].
    apply Hloop. len_norm Hn. lia.
  - cbn [encode] in He. destruct entries as [|kv entries].
    { injection He as <-. destruct n as [|n]; [cbn in Hn; lia|]. reflexivity. }
    destruct (all_some _) as [parts|] eqn:Hparts; [|discriminate].
    assert (Ht : text = 123 :: join (lit ", ") parts ++ [125])
      by (injection He as <-; reflexivity).
    clear He. subst text.
    destruct n as [|n]; [cbn in Hn; lia|].
    apply andb_true_iff in Hp as [Hd Hp].
    destruct (object_loop_encoded D (S level) (kv :: entries)
                (Forall_impl _ (fun kv H => H D) IH) Hp ltac:(discriminate)
                parts [] rest n Hparts) as [body [Hbody Hloop]].
    { len_norm Hn. lia. }
    rewrite <- app_comm_cons, <- app_assoc. cbn [app].
    etransitivity; [apply (scan_once_object n _ (body ++ 125 :: rest))|].
    { apply (f_equal (fun y => y ++ 125 :: rest)) in Hbody. exact Hbody. }
    rewrite Hloop. do 2 f_equal. exact (dict_of_pairs_distinct _ Hd).
Qed.

Lemma plain_reads_back (v : pyval) : plain v = true -> reads_back v.
Proof. apply plain_below_reads_back. Qed.

Lemma plain_head (v : pyval) (level : nat) (text : pystr) :
  plain v = true -> encode None level v = Some text ->
  exists c t, text = c :: t /\ is_json_ws c = false /\ c <> 93.
Proof. apply encode_head. Qed.

End ValueRoundTrip.

Section Dumped.
Context {E : Env}.
Local Open Scope N_scope.

(** [json.loads(json.dumps(v))] is [v] for a plain value. *)
Lemma json_loads_dumps (v : pyval) (text : pystr) :
  plain v = true -> json_dumps v = Some text -> json_loads text = Some v.
Proof.
  intros Hp Hd. unfold json_dumps in Hd.
  destruct (plain_head v 0 text Hp Hd) as [c [t [Ht [Hws _]]]].
  unfold json_loads.
  replace (skip_ws text) with (text ++ [])
    by (rewrite app_nil_r, Ht; symmetry; now apply skip_ws_fixed).
  rewrite (plain_reads_back v Hp 0%nat text [] _ Hd eq_refl) by lia.
  reflexivity.
Qed.

(** The compact text of a dict that is not empty is enclosed in
    braces. *)
Lemma dumps_dict_braces (d : pydict) (text : pystr) :
  d <> [] -> json_dumps (PDict d) = Some text ->
  exists body, text = 123 :: body ++ [125].
Proof.
  intros Hne. unfold json_dumps. cbn [encode].
  destruct d as [|kv d]; [congruence|].
  destruct (all_some _) as [parts|]; [|discriminate].
  intros [= <-]. now exists (join (lit ", ") parts).
Qed.

Lemma dumps_container_brackets (v : pyval) (text : pystr) :
  (exists items, v = PList items) \/ (exists entries, v = PDict entries) ->
  json_dumps v = Some text ->
  exists o body c, text = o :: body ++ [c] /\ is_opener o = true /\ is_closer c = true.
Proof.
  unfold json_dumps.
  intros [[items ->]|[entries ->]]; cbn [encode].
  - destruct items as [|x items].
    + intros [= <-]. now exists 91, [], 93.
    + destruct (all_some _) as [parts|]; [|discriminate].
      intros [= <-]. now exists 91, (join (lit ", ") parts), 93.
  - destruct entries as [|x entries].
    + intros [= <-]. now exists 123, [], 125.
    + destruct (all_some _) as [parts|]; [|discriminate].
      intros [= <-]. now exists 123, (join (lit ", ") parts), 125.
Qed.

Lemma clean_response_braced (body : pystr) :
  ~ In Ch.backtick (123 :: body ++ [125]) ->
  occurs think_open (123 :: body ++ [125]) = false ->
  clean_response (123 :: body ++ [125]) = 123 :: body ++ [125].
Proof.
  intros Hb Ht. unfold clean_response. rewrite strip_think_absent by assumption.
  rewrite (re_sub_delete_id match_json_fence Ch.backtick
             match_json_fence_consuming match_json_fence_head) by assumption.
  rewrite (re_sub_delete_id match_fence Ch.backtick
             match_fence_consuming match_fence_head) by assumption.
  unfold strip. rewrite lstrip_fixed by reflexivity.
  rewrite app_comm_cons. now apply rstrip_fixed.
Qed.

Lemma interpret_usable (d : pydict) (tool : pyval) :
  dict_get d (lit "tool") = Some tool -> tool <> PNone -> tool <> PStr (lit "null") ->
  interpret (PDict d) = Some (Some d).
Proof.
  intros Hg Hn Hs. cbn [interpret]. unfold dict_has. rewrite Hg.
  destruct tool as [| | | |s| | |]; try reflexivity; [congruence|].
  destruct (pystr_eqb s (lit "null")) eqn:He; [|reflexivity].
  apply pystr_eqb_eq in He. congruence.
Qed.

Lemma upto_last_closer_cons (c : char) (s : pystr) :
  upto_last_closer (c :: s)
  = match upto_last_closer s with
    | Some r => Some (c :: r)
    | None => if is_closer c then Some [c] else None
    end.
Proof. reflexivity. Qed.

Lemma search_json_span_cons (c : char) (s : pystr) :
  search_json_span (c :: s)
  = if is_opener c then option_map (cons c) (upto_last_closer s)
    else search_json_span s.
Proof. reflexivity. Qed.

Lemma upto_last_closer_none (post : pystr) :
  existsb is_closer post = false -> upto_last_closer post = None.
Proof.
  induction post as [|c post IH]; [reflexivity|].
  cbn [existsb]. intros H. apply orb_false_iff in H as [Hc Hp].
  rewrite upto_last_closer_cons, IH by assumption. now rewrite Hc.
Qed.

Lemma upto_last_closer_span (body post : pystr) (c : char) :
  is_closer c = true -> existsb is_closer post = false ->
  upto_last_closer (body ++ c :: post) = Some (body ++ [c]).
Proof.
  intros Hc Hp. induction body as [|x body IH].
  - rewrite app_nil_l, upto_last_closer_cons, upto_last_closer_none by assumption.
    now rewrite Hc.
  - rewrite <- !app_comm_cons, upto_last_closer_cons. now rewrite IH.
Qed.

(** The span searched in a reply: a bracketed text is found whole when
    no opening bracket comes before it and no closing one after. *)
Lemma search_json_span_found (pre body post : pystr) (o c : char) :
  is_opener o = true -> is_closer c = true ->
  existsb is_opener pre = false -> existsb is_closer post = false ->
  search_json_span (pre ++ (o :: body ++ [c]) ++ post) = Some (o :: body ++ [c]).
Proof.
  intros Ho Hc Hpre Hpost.
  induction pre as [|x pre IH].
  - rewrite app_nil_l, <- app_comm_cons, search_json_span_cons, Ho.
    rewrite <- app_assoc, <- app_comm_cons, app_nil_l.
    now rewrite upto_last_closer_span by assumption.
  - cbn [existsb] in Hpre. apply orb_false_iff in Hpre as [Hx Hpre].
    rewrite <- app_comm_cons, search_json_span_cons, Hx. now apply IH.
Qed.

End Dumped.

Section DumpedRequests.
Context {E : Env}.

(** X16: a request that the planner writes as the compact JSON text of
    a plain dict, with a usable tool, no backtick and no opening think
    tag in the text, is parsed to that very dict. *)
Theorem parse_reads_dumped_request (d : pydict) (text : pystr) (tool : pyval) :
  plain (PDict d) = true ->
  json_dumps (PDict d) = Some text ->
  dict_get d (lit "tool") = Some tool ->
  tool <> PNone -> tool <> PStr (lit "null") ->
  ~ In Ch.backtick text ->
  occurs think_open text = false ->
  _parse_tool_request text = Some d.
Proof.
  intros Hp Hd Hg Hn Hs Hb Ht.
  assert (Hne : d <> []) by (intros ->; discriminate).
  destruct (dumps_dict_braces d text Hne Hd) as [body ->].
  unfold _parse_tool_request. cbv zeta.
  match goal with
  | |- context [clean_response ?s] =>
      rewrite (clean_response_braced body Hb Ht : clean_response s = s)
  end.
  unfold try_parse. rewrite (json_loads_dumps _ _ Hp Hd).
  now rewrite (interpret_usable d tool Hg Hn Hs).
Qed.

End DumpedRequests.

Lemma parse_reads_dumped_request_witness :
  plain (PDict [ (lit "tool", PStr (lit "read_file"));
                 (lit "params", PDict [(lit "path", PStr (lit "a {b}.txt"))]);
                 (lit "filter", PList [PStr (lit "size"); PInt (-3); PNone]) ]) = true
  /\ @json_dumps scripted
       (PDict [ (lit "tool", PStr (lit "read_file"));
                (lit "params", PDict [(lit "path", PStr (lit "a {b}.txt"))]);
                (lit "filter", PList [PStr (lit "size"); PInt (-3); PNone]) ])
     = Some (jq "{'tool': 'read_file', 'params': {'path': 'a {b}.txt'}, 'filter': ['size', -3, null]}")
  /\ @_parse_tool_request scripted
       (jq "{'tool': 'read_file', 'params': {'path': 'a {b}.txt'}, 'filter': ['size', -3, null]}")
     = Some [ (lit "tool", PStr (lit "read_file"));
              (lit "params", PDict [(lit "path", PStr (lit "a {b}.txt"))]);
              (lit "filter", PList [PStr (lit "size"); PInt (-3); PNone]) ].
Proof.
  split; [reflexivity|]. split; [reflexivity|].
  apply (@parse_reads_dumped_request scripted _ _ (PStr (lit "read_file"))).
  - reflexivity.
  - reflexivity.
  - reflexivity.
  - discriminate.
  - discriminate.
  - cbv. intuition discriminate.
  - reflexivity.
Defined.

Section DumpedReplies.
Context {E : Env}.
Local Open Scope Z_scope.

Lemma parse_filtered_found (v : pyval) (pre text post : pystr) :
  plain v = true ->
  (exists items, v = PList items) \/ (exists entries, v = PDict entries) ->
  json_dumps v = Some text ->
  existsb is_opener pre = false -> existsb is_closer post = false ->
  occurs think_open (pre ++ text ++ post) = false ->
  parse_filtered (pre ++ text ++ post) = Some v.
Proof.
  intros Hp Hc Hd Hpre Hpost Ht.
  destruct (dumps_container_brackets v text Hc Hd) as [o [body [c [Htext [Ho Hcl]]]]].
  unfold parse_filtered. cbv zeta. rewrite strip_think_absent by assumption.
  pose proof (search_json_span_found pre body post o c Ho Hcl Hpre Hpost) as Hs.
  rewrite <- Htext in Hs. rewrite Hs.
  now apply json_loads_dumps.
Qed.

(** X17: when the raw result is a dict of 500 characters or more and
    the sub-model replies with the compact JSON text of a plain list or
    dict, with no opening bracket before it, no closing bracket after
    it and no opening think tag, the filter returns that very value,
    whatever fields were requested. *)
Theorem filter_returns_the_reply_json (d : pydict) (filter_fields v : pyval)
        (raw_json pre text post : pystr) (st : Orch) (w' : World) :
  json_dumps_indent 2 (PDict d) = Some raw_json ->
  500 <= len raw_json ->
  generate (sub_model (config st))
           (filter_prompt (py_str filter_fields) raw_json)
           (sub_temperature (config st)) 512 (world st)
    = (inl (pre ++ text ++ post), w') ->
  plain v = true ->
  (exists items, v = PList items) \/ (exists entries, v = PDict entries) ->
  json_dumps v = Some text ->
  existsb is_opener pre = false -> existsb is_closer post = false ->
  occurs think_open (pre ++ text ++ post) = false ->
  exists st',
    _filter_response (PDict d) filter_fields st = (Ok v, st')
    /\ world st' = w'
    /\ metrics st' = metrics st
    /\ state_summary st' = state_summary st
    /\ trace st'
       = trace st ++ [EvGenerate (sub_model (config st))
                                 (filter_prompt (py_str filter_fields) raw_json)].
Proof.
  intros Hd Hlen Hgen Hp Hc Hv Hpre Hpost Ht.
  unfold _filter_response. rewrite Hd.
  destruct (Z.ltb_spec (len raw_json) 500); [lia|].
  unfold bind at 1. cbn [get_config]. rewrite bind_run.
  unfold inference_generate. rewrite bind_run. cbn [log world set_world].
  rewrite Hgen.
  rewrite (parse_filtered_found v pre text post Hp Hc Hv Hpre Hpost Ht).
  eexists. split; [reflexivity|]. repeat split.
Qed.

End DumpedReplies.

Lemma filter_returns_the_reply_json_witness :
  @json_dumps_indent scripted 2 read_file_result = Some read_file_json
  /\ (500 <= len read_file_json)%Z
  /\ @generate scripted
       (sub_model default_config)
       (@filter_prompt (@py_str scripted (PList [PStr (lit "size")])) read_file_json)
       (sub_temperature default_config) 512
       (@world scripted
          (scripted_start [inl (lit "Here it is: " ++ jq "{'size': 600, 'lines': [1, 2]}"
                                ++ lit " (done)")]))
     = (inl (lit "Here it is: " ++ jq "{'size': 600, 'lines': [1, 2]}" ++ lit " (done)"),
        {| replies := []; clock := 0%float |})
  /\ @json_dumps scripted (PDict [ (lit "size", PInt 600);
                                   (lit "lines", PList [PInt 1; PInt 2]) ])
     = Some (jq "{'size': 600, 'lines': [1, 2]}")
  /\ exists st',
      @_filter_response scripted read_file_result (PList [PStr (lit "size")])
        (scripted_start [inl (lit "Here it is: " ++ jq "{'size': 600, 'lines': [1, 2]}"
                              ++ lit " (done)")])
      = (Ok (PDict [ (lit "size", PInt 600); (lit "lines", PList [PInt 1; PInt 2]) ]), st')
      /\ @world scripted st' = {| replies := []; clock := 0%float |}
      /\ @metrics scripted st' = new_metrics
      /\ @state_summary scripted st' = []
      /\ @trace scripted st'
         = [] ++ [EvGenerate (sub_model default_config)
                    (@filter_prompt (@py_str scripted (PList [PStr (lit "size")]))
                       read_file_json)].
Proof.
  split; [vm_compute; reflexivity|].
  split; [vm_compute; discriminate|].
  split; [reflexivity|].
  split; [reflexivity|].
  apply (@filter_returns_the_reply_json scripted
           [ (lit "content", PStr (repeat 120%N 600));
             (lit "size", PInt 600);
             (lit "path", PStr (lit "a.txt")) ]
           (PList [PStr (lit "size")])
           (PDict [ (lit "size", PInt 600); (lit "lines", PList [PInt 1; PInt 2]) ])
           read_file_json (lit "Here it is: ") (jq "{'size': 600, 'lines': [1, 2]}")
           (lit " (done)")
           (scripted_start [inl (lit "Here it is: " ++ jq "{'size': 600, 'lines': [1, 2]}"
                                 ++ lit " (done)")])
           {| replies := []; clock := 0%float |}).
  - vm_compute; reflexivity.
  - vm_compute; discriminate.
  - reflexivity.
  - vm_compute; reflexivity.
  - right. eexists. reflexivity.
  - reflexivity.
  - reflexivity.
  - reflexivity.
  - vm_compute; reflexivity.
Defined.

Section JsonParseTool.
Context {E : Env}.
Variable decode_error : pystr -> pystr.

(** X18: [json_parse] on the compact JSON text of a plain value reports
    the text as valid, with the value itself and the name of its
    type. *)
Theorem json_parse_reads_dumped_value (v : pyval) (text : pystr) :
  plain v = true -> json_dumps v = Some text ->
  json_parse decode_error text
  = [ (lit "valid", PBool true); (lit "parsed", v); (lit "type", PStr (type_name v)) ].
Proof.
  intros Hp Hd. unfold json_parse. now rewrite (json_loads_dumps v text Hp Hd).
Qed.

End JsonParseTool.

Lemma json_parse_reads_dumped_value_witness :
  plain (PList [PInt (-12); PStr (lit "a]b"); PDict [(lit "k", PBool true)]]) = true
  /\ @json_dumps scripted (PList [PInt (-12); PStr (lit "a]b"); PDict [(lit "k", PBool true)]])
     = Some (jq "[-12, 'a]b', {'k': true}]")
  /\ @json_parse scripted (fun _ => lit "Expecting value") (jq "[-12, 'a]b', {'k': true}]")
     = [ (lit "valid", PBool true);
         (lit "parsed", PList [PInt (-12); PStr (lit "a]b"); PDict [(lit "k", PBool true)]]);
         (lit "type", PStr (lit "list")) ].
Proof.
  split; [reflexivity|]. split; [reflexivity|].
  apply (@json_parse_reads_dumped_value scripted (fun _ => lit "Expecting value")
           (PList [PInt (-12); PStr (lit "a]b"); PDict [(lit "k", PBool true)]])).
  - reflexivity.
  - reflexivity.
Defined.

Section ShellSafety.
Variable Machine : Type.
Variable subprocess_run : pystr -> Z -> Machine -> proc_outcome * Machine.

Lemma startswith_app (p r : pystr) : startswith (p ++ r) p = true.
Proof. unfold startswith. now rewrite strip_prefix_app. Qed.

Lemma occurs_inside (p a b : pystr) : occurs p (a ++ p ++ b) = true.
Proof.
  induction a as [|c a IH].
  - rewrite app_nil_l. destruct (p ++ b) eqn:Hpb.
    + destruct p; [reflexivity|discriminate].
    + rewrite <- Hpb. destruct (p ++ b) eqn:H2; [congruence|].
      cbn [occurs]. rewrite <- H2, startswith_app. reflexivity.
  - rewrite <- app_comm_cons. cbn [occurs]. rewrite IH. apply orb_true_r.
Qed.

(** X19: a command that contains one of the four blocked texts anywhere
    is not run: the result is the safety error with the command, and
    the machine is left as it was. *)
Theorem run_command_blocks_dangerous (before d after : pystr) (timeout : Z) (w : Machine) :
  In d dangerous ->
  run_command subprocess_run (before ++ d ++ after) timeout w
  = ([ (lit "error", PStr (lit "Command blocked for safety"));
       (lit "command", PStr (before ++ d ++ after)) ], w).
Proof.
  intros Hd. unfold run_command.
  replace (existsb (fun d0 => occurs d0 (before ++ d ++ after)) dangerous) with true;
    [reflexivity|].
  symmetry. apply existsb_exists. exists d. split; [assumption|apply occurs_inside].
Qed.

(** X20: whatever the command and the outcome of the process, the
    result names the command; it holds either an error or an exit code,
    never both; the exit code comes with output cut to 5000 and 1000
    characters and with a success flag that is true exactly for the
    exit code 0. *)
Theorem run_command_result_shape (command : pystr) (timeout : Z) (w : Machine) :
  dict_get (fst (run_command subprocess_run command timeout w)) (lit "command")
  = Some (PStr command)
  /\ dict_has (fst (run_command subprocess_run command timeout w)) (lit "error")
     = negb (dict_has (fst (run_command subprocess_run command timeout w))
                      (lit "exit_code"))
  /\ (forall code,
        dict_get (fst (run_command subprocess_run command timeout w)) (lit "exit_code")
        = Some code ->
        exists out err rc,
          code = PInt rc
          /\ dict_get (fst (run_command subprocess_run command timeout w)) (lit "stdout")
             = Some (PStr out)
          /\ (len out <= 5000)%Z
          /\ dict_get (fst (run_command subprocess_run command timeout w)) (lit "stderr")
             = Some (PStr err)
          /\ (len err <= 1000)%Z
          /\ dict_get (fst (run_command subprocess_run command timeout w)) (lit "success")
             = Some (PBool (Z.eqb rc 0))).
Proof.
  unfold run_command.
  destruct (existsb _ dangerous).
  - cbn. repeat split. intros code H. discriminate.
  - destruct (subprocess_run command timeout w) as [[out err rc| |msg] w'].
    + cbn [fst]. split; [reflexivity|]. split; [reflexivity|].
      intros code H. injection H as <-.
      exists (slice_to 5000 out), (slice_to 1000 err), rc.
      split; [reflexivity|]. split; [reflexivity|]. split.
      { unfold len, slice_to. pose proof (firstn_le_length 5000 out). lia. }
      split; [reflexivity|]. split; [|reflexivity].
      unfold len, slice_to. pose proof (firstn_le_length 1000 err). lia.
    + cbn. repeat split. intros code H. discriminate.
    + cbn. repeat split. intros code H. discriminate.
Qed.

End ShellSafety.

Lemma run_command_blocks_dangerous_witness :
  In (lit "rm -rf /") dangerous
  /\ run_command (fun (c : pystr) (_ : Z) (w : nat) => (Completed c [] 0, S w))
       (lit "cd /tmp && " ++ lit "rm -rf /" ++ lit "var/cache") 30 7%nat
     = ([ (lit "error", PStr (lit "Command blocked for safety"));
          (lit "command", PStr (lit "cd /tmp && " ++ lit "rm -rf /" ++ lit "var/cache")) ],
        7%nat).
Proof.
  split; [left; reflexivity|].
  apply (run_command_blocks_dangerous nat
           (fun (c : pystr) (_ : Z) (w : nat) => (Completed c [] 0, S w))).
  left; reflexivity.
Defined.
